(** * gobkc/orm: the reflective mapping engine, embedded and verified

    The repository holds the same engine twice, once per placeholder
    dialect:

    - the numbered-placeholder variant ([$1], [$2], ..., [RETURNING id]),
      the file with [Query], [Insert], [Update] and [Delete];
    - the positional-placeholder variant ([?], [LastInsertId]), the file
      with [Query], [Insert] and [Delete] only.

    Module [Pg] embeds the first, module [My] the parts of the second that
    differ from it.  Modules [reflect] and [Go] hold the fragments of the Go
    runtime and standard library the engine calls ([reflect.Kind], [range]
    over a string, [strings.Join], the [%v] verb, the regular expressions)
    and module [Sql] the [database/sql] objects it drives (handle,
    transaction, cursor).  Module [Ex] has the values the examples run on
    and module [Spec] the notions the statements are written with.

    The package also has a file of utilities: module [Orm] embeds
    [Encrypt], [Decrypt], [Random], [BindDefault] and [Int], over the
    library functions they call: [strconv] ([ParseUint], [ParseInt],
    [Atoi]), [base64] (the standard encoding), [utf8] (the conversions
    between strings and runes) and [strings] ([Split], [ToUpper]).  Module
    [Notions] has the notions the statements on the utilities are written
    with.  The proofs follow, component by component.

    Left out of the embedding: the line [outputSql] logs and the release
    of statements and cursors, which change no result; [TrimAll],
    [ConvertJsonb] and [ConvertObject], which are calls of
    [strings.TrimSpace] and of [encoding/json].  Panics are modelled where
    the statements need them ([parseSqlIn], [outputSql] in [Update],
    [Encrypt], [Decrypt], [Random], [BindDefault]). *)

From Stdlib Require Import ZArith List String Ascii Bool Lia DecimalString.
From Stdlib Require Import DecimalPos.
Import ListNotations.
Open Scope string_scope.
Open Scope Z_scope.

(* ================================================================== *)
(** * Go runtime and standard-library fragments                        *)
(* ================================================================== *)

Module reflect.

(** [reflect.Kind]. *)
Inductive Kind : Set :=
| Invalid | Bool
| Int | Int8 | Int16 | Int32 | Int64
| Uint | Uint8 | Uint16 | Uint32 | Uint64 | Uintptr
| Float32 | Float64 | Complex64 | Complex128
| Array | Chan | Func | Interface | Map | Pointer | Slice | String | Struct
| UnsafePointer.

Definition Kind_eq_dec (a b : Kind) : {a = b} + {a <> b}.
Proof. decide equality. Defined.

Definition Kind_eqb (a b : Kind) : bool :=
  if Kind_eq_dec a b then true else false.

End reflect.

Module Go.

(** Bytes of a string, as the integers Go compares them with. *)
Definition byte_of (c : ascii) : Z := Z.of_N (N_of_ascii c).

(** [uint8(x)]: conversion of an integer to a byte keeps the low 8 bits. *)
Definition uint8 (x : Z) : ascii := ascii_of_N (Z.to_N (x mod 256)).

(** [append(l, x)] on a slice. *)
Definition append1 {A : Type} (l : list A) (x : A) : list A := (l ++ [x])%list.

(** [strings.Join]. *)
Definition Join (elems : list string) (sep : string) : string :=
  String.concat sep elems.

(** [fmt.Sprintf("%v", n)] and [fmt.Sprintf("%d", n)] for an integer. *)
Definition itoa (n : Z) : string := NilZero.string_of_int (Z.to_int n).

(** ** [for i, r := range s]: UTF-8 decoding

    The loop yields, for each code point, the byte offset where it starts
    and its value; an invalid or truncated encoding yields U+FFFD and
    advances by one byte. *)

Definition RuneError : Z := 65533.

Definition between (lo hi b : Z) : bool := (lo <=? b) && (b <=? hi).

Definition cont (c : ascii) : bool := between 128 191 (byte_of c).

(** Rune and width decoded at the head of a non-empty string [String c s]. *)
Definition decodeRune (c : ascii) (s : string) : Z * nat :=
  let b0 := byte_of c in
  let bad := (RuneError, 1%nat) in
  if b0 <? 128 then (b0, 1%nat)
  else if between 194 223 b0 then
    match s with
    | String c1 _ =>
        if cont c1
        then (Z.lor (Z.shiftl (Z.land b0 31) 6) (Z.land (byte_of c1) 63), 2%nat)
        else bad
    | _ => bad
    end
  else if between 224 239 b0 then
    match s with
    | String c1 (String c2 _) =>
        let b1 := byte_of c1 in
        let lo := if b0 =? 224 then 160 else 128 in
        let hi := if b0 =? 237 then 159 else 191 in
        if between lo hi b1 && cont c2
        then (Z.lor (Z.shiftl (Z.land b0 15) 12)
                (Z.lor (Z.shiftl (Z.land b1 63) 6) (Z.land (byte_of c2) 63)),
              3%nat)
        else bad
    | _ => bad
    end
  else if between 240 244 b0 then
    match s with
    | String c1 (String c2 (String c3 _)) =>
        let b1 := byte_of c1 in
        let lo := if b0 =? 240 then 144 else 128 in
        let hi := if b0 =? 244 then 143 else 191 in
        if between lo hi b1 && cont c2 && cont c3
        then (Z.lor (Z.shiftl (Z.land b0 7) 18)
                (Z.lor (Z.shiftl (Z.land b1 63) 12)
                   (Z.lor (Z.shiftl (Z.land (byte_of c2) 63) 6)
                      (Z.land (byte_of c3) 63))),
              4%nat)
        else bad
    | _ => bad
    end
  else bad.

(** The pairs (byte offset, rune) of a [range] loop over the part of the
    string that starts at offset [i], the first [skip] bytes of which belong
    to the rune decoded last. *)
Fixpoint rangeFrom (i : nat) (skip : nat) (s : string) : list (nat * Z) :=
  match s with
  | EmptyString => []
  | String c s' =>
      match skip with
      | S k => rangeFrom (S i) k s'
      | O =>
          let (r, w) := decodeRune c s' in
          (i, r) :: rangeFrom (S i) (pred w) s'
      end
  end.

Definition range (s : string) : list (nat * Z) := rangeFrom 0 0 s.

(** ** Values

    A Go value as the engine observes it through [reflect], [fmt] and
    [encoding/json].  [int], [int64], [string] and [time.Time] values are
    modelled structurally ([int] is taken to be 64 bits wide); the text that
    [time.Time.Format] gives for the layout [2006-01-02 15:04:05] and the
    text of [%v] are carried by the value.  [VIface] is a non-nil value held
    in a field of interface type.  Every other value (other integer widths,
    floats, booleans, slices, maps, pointers, other structs) is [VOpaque]:
    its kind, the text [%v] prints for it and its JSON encoding.  Types are
    the predeclared ones: a defined type over [int], [int64] or [string] is
    outside the model. *)
Inductive value : Set :=
| VInt (n : Z)
| VInt64 (n : Z)
| VString (s : string)
| VTime (zero : bool) (stamp : string) (text : string)
| VIface (dyn : value)
| VOpaque (k : reflect.Kind) (text : string) (json : string).

(** [reflect.Value.Kind] of a field holding the value. *)
Definition kindOf (v : value) : reflect.Kind :=
  match v with
  | VInt _ => reflect.Int
  | VInt64 _ => reflect.Int64
  | VString _ => reflect.String
  | VTime _ _ _ => reflect.Struct
  | VIface _ => reflect.Interface
  | VOpaque k _ _ => k
  end.

(** [reflect.Value.Interface]: the value as an [any]; a field of interface
    type gives the value it holds. *)
Definition Interface (v : value) : value :=
  match v with
  | VIface d => d
  | _ => v
  end.

(** [fmt.Sprintf("%v", v)]. *)
Fixpoint Sprint (v : value) : string :=
  match v with
  | VInt n => itoa n
  | VInt64 n => itoa n
  | VString s => s
  | VTime _ _ text => text
  | VIface d => Sprint d
  | VOpaque _ text _ => text
  end.

(** [json.Marshal] of a value of kind slice (the only kind the engine
    encodes); such a value is [VOpaque]. *)
Definition Marshal (v : value) : string :=
  match v with
  | VOpaque _ _ json => json
  | _ => ""
  end.

(** A [float64], represented by the text [%v] prints for it (the shortest
    decimal text that reads back as the same number). *)
Record float64 : Set := { f64_text : string }.

(** One element of a variadic [args ...any] list.  The four slice types the
    conversion table asserts are structural; [ASlice] is any other slice
    type, by its element kind and length; [AScalar] is any value that is not
    a slice; [ANil] is the untyped [nil]. *)
Inductive arg : Set :=
| ANil
| AScalar (v : value)
| AStrings (l : list string)
| AInt64s (l : list Z)
| AInts (l : list Z)
| AFloat64s (l : list float64)
| ASlice (elem : reflect.Kind) (len : nat).

(** [reflect.TypeOf(a).Kind() == reflect.Slice]; [None] is the panic of
    calling [Kind] on the nil type of an untyped [nil]. *)
Definition isSlice (a : arg) : option bool :=
  match a with
  | ANil => None
  | AScalar _ => Some false
  | _ => Some true
  end.

(** [reflect.ValueOf(a).Len()] of a slice. *)
Definition Len (a : arg) : nat :=
  match a with
  | AStrings l => List.length l
  | AInt64s l => List.length l
  | AInts l => List.length l
  | AFloat64s l => List.length l
  | ASlice _ n => n
  | _ => 0%nat
  end.

(** [reflect.ValueOf(a).Index(0).Kind()] of a non-empty slice: the kind of
    the element type. *)
Definition elemKind (a : arg) : reflect.Kind :=
  match a with
  | AStrings _ => reflect.String
  | AInt64s _ => reflect.Int64
  | AInts _ => reflect.Int
  | AFloat64s _ => reflect.Float64
  | ASlice k _ => k
  | _ => reflect.Invalid
  end.

(** ** Struct values

    A struct value with the metadata [reflect] gives for its type: for each
    field, in declaration order, the identifier, the [json] and [pri] tags
    ([reflect.StructTag.Get], the empty string when absent) and the value.
    Fields are exported ([reflect] can neither read through [Interface] nor
    [Set] the others).  [TableName] is the result of the type's
    value-receiver method of that name, when it has one. *)
Record Field : Set := {
  Name : string;
  json : string;
  pri : string;
  val : value
}.

Record Struct : Set := {
  TypeName : string;
  TableName : option string;
  Fields : list Field
}.

Definition setVal (f : Field) (v : value) : Field :=
  {| Name := Name f; json := json f; pri := pri f; val := v |}.

Definition withFields (s : Struct) (fs : list Field) : Struct :=
  {| TypeName := TypeName s; TableName := TableName s; Fields := fs |}.

(** [reflect.Value.FieldByName(name).Set(v)]: the first field with that
    identifier (identifiers of a struct type are distinct). *)
Fixpoint setByName (fs : list Field) (name : string) (v : value) : list Field :=
  match fs with
  | [] => []
  | f :: fs' =>
      if String.eqb (Name f) name then setVal f v :: fs'
      else f :: setByName fs' name v
  end.

(** ** [regexp.ReplaceAllStringFunc]

    The pattern is given by [matchAt]: the length of the match that starts
    at the head of a string, when there is one (the patterns of the engine
    never match the empty string, and begin with a space, so matches start at
    rune boundaries).  Matches are found from the left and do not overlap;
    text between them is copied.  The Go callback is a closure over a
    counter: here it takes and returns that state. *)
Inductive piece : Set :=
| Text (c : ascii)
| Match (m : string).

Section ReplaceAll.
Context {St : Type}.
Variable matchAt : string -> option nat.
Variable repl : St -> string -> St * string.

Fixpoint replaceFrom (skip : nat) (st : St) (s : string) : string :=
  match s with
  | EmptyString => EmptyString
  | String c s' =>
      match skip with
      | S k => replaceFrom k st s'
      | O =>
          match matchAt s with
          | Some (S n) =>
              let (st', r) := repl st (substring 0 (S n) s) in
              r ++ replaceFrom n st' s'
          | _ => String c (replaceFrom 0 st s')
          end
      end
  end.

Definition ReplaceAllStringFunc (st : St) (src : string) : string :=
  replaceFrom 0 st src.

(** The matches, in order: [regexp.FindAllString(src, -1)]. *)
Fixpoint findFrom (skip : nat) (s : string) : list string :=
  match s with
  | EmptyString => []
  | String c s' =>
      match skip with
      | S k => findFrom k s'
      | O =>
          match matchAt s with
          | Some (S n) => substring 0 (S n) s :: findFrom n s'
          | _ => findFrom 0 s'
          end
      end
  end.

Definition FindAllString (src : string) : list string := findFrom 0 src.

(** The same scan, keeping everything: the matches and, byte by byte,
    the text between them. *)
Fixpoint piecesFrom (skip : nat) (s : string) : list piece :=
  match s with
  | EmptyString => []
  | String c s' =>
      match skip with
      | S k => piecesFrom k s'
      | O =>
          match matchAt s with
          | Some (S n) => Match (substring 0 (S n) s) :: piecesFrom n s'
          | _ => Text c :: piecesFrom 0 s'
          end
      end
  end.

Definition pieces (src : string) : list piece := piecesFrom 0 src.
End ReplaceAll.

(** The source text of a list of pieces. *)
Fixpoint raw (ps : list piece) : string :=
  match ps with
  | [] => ""
  | Text c :: ps' => String c (raw ps')
  | Match m :: ps' => m ++ raw ps'
  end.

(** The matches among the pieces. *)
Fixpoint matchesOf (ps : list piece) : list string :=
  match ps with
  | [] => []
  | Text _ :: ps' => matchesOf ps'
  | Match m :: ps' => m :: matchesOf ps'
  end.

(** The pieces with the match number [i], [i + 1], ... replaced by
    [out i], [out (i + 1)], ... and the text kept. *)
Fixpoint substitute (out : nat -> string) (i : nat) (ps : list piece) : string :=
  match ps with
  | [] => ""
  | Text c :: ps' => String c (substitute out i ps')
  | Match _ :: ps' => out i ++ substitute out (S i) ps'
  end.

(** [s[n:]], the empty string when [n] is past the end. *)
Fixpoint drop (n : nat) (s : string) : string :=
  match n, s with
  | O, _ => s
  | S n', String _ s' => drop n' s'
  | S _, EmptyString => EmptyString
  end.

(** [strings.ToLower] on one ASCII byte. *)
Definition lowerByte (c : ascii) : ascii :=
  let b := byte_of c in
  if between 65 90 b then uint8 (b + 32) else c.

(** Does [s] begin with [pat], letters compared without regard to case
    ([pat] is lower case)?  Gives the rest of [s]. *)
Fixpoint stripPrefixFold (pat s : string) : option string :=
  match pat with
  | EmptyString => Some s
  | String p pat' =>
      match s with
      | String c s' =>
          if Ascii.eqb (lowerByte c) p then stripPrefixFold pat' s' else None
      | EmptyString => None
      end
  end.

(** [(.*?) ] at the head of [s]: some space comes before any newline. *)
Fixpoint lazyThenSpace (s : string) : bool :=
  match s with
  | EmptyString => false
  | String c s' =>
      if Ascii.eqb c " " then true
      else if Ascii.eqb c "010" then false
      else lazyThenSpace s'
  end.

(** [regexp.MustCompile("(?i)" + kw + "(.*?) ").FindAllStringSubmatch(s, -1)
    != nil] for a keyword [kw] of ASCII letters and spaces, given in lower
    case: the pattern matches somewhere in [s]. *)
Fixpoint matchesKeyword (kw : string) (s : string) : bool :=
  match stripPrefixFold kw s with
  | Some rest => if lazyThenSpace rest then true else
      match s with
      | EmptyString => false
      | String _ s' => matchesKeyword kw s'
      end
  | None =>
      match s with
      | EmptyString => false
      | String _ s' => matchesKeyword kw s'
      end
  end.

End Go.

(* ================================================================== *)
(** * Name resolver (identical in both variants)                       *)
(* ================================================================== *)

(** One iteration of the loop of [toSnake]: [convert] is the byte slice
    built so far, [i] the byte offset of the rune [asc]. *)
Definition toSnake_step (convert : string) (ir : nat * Z) : string :=
  let (i, asc) := ir in
  if (65 <=? asc) && (asc <=? 90) then
    let asc := asc + 32 in
    let convert := if (0 <? i)%nat then convert ++ String (Go.uint8 95) "" else convert in
    convert ++ String (Go.uint8 asc) ""
  else
    convert ++ String (Go.uint8 asc) "".

Definition toSnake (name : string) : string :=
  fold_left toSnake_step (Go.range name) "".

(** The derivation in the words of the specification, rune by rune: an
    upper-case ASCII letter is lower-cased and, when interior, preceded by
    the delimiter; any other rune is kept (as its low byte). *)
Definition is_upper (r : Z) : bool := (65 <=? r) && (r <=? 90).

Definition snake_rune (interior : bool) (r : Z) : string :=
  if is_upper r
  then (if interior then "_" else "") ++ String (Go.uint8 (r + 32)) ""
  else String (Go.uint8 r) "".

Fixpoint snake_interior (rs : list Z) : string :=
  match rs with
  | [] => ""
  | r :: rs' => snake_rune true r ++ snake_interior rs'
  end.

Definition snake_of_runes (rs : list Z) : string :=
  match rs with
  | [] => ""
  | r :: rs' => snake_rune false r ++ snake_interior rs'
  end.

(* ================================================================== *)
(** * [database/sql]: the handle, the transaction and the cursor        *)
(* ================================================================== *)

Module Sql.
Import Go.

(** Errors: the two fixed errors of the engine and the errors that come
    from [database/sql] or the driver, by their message. *)
Inductive error : Set :=
| ErrAllow
| ErrInsertAllow
| SqlError (msg : string).

Definition errRowsClosed : error := SqlError "sql: Rows are closed".
Definition errScanWithoutNext : error :=
  SqlError "sql: Scan called without calling Next".
Definition errScanArity (columns receivers : nat) : error :=
  SqlError ("sql: expected " ++ itoa (Z.of_nat columns)
            ++ " destination arguments in Scan, not "
            ++ itoa (Z.of_nat receivers)).

(** A column value as the driver delivers it. *)
Inductive cell : Set :=
| CNull
| CValue (v : value).

(** [*sql.Rows]: the column names, the rows not yet read, the row [Next]
    made current, and whether the cursor is closed. *)
Record Rows : Set := {
  columns : list string;
  pending : list (list cell);
  lastcols : option (list cell);
  closed : bool
}.

Definition openRows (cols : list string) (rows : list (list cell)) : Rows :=
  {| columns := cols; pending := rows; lastcols := None; closed := false |}.

(** [rows.Columns()]. *)
Definition Columns (rs : Rows) : error + list string :=
  if closed rs then inl errRowsClosed else inr (columns rs).

(** [rows.Next()]: makes the next row current; at the end of the result
    set it closes the cursor and returns false. *)
Definition Next (rs : Rows) : bool * Rows :=
  if closed rs then (false, rs)
  else
    match pending rs with
    | [] => (false, {| columns := columns rs; pending := [];
                       lastcols := None; closed := true |})
    | r :: rest => (true, {| columns := columns rs; pending := rest;
                            lastcols := Some r; closed := false |})
    end.

Section Scan.
(** [convertAssign]: the conversion of a column value into a receiver;
    the receiver's type is given by the zero value of that type.  It is
    the driver's and [database/sql]'s business, and a parameter here. *)
Variable convertAssign : value -> cell -> error + value.

(** The loop of [Scan] over the columns of the current row, each
    converted into the receiver of its index; [Scan] runs it once it has
    found as many receivers as columns. *)
Fixpoint assignAll (types : list value) (row : list cell)
  : error + list value :=
  match types, row with
  | t :: types', c :: row' =>
      match convertAssign t c with
      | inl e => inl e
      | inr v =>
          match assignAll types' row' with
          | inl e => inl e
          | inr vs => inr (v :: vs)
          end
      end
  | _, _ => inr []
  end.

(** [rows.Scan(dest...)], for receivers of the given types: the new
    contents of the receivers, or the error.  A closed cursor, a cursor
    on which [Next] has made no row current, and a number of receivers
    other than the number of columns are errors (the last one names the
    two numbers); [scanRow] is the scan of the current row. *)
Definition scanRow (types : list value) (row : list cell)
  : error + list value :=
  if (List.length types =? List.length row)%nat
  then assignAll types row
  else inl (errScanArity (List.length row) (List.length types)).

Definition Scan (rs : Rows) (types : list value) : error + list value :=
  if closed rs then inl errRowsClosed
  else
    match lastcols rs with
    | None => inl errScanWithoutNext
    | Some row => scanRow types row
    end.
End Scan.

(** A conversion that stores a column value in a receiver of the same
    kind and refuses every other pair: the part of [convertAssign] the
    examples below run on. *)
Definition convertSameKind (t : value) (c : cell) : error + value :=
  match c with
  | CNull => inl (SqlError "sql: Scan error: converting NULL is unsupported")
  | CValue v =>
      if reflect.Kind_eqb (kindOf v) (kindOf t) then inr v
      else inl (SqlError "sql: Scan error: unsupported conversion")
  end.

(** What the engine asks of the handle, in order. *)
Inductive event : Set :=
| EvPrepare (sqlStr : string)
| EvQuery (sqlStr : string) (args : list arg).

(** [*sql.DB] outside a transaction: whether preparing a statement
    succeeds, and what running a prepared statement gives. *)
Record DB : Set := {
  PrepareContext : string -> option error;
  QueryContext : string -> list arg -> error + Rows
}.

(** A transaction, as the caller and the other sessions can observe it:
    not begun, open with the statements applied in it so far, committed,
    rolled back, or left after a failed commit.  [db.Begin()] opens it,
    [tx.Rollback()] and [tx.Commit()] end it; a function that returns
    without calling either leaves it open. *)
Inductive txState : Set :=
| NoTx
| Open (applied : list string)
| Committed (applied : list string)
| RolledBack
| CommitFailed.

(** The statements whose effect is durable. *)
Definition durable (st : txState) : list string :=
  match st with
  | Committed applied => applied
  | _ => []
  end.

(** [*sql.DB] and [*sql.Tx] for the batch operations.  Each answer may
    depend on the statements already applied in the transaction.
    [QueryRowScan] is [stmt.QueryRowContext(ctx).Scan(&lastId)] on an
    [INSERT ... RETURNING id]; [ExecLastInsertId] is [stmt.ExecContext(ctx)]
    followed, when it succeeds, by [result.LastInsertId()]. *)
Record TxDB : Set := {
  Begin : option error;
  Prepare : list string -> string -> option error;
  QueryRowScan : list string -> string -> error + Z;
  ExecContext : list string -> string -> list arg -> option error;
  ExecLastInsertId : list string -> string -> error + (error + Z);
  Commit : list string -> option error
}.

End Sql.

(* ================================================================== *)
(** * The numbered-placeholder variant                                 *)
(* ================================================================== *)

Module Pg.
Import Go.

Definition getTableName (dest : Struct) : string :=
  let tableName :=
    match TableName dest with
    | Some ret => ret
    | None => ""
    end in
  if String.eqb tableName "" then toSnake (TypeName dest) else tableName.

Record KV : Set := { Key : string; Value : string }.

(** The column name of a field in the write path: the [json] tag when there
    is one, the snake-cased identifier otherwise. *)
Definition columnOf (f : Field) : string :=
  if String.eqb (json f) "" then toSnake (Name f) else json f.

(** The test both [getKeysValues] and [generateUpdate] make on a field
    before they skip it. *)
Definition isPrimary (f : Field) : bool :=
  String.eqb (columnOf f) "id" || negb (String.eqb (pri f) "").

(** The literal [getKeysValues] writes for a field value: the statements
    of the loop body that compute [strValue]. *)
Definition insertLiteral (value : value) : string :=
  let strValue := Sprint value in
  let valueKind := kindOf value in
  let strValue :=
    if reflect.Kind_eqb valueKind reflect.String
       || reflect.Kind_eqb valueKind reflect.Interface
    then "'" ++ Sprint value ++ "'" else strValue in
  let strValue :=
    if reflect.Kind_eqb valueKind reflect.Struct then
      match value with
      | VTime zero stamp _ =>
          if zero then "DEFAULT" else "'" ++ stamp ++ "'"
      | _ => strValue
      end
    else strValue in
  if reflect.Kind_eqb valueKind reflect.Slice
  then "'" ++ Marshal value ++ "'" else strValue.

(** One iteration of the loop of [getKeysValues] on the slices [keys] and
    [values]. *)
Definition getKeysValues_step (acc : list string * list string) (f : Field)
  : list string * list string :=
  let (keys, values) := acc in
  let name := columnOf f in
  if String.eqb name "id" || negb (String.eqb (pri f) "") then acc
  else
    let value := Interface (val f) in
    let strValue := insertLiteral value in
    if reflect.Kind_eqb (kindOf value) reflect.Pointer then acc
    else (append1 keys name, append1 values strValue).

(** The slices [keys] and [values] when the loop ends. *)
Definition keysValues (dest : Struct) : list string * list string :=
  fold_left getKeysValues_step (Fields dest) ([], []).

Definition getKeysValues (dest : Struct) : KV :=
  let (keys, values) := keysValues dest in
  {| Key := Join keys ","; Value := Join values "," |}.

(** The table of slice printers, by element kind.  A printer asserts the
    slice type ([meta.([]string)], ...): [None] is the panic of a failed
    assertion.  The table is consulted for slices of positive length only,
    so the [!= nil] test of a printer never fails there; the empty list
    stands for the nil slice. *)
Definition convertSlice2StringFuncMap (k : reflect.Kind)
  : option (arg -> option string) :=
  match k with
  | reflect.String => Some (fun meta =>
      match meta with
      | AStrings v =>
          Some (match v with [] => "" | _ => "'" ++ Join v "','" ++ "'" end)
      | _ => None
      end)
  | reflect.Int64 => Some (fun meta =>
      match meta with
      | AInt64s list =>
          Some (match list with [] => "" | _ => Join (map itoa list) "," end)
      | _ => None
      end)
  | reflect.Int => Some (fun meta =>
      match meta with
      | AInts list =>
          Some (match list with [] => "" | _ => Join (map itoa list) "," end)
      | _ => None
      end)
  | reflect.Float64 => Some (fun meta =>
      match meta with
      | AFloat64s list =>
          Some (match list with [] => "" | _ => Join (map f64_text list) "," end)
      | _ => None
      end)
  | _ => None
  end.

(** The first loop of [parseSqlIn]: slices leave the argument list, those
    with a printer (and at least one element) become pending expansions.
    [None] is a panic. *)
Fixpoint splitArgs (find : reflect.Kind -> option (arg -> option string))
  (args : list arg) (sliceArgs : list string) (newArgs : list arg)
  : option (list string * list arg) :=
  match args with
  | [] => Some (sliceArgs, newArgs)
  | a :: rest =>
      match isSlice a with
      | None => None
      | Some true =>
          if (0 <? Len a)%nat then
            match find (elemKind a) with
            | Some f =>
                match f a with
                | Some str => splitArgs find rest (append1 sliceArgs str) newArgs
                | None => None
                end
            | None => splitArgs find rest sliceArgs newArgs
            end
          else splitArgs find rest sliceArgs newArgs
      | Some false => splitArgs find rest sliceArgs (append1 newArgs a)
      end
  end.

Definition isI (c : ascii) : bool := Ascii.eqb c "I" || Ascii.eqb c "i".
Definition isN (c : ascii) : bool := Ascii.eqb c "N" || Ascii.eqb c "n".
Definition isDigit (c : ascii) : bool := between 48 57 (byte_of c).

Fixpoint digitsLen (s : string) : nat :=
  match s with
  | String c s' => if isDigit c then S (digitsLen s') else 0%nat
  | EmptyString => 0%nat
  end.

(** The pattern [" (IN|in|In|iN) \$[0-9]*"] at the head of a string. *)
Definition inPattern (s : string) : option nat :=
  match s with
  | String sp (String i (String n (String sp' (String d rest)))) =>
      if Ascii.eqb sp " " && isI i && isN n && Ascii.eqb sp' " "
         && Ascii.eqb d "$"
      then Some (5 + digitsLen rest)%nat
      else None
  | _ => None
  end.

(** The callback of [ReplaceAllStringFunc], a closure over [sliceIdx]. *)
Definition inRepl (sliceArgs : list string) (sliceIdx : nat) (s : string)
  : nat * string :=
  let arg :=
    if (sliceIdx <? List.length sliceArgs)%nat
    then nth sliceIdx sliceArgs "" else "" in
  let sliceIdx := S sliceIdx in
  if String.eqb arg "" then (sliceIdx, " IN ")
  else (sliceIdx, " IN (" ++ arg ++ ")").

Definition parseSqlIn (sqlStr : string) (args : list arg)
  : option (string * list arg) :=
  match splitArgs convertSlice2StringFuncMap args [] [] with
  | None => None
  | Some (sliceArgs, newArgs) =>
      Some (ReplaceAllStringFunc inPattern (inRepl sliceArgs) 0%nat sqlStr,
            newArgs)
  end.

Definition generateDelete (sqlStr : string) (dest : Struct) : string :=
  if matchesKeyword "delete from " sqlStr then sqlStr
  else "DELETE FROM " ++ getTableName dest ++ " WHERE " ++ sqlStr.

(** The literal [generateUpdate] writes for a field value: the statements
    of the loop body that compute [valueStr]. *)
Definition updateLiteral (value : value) : string :=
  let k := kindOf value in
  let valueStr :=
    if reflect.Kind_eqb k reflect.String || reflect.Kind_eqb k reflect.Struct
       || reflect.Kind_eqb k reflect.Interface
    then "'" ++ Sprint value ++ "'" else Sprint value in
  let valueStr :=
    if reflect.Kind_eqb k reflect.Struct then
      match Interface value with
      | VTime _ stamp _ => "'" ++ stamp ++ "'"
      | _ => valueStr
      end
    else valueStr in
  if reflect.Kind_eqb k reflect.Slice
  then "'" ++ Marshal (Interface value) ++ "'" else valueStr.

(** One iteration of the loop of [generateUpdate] on [sets] and on the
    filter [sqlStr], which the first primary-key field fills in when the
    caller left it empty. *)
Definition generateUpdate_step (acc : list string * string) (f : Field)
  : list string * string :=
  let (sets, sqlStr) := acc in
  let fieldName := toSnake (Name f) in
  let jsonName := json f in
  let fieldName := if String.eqb jsonName "" then fieldName else jsonName in
  let isPrimary := String.eqb fieldName "id" || negb (String.eqb (pri f) "") in
  let value := val f in
  if isPrimary then
    if String.eqb sqlStr "" then (sets, fieldName ++ " = " ++ Sprint value)
    else acc
  else
    let valueStr := updateLiteral value in
    if reflect.Kind_eqb (kindOf value) reflect.Pointer then acc
    else (append1 sets (fieldName ++ "=" ++ valueStr), sqlStr).

(** The slice [sets] and the filter when the loop ends. *)
Definition setsWhere (sqlStr : string) (dest : Struct) : list string * string :=
  fold_left generateUpdate_step (Fields dest) ([], sqlStr).

Definition generateUpdate (sqlStr : string) (dest : Struct) : string :=
  if matchesKeyword "delete " sqlStr then sqlStr
  else
    let tableName := getTableName dest in
    let (sets, sqlStr) := setsWhere sqlStr dest in
    "UPDATE " ++ tableName ++ " SET " ++ Join sets "," ++ " WHERE " ++ sqlStr.

(** The table of primary-key writers, by field kind. *)
Definition savePriFieldMap (k : reflect.Kind) : option (Z -> value) :=
  match k with
  | reflect.Int => Some (fun lastId => VInt lastId)
  | reflect.Int64 => Some (fun lastId => VInt64 lastId)
  | _ => None
  end.

(** The loop of [savePrimaryKey] over the fields from the current one on:
    the first field that passes the name test and has a writer is set, and
    the function returns. *)
Fixpoint savePrimaryKey_loop (fs : list Field) (lastId : Z) : list Field :=
  match fs with
  | [] => []
  | f :: rest =>
      let name := toSnake (Name f) in
      let nameTag := json f in
      let isPri := negb (String.eqb (pri f) "") in
      if String.eqb name "id" || String.eqb nameTag "id" || isPri then
        match savePriFieldMap (kindOf (val f)) with
        | Some convert => setVal f (convert lastId) :: rest
        | None => f :: savePrimaryKey_loop rest lastId
        end
      else f :: savePrimaryKey_loop rest lastId
  end.

(** [savePrimaryKey(&row, lastId)]: the row after the call. *)
Definition savePrimaryKey (dest : Struct) (lastId : Z) : Struct :=
  withFields dest (savePrimaryKey_loop (Fields dest) lastId).

(** ** The row marshaller *)

(** [allows]. *)
Definition allows : list reflect.Kind :=
  [reflect.Struct; reflect.Slice; reflect.Int; reflect.Int64;
   reflect.String; reflect.Float64].

Definition ErrUpdateAllow : Sql.error := Sql.ErrInsertAllow.

(** [map[string]int], with [m[k] = v] and the two-result lookup. *)
Definition emptyMap : string -> option nat := fun _ => None.

Definition setKey (m : string -> option nat) (k : string) (v : nat)
  : string -> option nat :=
  fun k' => if String.eqb k' k then Some v else m k'.

(** The first loop of [unmarshalStruct] and [unmarshalSlice]:
    [fieldsMap[tag] = curField] for the fields from index [curField] on. *)
Fixpoint buildFieldsMap (fs : list Field) (curField : nat)
  (fieldsMap : string -> option nat) : string -> option nat :=
  match fs with
  | [] => fieldsMap
  | f :: rest =>
      let tag := json f in
      let tag := if String.eqb tag "" then toSnake (Name f) else tag in
      buildFieldsMap rest (S curField) (setKey fieldsMap tag curField)
  end.

(** The second loop: for each column of the result set that names a field,
    the field identifier and a receiver of the field's type.  A receiver is
    a fresh zero value; it is given here by the field's value in the
    destination, which is the zero value [new(T)] when [Query] calls. *)
Fixpoint bindColumns (fs : list Field) (fieldsMap : string -> option nat)
  (columns : list string) (fieldNames : list string) (values : list value)
  : list string * list value :=
  match columns with
  | [] => (fieldNames, values)
  | column :: rest =>
      match fieldsMap column with
      | Some curField =>
          match nth_error fs curField with
          | Some field =>
              bindColumns fs fieldsMap rest
                (append1 fieldNames (Name field)) (append1 values (val field))
          | None => bindColumns fs fieldsMap rest fieldNames values
          end
      | None => bindColumns fs fieldsMap rest fieldNames values
      end
  end.

(** The last loop: [FieldByName(column).Set(values[i])]. *)
Fixpoint copyValues (fs : list Field) (fieldNames : list string)
  (values : list value) : list Field :=
  match fieldNames, values with
  | column :: names', v :: values' =>
      copyValues (setByName fs column v) names' values'
  | _, _ => fs
  end.

Section Marshaller.
Variable convertAssign : value -> Sql.cell -> Sql.error + value.

(** [for rows.Next() { err = rows.Scan(values...); if err != nil { return
    err } }]: the contents of the receivers after the loop.  The loop
    runs at most once per pending row; [fuel] bounds its iterations. *)
Fixpoint scanEvery (fuel : nat) (rows : Sql.Rows) (types values : list value)
  : option Sql.error * list value * Sql.Rows :=
  match fuel with
  | O => (None, values, rows)
  | S fuel' =>
      let (more, rows) := Sql.Next rows in
      if more then
        match Sql.Scan convertAssign rows types with
        | inl err => (Some err, values, rows)
        | inr values => scanEvery fuel' rows types values
        end
      else (None, values, rows)
  end.

Definition unmarshalStruct (rows : Sql.Rows) (dest : Struct)
  : option Sql.error * Struct :=
  match Sql.Columns rows with
  | inl err => (Some err, dest)
  | inr columns =>
      let fieldsMap := buildFieldsMap (Fields dest) 0 emptyMap in
      let (fieldNames, values) :=
        bindColumns (Fields dest) fieldsMap columns [] [] in
      match scanEvery (S (List.length (Sql.pending rows))) rows values values with
      | (Some err, _, _) => (Some err, dest)
      | (None, values, _) =>
          (None, withFields dest (copyValues (Fields dest) fieldNames values))
      end
  end.

(** The row loop of [unmarshalSlice]: [meta] is the one element value the
    function allocates, overwritten for every row and appended by value. *)
Fixpoint appendEvery (fuel : nat) (rows : Sql.Rows) (types : list value)
  (fieldNames : list string) (meta : Struct) (out : list Struct)
  : option Sql.error * list Struct :=
  match fuel with
  | O => (None, out)
  | S fuel' =>
      let (more, rows) := Sql.Next rows in
      if more then
        match Sql.Scan convertAssign rows types with
        | inl err => (Some err, out)
        | inr values =>
            let newMeta :=
              withFields meta (copyValues (Fields meta) fieldNames values) in
            appendEvery fuel' rows types fieldNames newMeta (append1 out newMeta)
        end
      else (None, out)
  end.

(** [unmarshalSlice] on a destination [*[]S]: [meta] is the zero value of
    [S], [dest] the elements the destination holds. *)
Definition unmarshalSlice (rows : Sql.Rows) (meta : Struct) (dest : list Struct)
  : option Sql.error * list Struct :=
  match Sql.Columns rows with
  | inl err => (Some err, dest)
  | inr columns =>
      let fieldsMap := buildFieldsMap (Fields meta) 0 emptyMap in
      let (fieldNames, values) :=
        bindColumns (Fields meta) fieldsMap columns [] [] in
      appendEvery (S (List.length (Sql.pending rows))) rows values fieldNames
        meta dest
  end.

(** [unmarshalNumOrStr]: the body of the [for] runs once, whatever [Next]
    answers. *)
Definition unmarshalNumOrStr (rows : Sql.Rows) (dest : value)
  : option Sql.error * value :=
  let (_, rows) := Sql.Next rows in
  match Sql.Scan convertAssign rows [dest] with
  | inl err => (Some err, dest)
  | inr (v :: _) => (None, v)
  | inr [] => (None, dest)
  end.

(** The destination [t = new(T)] of a query: a struct, a slice of
    structs (its element type by the zero value [elem]), or a value of
    any kind other than struct and slice. *)
Inductive Dest : Set :=
| DStruct (s : Struct)
| DSlice (elem : Struct) (items : list Struct)
| DScalar (v : value).

Definition destKind (t : Dest) : reflect.Kind :=
  match t with
  | DStruct _ => reflect.Struct
  | DSlice _ _ => reflect.Slice
  | DScalar v => kindOf v
  end.

Record QueryResult : Set := {
  q_t : option Dest;
  q_err : option Sql.error;
  q_log : list Sql.event
}.

(** [Query].  [None] is a panic of [parseSqlIn]. *)
Definition Query (db : Sql.DB) (t : Dest) (sqlStr : string) (args : list arg)
  : option QueryResult :=
  match parseSqlIn sqlStr args with
  | None => None
  | Some (sqlStr, args) =>
      match Sql.PrepareContext db sqlStr with
      | Some err =>
          Some {| q_t := None; q_err := Some err;
                  q_log := [Sql.EvPrepare sqlStr] |}
      | None =>
          let log := [Sql.EvPrepare sqlStr; Sql.EvQuery sqlStr args] in
          match Sql.QueryContext db sqlStr args with
          | inl err => Some {| q_t := None; q_err := Some err; q_log := log |}
          | inr rows =>
              let kind := destKind t in
              if negb (existsb (reflect.Kind_eqb kind) allows) then
                Some {| q_t := None; q_err := Some Sql.ErrAllow; q_log := log |}
              else
                match t with
                | DStruct s =>
                    let (err, s') := unmarshalStruct rows s in
                    Some {| q_t := Some (DStruct s'); q_err := err; q_log := log |}
                | DSlice elem items =>
                    let (err, items') := unmarshalSlice rows elem items in
                    Some {| q_t := Some (DSlice elem items'); q_err := err;
                            q_log := log |}
                | DScalar v =>
                    let (err, v') := unmarshalNumOrStr rows v in
                    Some {| q_t := Some (DScalar v'); q_err := err; q_log := log |}
                end
          end
      end
  end.
End Marshaller.

(** ** The batch coordinator

    The entity type [T] of a write is a struct type [S] or the pointer type
    [*S]; [t] is the zero value of [S]. *)

Record BatchResult : Set := {
  b_newDest : list Struct;
  b_err : option Sql.error;
  b_tx : Sql.txState
}.

(** The row loop of [Insert] and the commit after it; [applied] are the
    statements run in the transaction so far. *)
Fixpoint Insert_rows (db : Sql.TxDB) (tableName : string)
  (applied : list string) (newDest : list Struct) (dest : list Struct)
  : BatchResult :=
  match dest with
  | [] =>
      match Sql.Commit db applied with
      | Some err => {| b_newDest := []; b_err := Some err; b_tx := Sql.CommitFailed |}
      | None => {| b_newDest := newDest; b_err := None; b_tx := Sql.Committed applied |}
      end
  | row :: rest =>
      let kv := getKeysValues row in
      let fields := Key kv in
      let values := "(" ++ Value kv ++ ")" in
      let sqlStr :=
        "INSERT INTO " ++ tableName ++ "(" ++ fields ++ ") VALUES " ++ values
        ++ " RETURNING id" in
      match Sql.Prepare db applied sqlStr with
      | Some err => {| b_newDest := []; b_err := Some err; b_tx := Sql.RolledBack |}
      | None =>
          match Sql.QueryRowScan db applied sqlStr with
          | inl err =>
              {| b_newDest := []; b_err := Some err; b_tx := Sql.Open applied |}
          | inr lastId =>
              let row := savePrimaryKey row lastId in
              Insert_rows db tableName (append1 applied sqlStr)
                (append1 newDest row) rest
          end
      end
  end.

Definition Insert (db : Sql.TxDB) (pointer : bool) (t : Struct)
  (dest : list Struct) : BatchResult :=
  if pointer then
    {| b_newDest := []; b_err := Some Sql.ErrInsertAllow; b_tx := Sql.NoTx |}
  else
    let tableName := getTableName t in
    match Sql.Begin db with
    | Some err => {| b_newDest := []; b_err := Some err; b_tx := Sql.NoTx |}
    | None => Insert_rows db tableName [] [] dest
    end.

(** [outputSql(s, args)].  The line it logs is no result of the engine
    and is left out; what is kept of its loop is the call
    [reflect.TypeOf(arg).Kind()] it makes on each argument, in order:
    [None] is the panic of that call on an untyped [nil].  [Query] and
    [Delete] call it on the arguments [parseSqlIn] returned and [Insert]
    with no argument, where it cannot panic; [Update] calls it on the
    arguments of its caller. *)
Fixpoint outputSql (s : string) (args : list arg) : option unit :=
  match args with
  | [] => Some tt
  | ANil :: _ => None
  | _ :: rest => outputSql s rest
  end.

(** How a call of [Update] ends: it returns, an error or [nil], or it
    panics. *)
Inductive Ending : Set :=
| Returned (err : option Sql.error)
| Panicked.

(** The row loop of [Update] and the commit after it: how the call ends,
    and the transaction as it leaves it. *)
Fixpoint Update_rows (db : Sql.TxDB) (where_ : string) (args : list arg)
  (applied : list string) (dest : list Struct) : Ending * Sql.txState :=
  match dest with
  | [] =>
      match Sql.Commit db applied with
      | Some err => (Returned (Some err), Sql.CommitFailed)
      | None => (Returned None, Sql.Committed applied)
      end
  | row :: rest =>
      let rowSql := generateUpdate where_ row in
      match Sql.Prepare db applied rowSql with
      | Some err => (Returned (Some err), Sql.RolledBack)
      | None =>
          match outputSql rowSql args with
          | None => (Panicked, Sql.Open applied)
          | Some _ =>
              match Sql.ExecContext db applied rowSql args with
              | Some err => (Returned (Some err), Sql.RolledBack)
              | None =>
                  Update_rows db where_ args (append1 applied rowSql) rest
              end
          end
      end
  end.

Definition Update (db : Sql.TxDB) (pointer : bool) (dest : list Struct)
  (where_ : string) (args : list arg) : Ending * Sql.txState :=
  if pointer then (Returned (Some ErrUpdateAllow), Sql.NoTx)
  else
    match Sql.Begin db with
    | Some err => (Returned (Some err), Sql.NoTx)
    | None => Update_rows db where_ args [] dest
    end.

(** [Delete].  [None] is a panic of [parseSqlIn]. *)
Definition Delete (db : Sql.DB) (pointer : bool) (t : Struct)
  (where_ : string) (args : list arg)
  : option (option Sql.error * list Sql.event) :=
  if pointer then Some (Some Sql.ErrInsertAllow, [])
  else
    let where_ := generateDelete where_ t in
    match parseSqlIn where_ args with
    | None => None
    | Some (where_, args) =>
        match Sql.PrepareContext db where_ with
        | Some err => Some (Some err, [Sql.EvPrepare where_])
        | None =>
            match Sql.QueryContext db where_ args with
            | inl err =>
                Some (Some err, [Sql.EvPrepare where_; Sql.EvQuery where_ args])
            | inr _ =>
                Some (None, [Sql.EvPrepare where_; Sql.EvQuery where_ args])
            end
        end
    end.

End Pg.

(* ================================================================== *)
(** * The positional-placeholder variant                               *)
(* ================================================================== *)

(** Only what differs from the numbered variant is written out again;
    [toSnake], [getTableName], [generateDelete], [savePrimaryKey],
    [unmarshalSlice] and [unmarshalNumOrStr] have the same text in both
    files (this variant has no [Update]). *)
Module My.
Import Go.

Definition getTableName := Pg.getTableName.
Definition generateDelete := Pg.generateDelete.
Definition savePrimaryKey := Pg.savePrimaryKey.

Record KV : Set := { Key : string; Value : string }.

(** One iteration of the loop of [getKeysValues]: every field gives a
    back-quoted column and a value. *)
Definition getKeysValues_step (acc : list string * list string) (f : Field)
  : list string * list string :=
  let (keys, values) := acc in
  let name := if String.eqb (json f) "" then toSnake (Name f) else json f in
  let value := Interface (val f) in
  let strValue := Sprint value in
  let strValue :=
    if reflect.Kind_eqb (kindOf value) reflect.String
    then "'" ++ Sprint value ++ "'" else strValue in
  (append1 keys ("`" ++ name ++ "`"), append1 values strValue).

(** The slices [keys] and [values] when the loop ends. *)
Definition keysValues (dest : Struct) : list string * list string :=
  fold_left getKeysValues_step (Fields dest) ([], []).

Definition getKeysValues (dest : Struct) : KV :=
  let (keys, values) := keysValues dest in
  {| Key := Join keys ","; Value := Join values "," |}.

(** The table of slice printers of this variant: the printers for the
    element kinds [int] and [float64] assert [[]int64] too. *)
Definition convertSlice2StringFuncMap (k : reflect.Kind)
  : option (arg -> option string) :=
  match k with
  | reflect.String => Some (fun meta =>
      match meta with
      | AStrings v =>
          Some (match v with [] => "" | _ => "'" ++ Join v "','" ++ "'" end)
      | _ => None
      end)
  | reflect.Int64 | reflect.Int | reflect.Float64 => Some (fun meta =>
      match meta with
      | AInt64s list =>
          Some (match list with [] => "" | _ => Join (map itoa list) "," end)
      | _ => None
      end)
  | _ => None
  end.

(** The pattern [" (IN|in|In|iN) \??"] at the head of a string. *)
Definition inPattern (s : string) : option nat :=
  match s with
  | String sp (String i (String n (String sp' rest))) =>
      if Ascii.eqb sp " " && Pg.isI i && Pg.isN n && Ascii.eqb sp' " "
      then
        match rest with
        | String q _ => if Ascii.eqb q "?" then Some 5%nat else Some 4%nat
        | EmptyString => Some 4%nat
        end
      else None
  | _ => None
  end.

(** The callback of [ReplaceAllStringFunc] in this variant. *)
Definition inRepl (sliceArgs : list string) (sliceIdx : nat) (s : string)
  : nat * string :=
  let arg :=
    if (sliceIdx <? List.length sliceArgs)%nat
    then nth sliceIdx sliceArgs "" else "" in
  (S sliceIdx, " IN (" ++ arg ++ ")").

Definition parseSqlIn (sqlStr : string) (args : list arg)
  : option (string * list arg) :=
  match Pg.splitArgs convertSlice2StringFuncMap args [] [] with
  | None => None
  | Some (sliceArgs, newArgs) =>
      Some (ReplaceAllStringFunc inPattern (inRepl sliceArgs) 0%nat sqlStr,
            newArgs)
  end.

Section Marshaller.
Variable convertAssign : value -> Sql.cell -> Sql.error + value.

(** [unmarshalStruct] of this variant: one [Next], one [Scan]. *)
Definition unmarshalStruct (rows : Sql.Rows) (dest : Struct)
  : option Sql.error * Struct :=
  match Sql.Columns rows with
  | inl err => (Some err, dest)
  | inr columns =>
      let fieldsMap := Pg.buildFieldsMap (Fields dest) 0 Pg.emptyMap in
      let (fieldNames, values) :=
        Pg.bindColumns (Fields dest) fieldsMap columns [] [] in
      let (_, rows) := Sql.Next rows in
      match Sql.Scan convertAssign rows values with
      | inl err => (Some err, dest)
      | inr values =>
          (None, withFields dest (Pg.copyValues (Fields dest) fieldNames values))
      end
  end.

(** [Query] of this variant.  [None] is a panic of [parseSqlIn]. *)
Definition Query (db : Sql.DB) (t : Pg.Dest) (sqlStr : string)
  (args : list arg) : option Pg.QueryResult :=
  match parseSqlIn sqlStr args with
  | None => None
  | Some (sqlStr, args) =>
      match Sql.PrepareContext db sqlStr with
      | Some err =>
          Some {| Pg.q_t := None; Pg.q_err := Some err;
                  Pg.q_log := [Sql.EvPrepare sqlStr] |}
      | None =>
          let log := [Sql.EvPrepare sqlStr; Sql.EvQuery sqlStr args] in
          match Sql.QueryContext db sqlStr args with
          | inl err =>
              Some {| Pg.q_t := None; Pg.q_err := Some err; Pg.q_log := log |}
          | inr rows =>
              let kind := Pg.destKind t in
              if negb (existsb (reflect.Kind_eqb kind) Pg.allows) then
                Some {| Pg.q_t := None; Pg.q_err := Some Sql.ErrAllow;
                        Pg.q_log := log |}
              else
                match t with
                | Pg.DStruct s =>
                    let (err, s') := unmarshalStruct rows s in
                    Some {| Pg.q_t := Some (Pg.DStruct s'); Pg.q_err := err;
                            Pg.q_log := log |}
                | Pg.DSlice elem items =>
                    let (err, items') :=
                      Pg.unmarshalSlice convertAssign rows elem items in
                    Some {| Pg.q_t := Some (Pg.DSlice elem items');
                            Pg.q_err := err; Pg.q_log := log |}
                | Pg.DScalar v =>
                    let (err, v') := Pg.unmarshalNumOrStr convertAssign rows v in
                    Some {| Pg.q_t := Some (Pg.DScalar v'); Pg.q_err := err;
                            Pg.q_log := log |}
                end
          end
      end
  end.
End Marshaller.

(** The row loop of [Insert] in this variant: every failure rolls back. *)
Fixpoint Insert_rows (db : Sql.TxDB) (tableName : string)
  (applied : list string) (newDest : list Struct) (dest : list Struct)
  : Pg.BatchResult :=
  match dest with
  | [] =>
      match Sql.Commit db applied with
      | Some err =>
          {| Pg.b_newDest := []; Pg.b_err := Some err; Pg.b_tx := Sql.CommitFailed |}
      | None =>
          {| Pg.b_newDest := newDest; Pg.b_err := None;
             Pg.b_tx := Sql.Committed applied |}
      end
  | row :: rest =>
      let kv := getKeysValues row in
      let fields := Key kv in
      let values := "(" ++ Value kv ++ ")" in
      let sqlStr :=
        "INSERT INTO " ++ tableName ++ "(" ++ fields ++ ") VALUES " ++ values in
      let failed err :=
        {| Pg.b_newDest := []; Pg.b_err := Some err; Pg.b_tx := Sql.RolledBack |} in
      match Sql.Prepare db applied sqlStr with
      | Some err => failed err
      | None =>
          match Sql.ExecLastInsertId db applied sqlStr with
          | inl err => failed err
          | inr (inl err) => failed err
          | inr (inr lastId) =>
              let row := savePrimaryKey row lastId in
              Insert_rows db tableName (append1 applied sqlStr)
                (append1 newDest row) rest
          end
      end
  end.

Definition Insert (db : Sql.TxDB) (pointer : bool) (t : Struct)
  (dest : list Struct) : Pg.BatchResult :=
  if pointer then
    {| Pg.b_newDest := []; Pg.b_err := Some Sql.ErrInsertAllow; Pg.b_tx := Sql.NoTx |}
  else
    let tableName := getTableName t in
    match Sql.Begin db with
    | Some err => {| Pg.b_newDest := []; Pg.b_err := Some err; Pg.b_tx := Sql.NoTx |}
    | None => Insert_rows db tableName [] [] dest
    end.

End My.

(* ================================================================== *)
(** * Examples shared by the statements below                          *)
(* ================================================================== *)

Module Ex.
Import Go.

Definition field (name jsonTag priTag : string) (v : value) : Field :=
  {| Name := name; json := jsonTag; pri := priTag; val := v |}.

(** [type User struct { ID int64 `pri:"1"`; Name string; Email string }]. *)
Definition user (id : Z) (name email : string) : Struct :=
  {| TypeName := "User"; TableName := None;
     Fields := [field "ID" "" "1" (VInt64 id); field "Name" "" "" (VString name);
                field "Email" "" "" (VString email)] |}.

(** [type Account struct { Id int64 `json:"uid"`; Name string }]. *)
Definition account (id : Z) (name : string) : Struct :=
  {| TypeName := "Account"; TableName := None;
     Fields := [field "Id" "uid" "" (VInt64 id); field "Name" "" "" (VString name)] |}.

(** [type Note struct { Id string; Body string }]: a key of kind string. *)
Definition note (id body : string) : Struct :=
  {| TypeName := "Note"; TableName := None;
     Fields := [field "Id" "" "" (VString id); field "Body" "" "" (VString body)] |}.

(** [type Mixed struct { Id int32; Ref int `pri:"1"` }]: two fields that
    qualify as primary key, the first of a kind the write-back does not
    know. *)
Definition mixed (id ref : Z) : Struct :=
  {| TypeName := "Mixed"; TableName := None;
     Fields := [field "Id" "" "" (VOpaque reflect.Int32 (itoa id) (itoa id));
                field "Ref" "" "1" (VInt ref)] |}.

(** A handle on which every statement prepares and every query gives the
    same result set. *)
Definition dbWith (rows : Sql.Rows) : Sql.DB :=
  {| Sql.PrepareContext := fun _ => None;
     Sql.QueryContext := fun _ _ => inr rows |}.

(** A handle on which every step of a batch succeeds; the identifier of a
    new row is its rank in the transaction. *)
Definition txOk : Sql.TxDB :=
  {| Sql.Begin := None;
     Sql.Prepare := fun _ _ => None;
     Sql.QueryRowScan := fun applied _ => inr (Z.of_nat (S (List.length applied)));
     Sql.ExecContext := fun _ _ _ => None;
     Sql.ExecLastInsertId :=
       fun applied _ => inr (inr (Z.of_nat (S (List.length applied))));
     Sql.Commit := fun _ => None |}.

(** A handle that runs the first statement of a transaction and refuses
    the second (a unique-key violation, say). *)
Definition txSecondFails : Sql.TxDB :=
  {| Sql.Begin := None;
     Sql.Prepare := fun _ _ => None;
     Sql.QueryRowScan := fun applied _ =>
       match applied with
       | [] => inr 1
       | _ => inl (Sql.SqlError "pq: duplicate key value")
       end;
     Sql.ExecContext := fun applied _ _ =>
       match applied with
       | [] => None
       | _ => Some (Sql.SqlError "pq: duplicate key value")
       end;
     Sql.ExecLastInsertId := fun applied _ =>
       match applied with
       | [] => inr (inr 1)
       | _ => inl (Sql.SqlError "Error 1062: Duplicate entry")
       end;
     Sql.Commit := fun _ => None |}.

(** Two rows of [(i_d, name)]. *)
Definition twoUsers : Sql.Rows :=
  Sql.openRows ["i_d"; "name"]
    [[Sql.CValue (VInt64 1); Sql.CValue (VString "first")];
     [Sql.CValue (VInt64 2); Sql.CValue (VString "last")]].

End Ex.

(* ================================================================== *)
(** * Notions the statements are written with                          *)
(* ================================================================== *)

Module Spec.
Import Go.

(** The three ways a field is identified as the primary key: its
    snake-cased identifier is [id], its [json] tag is [id], or it carries a
    [pri] tag.  (This is the test of [savePrimaryKey].) *)
Definition qualifies (f : Field) : bool :=
  String.eqb (toSnake (Name f)) "id" || String.eqb (json f) "id"
  || negb (String.eqb (pri f) "").

(** The field kinds the write-back knows. *)
Definition intOrInt64 (k : reflect.Kind) : bool :=
  reflect.Kind_eqb k reflect.Int || reflect.Kind_eqb k reflect.Int64.

(** A field the write-back can fill in. *)
Definition writable (f : Field) : bool :=
  qualifies f && intOrInt64 (kindOf (val f)).

(** The value the write-back stores in a field of a given kind. *)
Definition keyValue (k : reflect.Kind) (lastId : Z) : value :=
  if reflect.Kind_eqb k reflect.Int then VInt lastId else VInt64 lastId.

(** A handle on which every step of a batch insert succeeds, in either
    variant. *)
Definition insertSucceeds (db : Sql.TxDB) : Prop :=
  Sql.Begin db = None
  /\ (forall applied sqlStr, Sql.Prepare db applied sqlStr = None)
  /\ (forall applied sqlStr, exists lastId,
        Sql.QueryRowScan db applied sqlStr = inr lastId)
  /\ (forall applied sqlStr, exists lastId,
        Sql.ExecLastInsertId db applied sqlStr = inr (inr lastId))
  /\ (forall applied, Sql.Commit db applied = None).

(** A row the write-back leaves alone: no field of it can be filled in. *)
Definition keyless (row : Struct) : Prop :=
  forall f, In f (Fields row) -> writable f = false.

(** A batch that is all or nothing: it ends with no error and the
    transaction committed with the statements [done] applied, or with an
    error and no transaction begun, the transaction rolled back or its
    commit refused: nothing durable and nothing left open. *)
Definition closes (err : option Sql.error) (st : Sql.txState)
  (done : list string) : Prop :=
  match err with
  | None => st = Sql.Committed done
  | Some _ =>
      (st = Sql.NoTx \/ st = Sql.RolledBack \/ st = Sql.CommitFailed)
      /\ Sql.durable st = []
  end.

(** What a query has asked of the handle when it returns, and what it
    returns before the marshaller runs. *)
Definition asksThenChecks
  (Query : Sql.DB -> Pg.Dest -> string -> list arg -> option Pg.QueryResult)
  (parseSqlIn : string -> list arg -> option (string * list arg)) : Prop :=
  forall db t sqlStr args sqlStr' args',
    parseSqlIn sqlStr args = Some (sqlStr', args') ->
    exists r,
      Query db t sqlStr args = Some r
      /\ match Sql.PrepareContext db sqlStr' with
         | Some err =>
             Pg.q_log r = [Sql.EvPrepare sqlStr']
             /\ Pg.q_err r = Some err /\ Pg.q_t r = None
         | None =>
             Pg.q_log r = [Sql.EvPrepare sqlStr'; Sql.EvQuery sqlStr' args']
             /\ match Sql.QueryContext db sqlStr' args' with
                | inl err => Pg.q_err r = Some err /\ Pg.q_t r = None
                | inr _ =>
                    existsb (reflect.Kind_eqb (Pg.destKind t)) Pg.allows = false ->
                    Pg.q_err r = Some Sql.ErrAllow /\ Pg.q_t r = None
                end
         end.

(** A cursor in the middle of a result set. *)
Definition midRows (cols : list string) (rest : list (list Sql.cell))
  (cur : option (list Sql.cell)) : Sql.Rows :=
  {| Sql.columns := cols; Sql.pending := rest; Sql.lastcols := cur;
     Sql.closed := false |}.

(** The field identifiers and the receivers [unmarshalStruct] binds to the
    columns of a result set, for a destination. *)
Definition bound (dest : Struct) (cols : list string)
  : list string * list value :=
  Pg.bindColumns (Fields dest)
    (Pg.buildFieldsMap (Fields dest) 0 Pg.emptyMap) cols [] [].

(** The destination with the contents of the receivers copied in. *)
Definition filled (dest : Struct) (cols : list string) (vals : list value)
  : Struct :=
  withFields dest (Pg.copyValues (Fields dest) (fst (bound dest cols)) vals).

(** A row the cursor can scan into the receivers. *)
Definition scans (convertAssign : value -> Sql.cell -> Sql.error + value)
  (dest : Struct) (cols : list string) (row : list Sql.cell) : Prop :=
  exists vals, Sql.scanRow convertAssign (snd (bound dest cols)) row = inr vals.

(** The fields [Insert] writes: not the primary key (by the test of the
    write path), not a pointer. *)
Definition inserted (f : Field) : bool :=
  negb (Pg.isPrimary f)
  && negb (reflect.Kind_eqb (kindOf (Interface (val f))) reflect.Pointer).

(** The fields [Update] sets. *)
Definition updated (f : Field) : bool :=
  negb (Pg.isPrimary f)
  && negb (reflect.Kind_eqb (kindOf (val f)) reflect.Pointer).

(** [column=literal], an element of the SET list. *)
Definition assignment (f : Field) : string :=
  Pg.columnOf f ++ "=" ++ Pg.updateLiteral (val f).

(** The filter built from the first primary-key field of a row; empty when
    the row has none. *)
Definition keyFilter (fs : list Field) : string :=
  match find Pg.isPrimary fs with
  | Some f => Pg.columnOf f ++ " = " ++ Sprint (val f)
  | None => ""
  end.

(** A column name as the positional variant writes it. *)
Definition backquoted (f : Field) : string :=
  "`" ++ Pg.columnOf f ++ "`".

(** A string with its ASCII letters in lower case. *)
Fixpoint lowerString (s : string) : string :=
  match s with
  | EmptyString => EmptyString
  | String c s' => String (lowerByte c) (lowerString s')
  end.

(** No byte of the string is a newline. *)
Fixpoint oneLine (s : string) : bool :=
  match s with
  | EmptyString => true
  | String c s' => negb (Ascii.eqb c "010") && oneLine s'
  end.

(** The fragment contains the keyword [kw] (given in lower case), in any
    mix of cases, followed on the same line by a space: it reads
    [pre ++ k ++ mid ++ " " ++ post] where [k] is the keyword up to case
    and [mid] has no newline. *)
Definition containsKeyword (kw s : string) : Prop :=
  exists pre k mid post,
    s = pre ++ k ++ mid ++ String " " post
    /\ lowerString k = kw
    /\ oneLine mid = true.

(** The test at the head of the fragment. *)
Definition matchesHere (kw s : string) : bool :=
  match stripPrefixFold kw s with
  | Some rest => lazyThenSpace rest
  | None => false
  end.

(** ** The IN expansion *)

(** An element of an expanded list: a string between quotes. *)
Definition quoted (s : string) : string := "'" ++ s ++ "'".

(** The elements of a slice argument of one of the four slice types the
    printers know, as they are written in the statement: strings quoted,
    numbers bare. *)
Definition elements (a : arg) : list string :=
  match a with
  | AStrings l => map quoted l
  | AInt64s l => map itoa l
  | AInts l => map itoa l
  | AFloat64s l => map f64_text l
  | _ => []
  end.

(** The slice types the printers of the numbered variant know. *)
Definition supported (a : arg) : bool :=
  match a with
  | AStrings _ | AInt64s _ | AInts _ | AFloat64s _ => true
  | _ => false
  end.

(** The slice types whose printer in the positional variant asserts the
    type the slice has. *)
Definition supportedMy (a : arg) : bool :=
  match a with
  | AStrings _ | AInt64s _ => true
  | _ => false
  end.

(** The arguments [parseSqlIn] goes through without a panic, given which
    slices are supported: no untyped nil, and no non-empty slice of another
    type whose element kind has a printer. *)
Definition passes (supp : arg -> bool)
  (find : reflect.Kind -> option (arg -> option string)) (a : arg) : bool :=
  match a with
  | ANil => false
  | AScalar _ => true
  | _ =>
      supp a || (Len a =? 0)%nat
      || match find (elemKind a) with Some _ => false | None => true end
  end.

(** The pending expansions of an argument list: for each non-empty
    supported slice, in order, its elements joined by commas. *)
Fixpoint pending (supp : arg -> bool) (args : list arg) : list string :=
  match args with
  | [] => []
  | a :: rest =>
      if supp a && (0 <? Len a)%nat
      then Join (elements a) "," :: pending supp rest
      else pending supp rest
  end.

(** The arguments that stay positional: those that are not slices. *)
Fixpoint positional (args : list arg) : list arg :=
  match args with
  | [] => []
  | AScalar v :: rest => AScalar v :: positional rest
  | _ :: rest => positional rest
  end.

(** What the occurrence number [i] of the IN pattern becomes in the
    numbered variant: the expansion number [i] between parentheses when
    there is one (and it is not the empty text), the bare keyword
    otherwise. *)
Definition expansion (sliceArgs : list string) (i : nat) : string :=
  match nth_error sliceArgs i with
  | Some e => if String.eqb e "" then " IN " else " IN (" ++ e ++ ")"
  | None => " IN "
  end.

(** What it becomes in the positional variant: parentheses always. *)
Definition expansionMy (sliceArgs : list string) (i : nat) : string :=
  match nth_error sliceArgs i with
  | Some e => " IN (" ++ e ++ ")"
  | None => " IN ()"
  end.

(** The text of a placeholder of the numbered variant: a space, [IN] in
    any mix of cases, a space, a dollar sign and digits (possibly none). *)
Fixpoint allDigits (s : string) : bool :=
  match s with
  | EmptyString => true
  | String c s' => Pg.isDigit c && allDigits s'
  end.

Definition isPlaceholder (m : string) : bool :=
  match m with
  | String sp (String i (String n (String sp' (String d ds)))) =>
      Ascii.eqb sp " " && Pg.isI i && Pg.isN n && Ascii.eqb sp' " "
      && Ascii.eqb d "$" && allDigits ds
  | _ => false
  end.

(** The text of a placeholder of the positional variant: a space, [IN], a
    space, and a question mark or nothing. *)
Definition isPlaceholderMy (m : string) : bool :=
  match m with
  | String sp (String i (String n (String sp' q))) =>
      Ascii.eqb sp " " && Pg.isI i && Pg.isN n && Ascii.eqb sp' " "
      && (String.eqb q "?" || String.eqb q "")
  | _ => false
  end.


(** An argument that is not a slice. *)
Definition isScalar (a : arg) : bool :=
  match a with
  | AScalar _ => true
  | _ => false
  end.

(** A slice whose elements all print as some text (every number does;
    this only excludes a [float64] given by an empty text). *)
Definition printable (a : arg) : Prop :=
  match a with
  | AFloat64s l => Forall (fun f => f64_text f <> "") l
  | _ => True
  end.

(** ** Column names of ASCII identifiers *)

(** Every byte of the string is an ASCII character. *)
Fixpoint isASCII (s : string) : bool :=
  match s with
  | EmptyString => true
  | String c s' => (byte_of c <? 128) && isASCII s'
  end.

Definition isUpperByte (c : ascii) : bool := between 65 90 (byte_of c).

(** The derivation in the words of the specification, on the characters of
    an ASCII identifier: a delimiter before every interior upper-case
    letter, and every letter in lower case. *)
Fixpoint snakeInterior (s : string) : string :=
  match s with
  | EmptyString => EmptyString
  | String c s' =>
      if isUpperByte c
      then String "_" (String (lowerByte c) (snakeInterior s'))
      else String c (snakeInterior s')
  end.

Definition snakeCase (s : string) : string :=
  match s with
  | EmptyString => EmptyString
  | String c s' => String (lowerByte c) (snakeInterior s')
  end.

(** No byte of the string is an upper-case ASCII letter. *)
Fixpoint noUpper (s : string) : bool :=
  match s with
  | EmptyString => true
  | String c s' => negb (isUpperByte c) && noUpper s'
  end.

(** ** The columns of a result set and the fields they fill *)

(** The place of a column in the list of column names of a result set. *)
Fixpoint position (c : string) (cols : list string) : option nat :=
  match cols with
  | [] => None
  | c' :: rest =>
      if String.eqb c' c then Some 0%nat else option_map S (position c rest)
  end.

(** A field after a row is read into its struct: the field takes the value
    scanned from the column of its name, when the result set has that
    column, and keeps its own otherwise. *)
Definition receives (cols : list string) (vals : list value) (f : Field)
  : Field :=
  match position (Pg.columnOf f) cols with
  | Some j =>
      match nth_error vals j with
      | Some v => setVal f v
      | None => f
      end
  | None => f
  end.

(** [FieldByName(name).Set(v)] on one field. *)
Definition setNamed (name : string) (v : value) (f : Field) : Field :=
  if String.eqb (Name f) name then setVal f v else f.

(** The value the copy loop leaves in the field of a given identifier: the
    one paired with the last occurrence of the identifier. *)
Fixpoint binding (name : string) (names : list string) (vals : list value)
  : option value :=
  match names, vals with
  | n :: names', v :: vals' =>
      match binding name names' vals' with
      | Some w => Some w
      | None => if String.eqb name n then Some v else None
      end
  | _, _ => None
  end.

Definition assigned (names : list string) (vals : list value) (f : Field)
  : Field :=
  match binding (Name f) names vals with
  | Some v => setVal f v
  | None => f
  end.

(** The index the map of the marshaller holds for a column: that of the
    last field with this column name. *)
Fixpoint lastIndex (c : string) (fs : list Field) : option nat :=
  match fs with
  | [] => None
  | f :: rest =>
      match lastIndex c rest with
      | Some i => Some (S i)
      | None => if String.eqb c (Pg.columnOf f) then Some 0%nat else None
      end
  end.

Definition fieldFor (fs : list Field) (c : string) : option Field :=
  match lastIndex c fs with
  | Some i => nth_error fs i
  | None => None
  end.

(** The fields the columns of a result set select, in the order of the
    columns; a column that names no field selects none. *)
Definition picked (fs : list Field) (cols : list string) : list Field :=
  flat_map (fun c => match fieldFor fs c with Some f => [f] | None => [] end)
    cols.

(** Every column of the result set names a field of the struct. *)
Definition allNamed (dest : Struct) (cols : list string) : Prop :=
  Forall (fun c => In c (map Pg.columnOf (Fields dest))) cols.

(** The rows of a result set and the receivers they scan into. *)
Definition scanned (convertAssign : value -> Sql.cell -> Sql.error + value)
  (dest : Struct) (cols : list string)
  (rows : list (list Sql.cell)) (valss : list (list value)) : Prop :=
  Forall2 (fun row vals =>
             Sql.scanRow convertAssign (snd (bound dest cols)) row = inr vals)
    rows valss.

(** ** The statements of a batch insert *)

(** The statement [Insert] runs for a row, in the numbered variant and in
    the positional one. *)
Definition insertStatement (tableName : string) (row : Struct) : string :=
  let kv := Pg.getKeysValues row in
  let values := "(" ++ Pg.Value kv ++ ")" in
  "INSERT INTO " ++ tableName ++ "(" ++ Pg.Key kv ++ ") VALUES " ++ values
  ++ " RETURNING id".

Definition insertStatementMy (tableName : string) (row : Struct) : string :=
  let kv := My.getKeysValues row in
  let values := "(" ++ My.Value kv ++ ")" in
  "INSERT INTO " ++ tableName ++ "(" ++ My.Key kv ++ ") VALUES " ++ values.

(** The rows with the identifiers the database gave them written back. *)
Definition keyed (dest : list Struct) (ids : list Z) : list Struct :=
  map (fun p => Pg.savePrimaryKey (fst p) (snd p)) (combine dest ids).

(** The identifier the database gives for a statement of a batch, after
    the statements [applied]: what [QueryRowScan] reads in the numbered
    variant, what [LastInsertId] returns in the positional one. *)
Definition returned (db : Sql.TxDB) (applied : list string) (sqlStr : string)
  : option Z :=
  match Sql.QueryRowScan db applied sqlStr with
  | inr lastId => Some lastId
  | inl _ => None
  end.

Definition lastInserted (db : Sql.TxDB) (applied : list string)
  (sqlStr : string) : option Z :=
  match Sql.ExecLastInsertId db applied sqlStr with
  | inr (inr lastId) => Some lastId
  | _ => None
  end.

(** [ids] are the identifiers the database gives the rows of a batch, one
    after the other: the statement of each row is prepared, and answered
    with the identifier of the row, after the statements of the rows
    before it. *)
Fixpoint answered (db : Sql.TxDB)
  (answer : list string -> string -> option Z)
  (statement : Struct -> string) (applied : list string)
  (dest : list Struct) (ids : list Z) : Prop :=
  match dest, ids with
  | [], [] => True
  | row :: dest', id :: ids' =>
      Sql.Prepare db applied (statement row) = None
      /\ answer applied (statement row) = Some id
      /\ answered db answer statement (append1 applied (statement row))
           dest' ids'
  | _, _ => False
  end.

(** What a batch insert returns and leaves: with no error, one row per row
    of the batch, in order, each with the identifier the database gave it
    written back, and the transaction committed with one statement per
    row, in order; with an error, no row and nothing durable. *)
Definition insertOutcome (db : Sql.TxDB)
  (answer : list string -> string -> option Z)
  (statement : Struct -> string) (dest : list Struct)
  (r : Pg.BatchResult) : Prop :=
  match Pg.b_err r with
  | None =>
      exists ids,
        Sql.Begin db = None
        /\ answered db answer statement [] dest ids
        /\ Pg.b_newDest r = keyed dest ids
        /\ Pg.b_tx r = Sql.Committed (map statement dest)
        /\ Sql.Commit db (map statement dest) = None
  | Some _ => Pg.b_newDest r = [] /\ Sql.durable (Pg.b_tx r) = []
  end.

(** No argument is the untyped [nil]. *)
Definition typed (args : list arg) : bool :=
  forallb (fun a => match a with ANil => false | _ => true end) args.

(** ** Decimal texts *)

(** The number that the digits [d] read after a number [acc]. *)
Fixpoint decimal (d : Decimal.uint) (acc : Z) : Z :=
  match d with
  | Decimal.Nil => acc
  | Decimal.D0 d => decimal d (acc * 10)
  | Decimal.D1 d => decimal d (acc * 10 + 1)
  | Decimal.D2 d => decimal d (acc * 10 + 2)
  | Decimal.D3 d => decimal d (acc * 10 + 3)
  | Decimal.D4 d => decimal d (acc * 10 + 4)
  | Decimal.D5 d => decimal d (acc * 10 + 5)
  | Decimal.D6 d => decimal d (acc * 10 + 6)
  | Decimal.D7 d => decimal d (acc * 10 + 7)
  | Decimal.D8 d => decimal d (acc * 10 + 8)
  | Decimal.D9 d => decimal d (acc * 10 + 9)
  end.

End Spec.

(* ================================================================== *)
(** * [strconv]: reading integers                                      *)
(* ================================================================== *)

Module strconv.
Import Go.

(** [*strconv.NumError], by its [Err] field: [ErrSyntax], [ErrRange], the
    error of an invalid base and the error of an invalid bit size. *)
Inductive NumError : Set :=
| ErrSyntax
| ErrRange
| ErrBase (base : Z)
| ErrBitSize (bitSize : Z).

Definition isErrRange (e : NumError) : bool :=
  match e with
  | ErrRange => true
  | _ => false
  end.

Definition IntSize : Z := 64.
Definition maxUint64 : Z := 2 ^ 64 - 1.

(** Conversions to [uint64], [int64] and [byte]: the low bits. *)
Definition uint64 (x : Z) : Z := x mod 2 ^ 64.
Definition int64 (x : Z) : Z := (x + 2 ^ 63) mod 2 ^ 64 - 2 ^ 63.
Definition byte (x : Z) : Z := x mod 256.

(** [lower(c)]: [c | ('x' - 'X')]. *)
Definition lower (c : Z) : Z := Z.lor c 32.

(** The byte at index [i] of a string that is long enough. *)
Definition at_ (s : string) (i : nat) : Z :=
  match String.get i s with
  | Some c => byte_of c
  | None => 0
  end.

(** [underscoreOK]: underscores only between digits, or between the base
    prefix and a digit.  [saw] is the last character class seen: ['^'],
    ['0'], ['_'] or ['!']. *)
Fixpoint underscoreOK_loop (hex : bool) (saw : Z) (s : string) : bool :=
  match s with
  | EmptyString => negb (saw =? 95)
  | String ch s' =>
      let c := byte_of ch in
      if between 48 57 c || (hex && between 97 102 (lower c))
      then underscoreOK_loop hex 48 s'
      else if c =? 95 then
        if negb (saw =? 48) then false else underscoreOK_loop hex 95 s'
      else if saw =? 95 then false
      else underscoreOK_loop hex 33 s'
  end.

Definition underscoreOK (s : string) : bool :=
  let s :=
    match s with
    | String c rest =>
        if (byte_of c =? 45) || (byte_of c =? 43) then rest else s
    | EmptyString => s
    end in
  if (2 <=? String.length s)%nat && (at_ s 0 =? 48)
     && ((lower (at_ s 1) =? 98) || (lower (at_ s 1) =? 111)
         || (lower (at_ s 1) =? 120))
  then underscoreOK_loop (lower (at_ s 1) =? 120) 48 (drop 2 s)
  else underscoreOK_loop false 94 s.

(** The digit loop of [ParseUint]: [inl] is a [return] from inside the
    loop, [inr] the number and the flag [underscores] when it ends. *)
Fixpoint digits (base0 : bool) (base cutoff maxVal : Z) (s : string) (n : Z)
  (underscores : bool) : (Z * option NumError) + (Z * bool) :=
  match s with
  | EmptyString => inr (n, underscores)
  | String ch s' =>
      let c := byte_of ch in
      if (c =? 95) && base0 then digits base0 base cutoff maxVal s' n true
      else
        let d :=
          if between 48 57 c then Some (c - 48)
          else if between 97 122 (lower c) then Some (lower c - 97 + 10)
          else None in
        match d with
        | None => inl (0, Some ErrSyntax)
        | Some d =>
            if byte base <=? d then inl (0, Some ErrSyntax)
            else if cutoff <=? n then inl (maxVal, Some ErrRange)
            else
              let n := uint64 (n * uint64 base) in
              let n1 := uint64 (n + d) in
              if (n1 <? n) || (maxVal <? n1) then inl (maxVal, Some ErrRange)
              else digits base0 base cutoff maxVal s' n1 underscores
        end
  end.

(** [strconv.ParseUint]: the number and the error. *)
Definition ParseUint (s : string) (base bitSize : Z) : Z * option NumError :=
  match s with
  | EmptyString => (0, Some ErrSyntax)
  | String c0 _ =>
      let base0 := base =? 0 in
      let s0 := s in
      let chosen : option (Z * string) :=
        if (2 <=? base) && (base <=? 36) then Some (base, s)
        else if base =? 0 then
          if byte_of c0 =? 48 then
            if (3 <=? String.length s)%nat && (lower (at_ s 1) =? 98)
            then Some (2, drop 2 s)
            else if (3 <=? String.length s)%nat && (lower (at_ s 1) =? 111)
            then Some (8, drop 2 s)
            else if (3 <=? String.length s)%nat && (lower (at_ s 1) =? 120)
            then Some (16, drop 2 s)
            else Some (8, drop 1 s)
          else Some (10, s)
        else None in
      match chosen with
      | None => (0, Some (ErrBase base))
      | Some (base, s) =>
          let size :=
            if bitSize =? 0 then Some IntSize
            else if (bitSize <? 0) || (64 <? bitSize) then None
            else Some bitSize in
          match size with
          | None => (0, Some (ErrBitSize bitSize))
          | Some bitSize =>
              let cutoff := maxUint64 / uint64 base + 1 in
              let maxVal := uint64 (uint64 (Z.shiftl 1 bitSize) - 1) in
              match digits base0 base cutoff maxVal s 0 false with
              | inl r => r
              | inr (n, underscores) =>
                  if underscores && negb (underscoreOK s0)
                  then (0, Some ErrSyntax)
                  else (n, None)
              end
          end
      end
  end.

(** [strconv.ParseInt]. *)
Definition ParseInt (s : string) (base bitSize : Z) : Z * option NumError :=
  match s with
  | EmptyString => (0, Some ErrSyntax)
  | String c0 rest =>
      let neg := byte_of c0 =? 45 in
      let s := if (byte_of c0 =? 43) || neg then rest else s in
      let (un, err) := ParseUint s base bitSize in
      let failed :=
        match err with
        | Some e => negb (isErrRange e)
        | None => false
        end in
      if failed then (0, err)
      else
        let bitSize := if bitSize =? 0 then IntSize else bitSize in
        let cutoff := uint64 (Z.shiftl 1 (bitSize - 1)) in
        if negb neg && (cutoff <=? un)
        then (int64 (cutoff - 1), Some ErrRange)
        else if neg && (cutoff <? un)
        then (int64 (- int64 cutoff), Some ErrRange)
        else
          let n := int64 un in
          (if neg then int64 (- n) else n, None)
  end.

(** The loop of the fast path of [Atoi], on a string of fewer than 19
    bytes: the number stays below [10 ^ 18], and nothing wraps. *)
Fixpoint atoiDigits (s : string) (n : Z) : option Z :=
  match s with
  | EmptyString => Some n
  | String c s' =>
      let ch := byte (byte_of c - 48) in
      if 9 <? ch then None else atoiDigits s' (n * 10 + ch)
  end.

(** [strconv.Atoi], where [int] is 64 bits wide. *)
Definition Atoi (s : string) : Z * option NumError :=
  let sLen := String.length s in
  if (0 <? sLen)%nat && (sLen <? 19)%nat then
    let s0 := s in
    let signed := (at_ s 0 =? 45) || (at_ s 0 =? 43) in
    let s := if signed then drop 1 s else s in
    if signed && (String.length s <? 1)%nat then (0, Some ErrSyntax)
    else
      match atoiDigits s 0 with
      | None => (0, Some ErrSyntax)
      | Some n => (if at_ s0 0 =? 45 then - n else n, None)
      end
  else ParseInt s 10 0.

End strconv.

(* ================================================================== *)
(** * [encoding/base64], runes and [strings.Split]                     *)
(* ================================================================== *)

Module base64.
Import Go.

(** The alphabet of [StdEncoding]; its padding character is [=]. *)
Definition encodeStd : string :=
  "ABCDEFGHIJKLMNOPQRSTUVWXYZabcdefghijklmnopqrstuvwxyz0123456789+/".

(** [enc.encode[i]]. *)
Definition encode (i : Z) : ascii :=
  match String.get (Z.to_nat i) encodeStd with
  | Some c => c
  | None => "000"%char
  end.

Fixpoint indexFrom (c : ascii) (alphabet : string) (i : Z) : Z :=
  match alphabet with
  | EmptyString => 255
  | String a rest => if Ascii.eqb a c then i else indexFrom c rest (i + 1)
  end.

(** [enc.decodeMap[c]]: the place of [c] in the alphabet, [0xFF] when it
    has none. *)
Definition decodeMap (c : ascii) : Z := indexFrom c encodeStd 0.

(** [Encode]: three bytes give four characters; one or two bytes left
    over give two or three characters and the padding. *)
Fixpoint EncodeToString (src : string) : string :=
  match src with
  | EmptyString => EmptyString
  | String a EmptyString =>
      let val := Z.shiftl (byte_of a) 16 in
      String (encode (Z.land (Z.shiftr val 18) 63))
        (String (encode (Z.land (Z.shiftr val 12) 63)) "==")
  | String a (String b EmptyString) =>
      let val := Z.lor (Z.shiftl (byte_of a) 16) (Z.shiftl (byte_of b) 8) in
      String (encode (Z.land (Z.shiftr val 18) 63))
        (String (encode (Z.land (Z.shiftr val 12) 63))
           (String (encode (Z.land (Z.shiftr val 6) 63)) "="))
  | String a (String b (String c rest)) =>
      let val :=
        Z.lor (Z.lor (Z.shiftl (byte_of a) 16) (Z.shiftl (byte_of b) 8))
          (byte_of c) in
      String (encode (Z.land (Z.shiftr val 18) 63))
        (String (encode (Z.land (Z.shiftr val 12) 63))
           (String (encode (Z.land (Z.shiftr val 6) 63))
              (String (encode (Z.land val 63)) (EncodeToString rest))))
  end.

Definition isNewline (c : ascii) : bool :=
  Ascii.eqb c "010" || Ascii.eqb c "013".

(** [for si < len(src) && (src[si] == '\n' || src[si] == '\r') { si++ }]. *)
Fixpoint skipNewlines (s : string) : string :=
  match s with
  | String c s' => if isNewline c then skipNewlines s' else s
  | EmptyString => s
  end.

(** The bytes a quantum of [dlen] characters gives: [dbuf] holds the four
    six-bit values, zero where the quantum has none. *)
Definition quantum (dbuf : list Z) (dlen : nat) : string :=
  let val :=
    Z.lor (Z.lor (Z.lor (Z.shiftl (nth 0 dbuf 0) 18) (Z.shiftl (nth 1 dbuf 0) 12))
             (Z.shiftl (nth 2 dbuf 0) 6)) (nth 3 dbuf 0) in
  let b0 := String (uint8 (Z.shiftr val 16)) "" in
  let b1 := String (uint8 (Z.shiftr val 8)) "" in
  let b2 := String (uint8 val) "" in
  match dlen with
  | 4%nat => b0 ++ b1 ++ b2
  | 3%nat => b0 ++ b1
  | 2%nat => b0
  | _ => ""
  end.

(** The decoder, non-strict, with padding: [dbuf] are the values read in
    the current quantum, [out] the bytes decoded so far.  Line breaks are
    skipped; [None] is a [CorruptInputError] (its offset, and the bytes
    decoded before it, are left out). *)
Fixpoint decodeFrom (src : string) (dbuf : list Z) (out : string)
  : option string :=
  match src with
  | EmptyString =>
      match dbuf with
      | [] => Some out
      | _ => None
      end
  | String c rest =>
      let v := decodeMap c in
      if negb (v =? 255) then
        let dbuf := append1 dbuf v in
        if (List.length dbuf =? 4)%nat
        then decodeFrom rest [] (out ++ quantum dbuf 4)
        else decodeFrom rest dbuf out
      else if isNewline c then decodeFrom rest dbuf out
      else if negb (Ascii.eqb c "=") then None
      else
        match List.length dbuf with
        | 2%nat =>
            match skipNewlines rest with
            | String c' rest' =>
                if Ascii.eqb c' "=" then
                  match skipNewlines rest' with
                  | EmptyString => Some (out ++ quantum dbuf 2)
                  | _ => None
                  end
                else None
            | EmptyString => None
            end
        | 3%nat =>
            match skipNewlines rest with
            | EmptyString => Some (out ++ quantum dbuf 3)
            | _ => None
            end
        | _ => None
        end
  end.

(** [StdEncoding.DecodeString]. *)
Definition DecodeString (s : string) : option string := decodeFrom s [] "".

End base64.

Module utf8.
Import Go.

(** [int32(x)], the conversion of an [int] to a [rune]. *)
Definition int32 (x : Z) : Z := (x + 2 ^ 31) mod 2 ^ 32 - 2 ^ 31.

(** [[]rune(s)]. *)
Definition runes (s : string) : list Z := map snd (Go.range s).

(** [string(r)] for a rune [r]: its UTF-8 encoding, that of U+FFFD when
    [r] is no code point. *)
Definition EncodeRune (r : Z) : string :=
  let i := r mod 2 ^ 32 in
  let tail x := uint8 (Z.lor 128 (Z.land (strconv.byte x) 63)) in
  let three r :=
    String (uint8 (Z.lor 224 (strconv.byte (Z.shiftr r 12))))
      (String (tail (Z.shiftr r 6)) (String (tail r) "")) in
  if i <=? 127 then String (uint8 r) ""
  else if i <=? 2047 then
    String (uint8 (Z.lor 192 (strconv.byte (Z.shiftr r 6))))
      (String (tail r) "")
  else if (1114111 <? i) || ((55296 <=? i) && (i <=? 57343))
  then three RuneError
  else if i <=? 65535 then three r
  else
    String (uint8 (Z.lor 240 (strconv.byte (Z.shiftr r 18))))
      (String (tail (Z.shiftr r 12))
         (String (tail (Z.shiftr r 6)) (String (tail r) ""))).

(** [string(rs)] for a slice of runes. *)
Definition String_ (rs : list Z) : string :=
  String.concat "" (map EncodeRune rs).

End utf8.

Module strings.

(** [strings.Split(s, sep)] for a separator of one byte: the text between
    the separators, [cur] being the text since the last one. *)
Fixpoint splitFrom (sep : ascii) (s : string) (cur : string) : list string :=
  match s with
  | EmptyString => [cur]
  | String c s' =>
      if Ascii.eqb c sep then cur :: splitFrom sep s' ""
      else splitFrom sep s' (cur ++ String c "")
  end.

Definition Split (s : string) (sep : ascii) : list string :=
  splitFrom sep s "".

(** [strings.ToUpper] on the ASCII letters; the other bytes are kept (no
    other letter has [T], [R], [U] or [E] for its upper case, so the
    comparison of the result with [TRUE] is that of Go). *)
Fixpoint ToUpper (s : string) : string :=
  match s with
  | EmptyString => EmptyString
  | String c s' =>
      let b := Go.byte_of c in
      String (if Go.between 97 122 b then Go.uint8 (b - 32) else c) (ToUpper s')
  end.

End strings.

(* ================================================================== *)
(** * The utilities of the package                                     *)
(* ================================================================== *)

Module Orm.
Import Go.

(** [[]byte(s)], as integers. *)
Definition bytes (s : string) : list Z := map byte_of (list_ascii_of_string s).

(** The first loop of [Encrypt], from index [index] on.  [None] is the
    panic of [index%keyLen] for an empty key. *)
Fixpoint Encrypt_loop (keyArr : list Z) (index : nat) (dataArr : list Z)
  (tmpList : list Z) : option (list Z) :=
  match dataArr with
  | [] => Some tmpList
  | value :: rest =>
      let keyLen := List.length keyArr in
      if (keyLen =? 0)%nat then None
      else
        let base := value in
        let dataString :=
          base + Z.land 255 (nth (index mod keyLen) keyArr 0) in
        Encrypt_loop keyArr (S index) rest (append1 tmpList dataString)
  end.

(** [Encrypt].  [None] is a panic. *)
Definition Encrypt (codeData saltKey : string) : option string :=
  let dataArr := utf8.runes codeData in
  let keyArr := bytes saltKey in
  match Encrypt_loop keyArr 0 dataArr [] with
  | None => None
  | Some tmpList =>
      let str := fold_left (fun str value => str ++ "_" ++ itoa value) tmpList "" in
      Some (base64.EncodeToString str)
  end.

(** [newData[low:high]] on a slice of runes of capacity [cap]: the
    elements past the length are the zeros of the allocation.  [None] is
    the panic of a slice expression out of range. *)
Definition slice (newData : list Z) (cap low high : nat) : option (list Z) :=
  if (low <=? high)%nat && (high <=? cap)%nat then
    Some (skipn low
            (firstn high
               (newData ++ repeat 0 (cap - List.length newData)%nat)%list))
  else None.

(** The first loop of [Decrypt]; the error of [Atoi] is dropped. *)
Fixpoint Decrypt_loop (keyArr : list Z) (index : nat) (dataArr : list string)
  (tmpList : list Z) : option (list Z) :=
  match dataArr with
  | [] => Some tmpList
  | value :: rest =>
      let keyLen := List.length keyArr in
      if (keyLen =? 0)%nat then None
      else
        let base := fst (strconv.Atoi value) in
        let dataString :=
          strconv.int64 (base - Z.land 255 (nth (index mod keyLen) keyArr 0)) in
        Decrypt_loop keyArr (S index) rest (append1 tmpList dataString)
  end.

(** [Decrypt].  [None] is a panic.  The capacity of the slice [[]rune(s)]
    is not fixed by the language: [spare n] is what the allocation for [n]
    runes has beyond them. *)
Definition Decrypt (spare : nat -> nat) (ntData saltKey : string)
  : option string :=
  match base64.DecodeString ntData with
  | None => Some ""
  | Some decodeStr =>
      let ntData := decodeStr in
      let strLen := String.length ntData in
      let newData := utf8.runes ntData in
      let cap := (List.length newData + spare (List.length newData))%nat in
      match slice newData cap 1 strLen with
      | None => None
      | Some sub =>
          let resultData := utf8.String_ sub in
          let dataArr := strings.Split resultData "_" in
          let keyArr := bytes saltKey in
          match Decrypt_loop keyArr 0 dataArr [] with
          | None => None
          | Some tmpList =>
              Some (fold_left
                      (fun str val => str ++ utf8.EncodeRune (utf8.int32 val))
                      tmpList "")
          end
      end
  end.

(** The type parameter of [Int]: [int], [int64] or [int32]. *)
Inductive IntType : Set := AsInt | AsInt64 | AsInt32.

Definition width (T : IntType) : Z :=
  match T with
  | AsInt32 => 32
  | _ => 64
  end.

(** [Int]: the arguments of [ParseInt] are the string, the base 64 and
    the bit size 10; the conversion [T(i)] keeps the low bits of [i]. *)
Definition Int (T : IntType) (dest : string) : Z :=
  let (i, _) := strconv.ParseInt dest 64 10 in
  (i + 2 ^ (width T - 1)) mod 2 ^ width T - 2 ^ (width T - 1).

(** A hexadecimal digit, in lower or in upper case. *)
Definition hexDigit (upper : bool) (d : Z) : ascii :=
  if d <? 10 then uint8 (48 + d)
  else uint8 ((if upper then 65 else 97) + (d - 10)).

(** [fmt.Sprintf("%x", b)] and [fmt.Sprintf("%X", b)] for a byte: one or
    two digits, no padding. *)
Definition hex (upper : bool) (b : Z) : string :=
  if b <? 16 then String (hexDigit upper b) ""
  else String (hexDigit upper (b / 16)) (String (hexDigit upper (b mod 16)) "").

(** [Random]: [entropy i] is the byte [rand.Read] puts at index [i].
    [None] is the panic of [make] on a negative length. *)
Definition Random (entropy : nat -> ascii) (length : Z) : option string :=
  if length =? 0 then Some ""
  else if length <? 0 then None
  else
    let randByte := map entropy (seq 0 (Z.to_nat length)) in
    let byteHalf := 127 in
    let str :=
      String.concat ""
        (map (fun b => hex (byteHalf <? byte_of b) (byte_of b)) randByte) in
    if (Z.to_nat length <? String.length str)%nat
    then Some (substring 0 (Z.to_nat length) str)
    else Some str.

(** ** [BindDefault]

    The argument [dest]: the untyped [nil], a value that is not a pointer,
    a pointer to a value that is not a struct, or a pointer to a struct
    ([None] when the pointer is nil).  A field of the struct is given by
    its [default] tag and its value. *)
Record Tagged : Set := { default : string; held : value }.

Inductive Target : Set :=
| TNil
| TValue (k : reflect.Kind)
| TPointer (elem : reflect.Kind)
| TStruct (fields : option (list Tagged)).

Inductive BindError : Set :=
| ErrStructPointer
| ErrUnsupported
| ErrNum (e : strconv.NumError).

Definition hold (f : Tagged) (v : value) : Tagged :=
  {| default := default f; held := v |}.

Section BindDefault.
(** [strconv.ParseFloat(df, bitSize)], as the [float64] value it returns,
    and the conversion [float32(val)] of such a value. *)
Variable ParseFloat : string -> Z -> value * option strconv.NumError.
Variable float32 : value -> value.

(** The loop over the fields from the current one on: the error returned,
    and the fields as the call leaves them (those before the error are
    set). *)
Fixpoint BindDefault_loop (fields : list Tagged)
  : option BindError * list Tagged :=
  match fields with
  | [] => (None, [])
  | field :: rest =>
      let df := default field in
      let next (f : Tagged) :=
        let (err, rest) := BindDefault_loop rest in (err, f :: rest) in
      if negb (String.eqb (Sprint (Interface (held field))) "") then next field
      else
        match kindOf (held field) with
        | reflect.String => next (hold field (VString df))
        | reflect.Int =>
            let (val, err) := strconv.Atoi df in
            match err with
            | Some e => (Some (ErrNum e), fields)
            | None => next (hold field (VInt val))
            end
        | reflect.Int64 =>
            let (val, err) := strconv.ParseInt df 10 64 in
            match err with
            | Some e => (Some (ErrNum e), fields)
            | None => next (hold field (VInt64 val))
            end
        | reflect.Int32 =>
            let (val, err) := strconv.ParseInt df 10 32 in
            match err with
            | Some e => (Some (ErrNum e), fields)
            | None =>
                let newV := utf8.int32 val in
                next (hold field (VOpaque reflect.Int32 (itoa newV) (itoa newV)))
            end
        | reflect.Float32 =>
            let (val, err) := ParseFloat df 32 in
            match err with
            | Some e => (Some (ErrNum e), fields)
            | None => next (hold field (float32 val))
            end
        | reflect.Float64 =>
            let (val, err) := ParseFloat df 64 in
            match err with
            | Some e => (Some (ErrNum e), fields)
            | None => next (hold field val)
            end
        | reflect.Bool =>
            let df := strings.ToUpper df in
            let val := if String.eqb df "TRUE" then "true" else "false" in
            next (hold field (VOpaque reflect.Bool val val))
        | _ => (Some ErrUnsupported, fields)
        end
  end.

(** [BindDefault]: the error and the struct after the call.  [None] is a
    panic ([reflect.TypeOf(nil).Kind()], [NumField] through a nil
    pointer). *)
Definition BindDefault (dest : Target)
  : option (option BindError * option (list Tagged)) :=
  match dest with
  | TNil => None
  | TValue _ => Some (Some ErrStructPointer, None)
  | TPointer _ => Some (Some ErrStructPointer, None)
  | TStruct None => None
  | TStruct (Some fields) =>
      let (err, fields) := BindDefault_loop fields in
      Some (err, Some fields)
  end.
End BindDefault.

End Orm.

(* ================================================================== *)
(** * Notions the statements on the utilities are written with         *)
(* ================================================================== *)

Module Notions.
Import Go.

(** The byte of the key that goes with the rune at index [index]. *)
Definition keyByte (saltKey : string) (index : nat) : Z :=
  Z.land 255
    (nth (index mod List.length (Orm.bytes saltKey)) (Orm.bytes saltKey) 0).

(** The numbers [Encrypt] writes for the runes from index [index] on. *)
Fixpoint shifted (saltKey : string) (index : nat) (rs : list Z) : list Z :=
  match rs with
  | [] => []
  | r :: rs' => r + keyByte saltKey index :: shifted saltKey (S index) rs'
  end.

(** The text [Encrypt] encodes: each number after an underscore. *)
Fixpoint underscored (vs : list Z) : string :=
  match vs with
  | [] => ""
  | v :: vs' => "_" ++ itoa v ++ underscored vs'
  end.

(** The text is valid UTF-8: the [range] loop over it meets no byte that
    is not part of an encoding ([skip] bytes belong to the rune decoded
    last). *)
Fixpoint validFrom (skip : nat) (s : string) : bool :=
  match s with
  | EmptyString => true
  | String c s' =>
      match skip with
      | S k => validFrom k s'
      | O =>
          let (r, w) := decodeRune c s' in
          negb ((r =? RuneError) && (w =? 1)%nat) && validFrom (pred w) s'
      end
  end.

Definition validUTF8 (s : string) : bool := validFrom 0 s.

(** A hexadecimal digit, in either case. *)
Definition isHex (c : ascii) : bool :=
  let b := byte_of c in
  between 48 57 b || between 97 102 b || between 65 70 b.

Fixpoint allHex (s : string) : bool :=
  match s with
  | EmptyString => true
  | String c s' => isHex c && allHex s'
  end.

(** The field as [BindDefault] leaves it: a field that prints as the
    empty text and is of kind string takes its [default] tag. *)
Definition defaulted (f : Orm.Tagged) : Orm.Tagged :=
  if String.eqb (Sprint (Interface (Orm.held f))) "" then
    Orm.hold f (VString (Orm.default f))
  else f.

(** A field of one of the three types the engine models by structure. *)
Definition plain (f : Orm.Tagged) : bool :=
  match Orm.held f with
  | VInt _ | VInt64 _ | VString _ => true
  | _ => false
  end.

End Notions.

(* ================================================================== *)
(** * Strings                                                          *)
(* ================================================================== *)

Lemma append_nil_r (s : string) : s ++ "" = s.
Proof. induction s as [|c s IH]; simpl; [reflexivity | now rewrite IH]. Qed.

Lemma append_assoc (a b c : string) : (a ++ b) ++ c = a ++ (b ++ c).
Proof. induction a as [|x a IH]; simpl; [reflexivity | now rewrite IH]. Qed.

Lemma append_length (a b : string) :
  String.length (a ++ b) = (String.length a + String.length b)%nat.
Proof. induction a as [|x a IH]; simpl; [reflexivity | now rewrite IH]. Qed.

Lemma append_eq_nil (a b : string) : a ++ b = "" -> a = "" /\ b = "".
Proof. destruct a; simpl; [auto | discriminate]. Qed.

(* ================================================================== *)
(** * Name resolver                                                    *)
(* ================================================================== *)

Section ToSnake.

(** The offsets a [range] loop yields from offset [i] on are at least [i]. *)
Lemma rangeFrom_offsets (s : string) :
  forall i skip, Forall (fun p => (i <= fst p)%nat) (Go.rangeFrom i skip s).
Proof.
  induction s as [|c s IH]; intros i skip; simpl; [constructor|].
  destruct skip as [|k].
  - destruct (Go.decodeRune c s) as [r w]. constructor; [simpl; lia|].
    eapply Forall_impl; [|apply IH]. simpl; intros; lia.
  - eapply Forall_impl; [|apply IH]. simpl; intros; lia.
Qed.

Lemma toSnake_step_interior (convert : string) (i : nat) (r : Z) :
  (0 < i)%nat -> toSnake_step convert (i, r) = convert ++ snake_rune true r.
Proof.
  intros Hi. unfold toSnake_step, snake_rune, is_upper.
  destruct ((65 <=? r) && (r <=? 90)).
  - destruct (Nat.ltb_spec 0 i); [|lia].
    now rewrite append_assoc.
  - reflexivity.
Qed.

Lemma toSnake_step_first (convert : string) (r : Z) :
  toSnake_step convert (0%nat, r) = convert ++ snake_rune false r.
Proof.
  unfold toSnake_step, snake_rune, is_upper.
  destruct ((65 <=? r) && (r <=? 90)); reflexivity.
Qed.

Lemma fold_toSnake_interior (l : list (nat * Z)) :
  forall convert,
    Forall (fun p => (1 <= fst p)%nat) l ->
    fold_left toSnake_step l convert = convert ++ snake_interior (map snd l).
Proof.
  induction l as [|[i r] l IH]; intros convert H; cbn [fold_left map snd].
  - now rewrite append_nil_r.
  - inversion H as [|? ? Hi Hl]; subst. cbn [fst] in Hi.
    rewrite IH by assumption.
    rewrite toSnake_step_interior by lia.
    cbn [snake_interior]. now rewrite append_assoc.
Qed.

Lemma toSnake_runes (name : string) :
  toSnake name = snake_of_runes (map snd (Go.range name)).
Proof.
  unfold toSnake, Go.range.
  destruct name as [|c s]; [reflexivity|].
  cbn [Go.rangeFrom]. destruct (Go.decodeRune c s) as [r w].
  cbn [fold_left map snd snake_of_runes].
  rewrite fold_toSnake_interior by apply rangeFrom_offsets.
  now rewrite toSnake_step_first.
Qed.

(** On an ASCII string the loop yields each byte, one at a time. *)
Lemma rangeFrom_ascii (s : string) :
  Spec.isASCII s = true ->
  forall i,
    map snd (Go.rangeFrom i 0 s)
    = map Go.byte_of (list_ascii_of_string s).
Proof.
  induction s as [|c s IH]; intros H i; [reflexivity|].
  cbn [Spec.isASCII] in H. apply andb_prop in H as [Hc Hs].
  cbn [Go.rangeFrom list_ascii_of_string map].
  unfold Go.decodeRune. rewrite Hc. cbn [pred map snd].
  now rewrite IH.
Qed.

Lemma uint8_byte_of (c : ascii) : Go.uint8 (Go.byte_of c) = c.
Proof.
  unfold Go.uint8, Go.byte_of.
  pose proof (N_ascii_bounded c) as Hb.
  rewrite Z.mod_small by lia.
  now rewrite N2Z.id, ascii_N_embedding.
Qed.

Lemma snake_interior_ascii (s : string) :
  snake_interior (map Go.byte_of (list_ascii_of_string s)) = Spec.snakeInterior s.
Proof.
  induction s as [|c s IH]; [reflexivity|].
  cbn [list_ascii_of_string map snake_interior Spec.snakeInterior].
  unfold snake_rune, is_upper, Spec.isUpperByte, Go.lowerByte, Go.between.
  rewrite IH.
  destruct ((65 <=? Go.byte_of c) && (Go.byte_of c <=? 90)).
  - reflexivity.
  - now rewrite uint8_byte_of.
Qed.

Lemma toSnake_ascii (name : string) :
  Spec.isASCII name = true -> toSnake name = Spec.snakeCase name.
Proof.
  intros H. rewrite toSnake_runes. unfold Go.range.
  rewrite rangeFrom_ascii by assumption.
  destruct name as [|c s]; [reflexivity|].
  cbn [list_ascii_of_string map snake_of_runes Spec.snakeCase].
  rewrite snake_interior_ascii.
  unfold snake_rune, is_upper, Go.lowerByte, Go.between.
  destruct ((65 <=? Go.byte_of c) && (Go.byte_of c <=? 90)).
  - reflexivity.
  - now rewrite uint8_byte_of.
Qed.

End ToSnake.

(** C3, counterexample: the identifier [UserID] has two interior upper-case
    letters, and the derivation puts a delimiter before each: the column
    name is [user_i_d], not [user_id]. *)
Lemma toSnake_UserID_is_not_user_id :
  toSnake "UserID" = "user_i_d" /\ toSnake "UserID" <> "user_id".
Proof. split; [reflexivity | discriminate]. Qed.

(** C3, as amended: for every field identifier, the derivation goes through
    the identifier rune by rune, lower-cases every upper-case ASCII letter
    and puts the delimiter before each one that is not the first rune, and
    keeps every other rune (as its low byte); on an ASCII identifier this is
    a delimiter before every interior upper-case letter and the whole
    identifier in lower case.  In particular [UserID] maps to [user_i_d]. *)
Theorem toSnake_delimits_interior_upper_case :
  (forall name, toSnake name = snake_of_runes (map snd (Go.range name)))
  /\ (forall name, Spec.isASCII name = true -> toSnake name = Spec.snakeCase name)
  /\ toSnake "UserID" = "user_i_d".
Proof.
  split; [exact toSnake_runes | split; [exact toSnake_ascii | reflexivity]].
Qed.

(** C3, witness: an ASCII identifier with one interior upper-case letter. *)
Lemma toSnake_delimits_interior_upper_case_witness :
  toSnake "UserName" = "user_name".
Proof.
  destruct toSnake_delimits_interior_upper_case as (_ & Hascii & _).
  rewrite (Hascii "UserName"); reflexivity.
Defined.

Lemma snakeInterior_lower (s : string) :
  Spec.noUpper s = true -> Spec.snakeInterior s = s.
Proof.
  induction s as [|c s IH]; cbn [Spec.noUpper Spec.snakeInterior];
    [reflexivity|].
  intros H. apply andb_prop in H as [Hc Hs].
  apply negb_true_iff in Hc. rewrite Hc. now rewrite IH.
Qed.

(** X4: the derivation leaves an ASCII name without upper-case letters as
    it is; applied to a column name it has derived, it gives that name
    back. *)
Theorem toSnake_keeps_lower_case_names :
  forall name,
    Spec.isASCII name = true -> Spec.noUpper name = true ->
    toSnake name = name.
Proof.
  intros name Ha Hl. rewrite toSnake_ascii by assumption.
  destruct name as [|c s]; [reflexivity|].
  cbn [Spec.noUpper] in Hl. apply andb_prop in Hl as [Hc Hs].
  cbn [Spec.snakeCase]. rewrite snakeInterior_lower by assumption.
  unfold Go.lowerByte. unfold Spec.isUpperByte in Hc.
  apply negb_true_iff in Hc. now rewrite Hc.
Qed.

(** X4, witness: the column name [user_name]. *)
Lemma toSnake_keeps_lower_case_names_witness :
  toSnake (toSnake "UserName") = toSnake "UserName".
Proof.
  apply (toSnake_keeps_lower_case_names (toSnake "UserName")); reflexivity.
Defined.

(* ================================================================== *)
(** * Primary-key write-back                                           *)
(* ================================================================== *)

Section WriteBack.
Import Go.

Lemma withFields_same (s : Struct) : withFields s (Fields s) = s.
Proof. now destruct s. Qed.

Lemma savePriFieldMap_known (k : reflect.Kind) :
  Spec.intOrInt64 k = true ->
  forall lastId, exists convert,
    Pg.savePriFieldMap k = Some convert
    /\ convert lastId = Spec.keyValue k lastId.
Proof.
  intros H lastId; destruct k; try discriminate H;
    eexists; split; reflexivity.
Qed.

Lemma savePriFieldMap_unknown (k : reflect.Kind) :
  Spec.intOrInt64 k = false -> Pg.savePriFieldMap k = None.
Proof. destruct k; simpl; intros H; try reflexivity; discriminate H. Qed.

(** No field to fill in: the loop copies the fields. *)
Lemma savePrimaryKey_loop_none (fs : list Field) (lastId : Z) :
  (forall f, In f fs -> Spec.writable f = false) ->
  Pg.savePrimaryKey_loop fs lastId = fs.
Proof.
  induction fs as [|f fs IH]; intros H; simpl; [reflexivity|].
  assert (Hf : Spec.writable f = false) by (apply H; now left).
  rewrite IH by (intros g Hg; apply H; now right).
  unfold Spec.writable, Spec.qualifies in Hf.
  destruct (_ || _ || _); [|reflexivity].
  simpl in Hf. now rewrite (savePriFieldMap_unknown _ Hf).
Qed.

(** The first field that can be filled in is, and only that one. *)
Lemma savePrimaryKey_loop_first (pre post : list Field) (f : Field) (lastId : Z) :
  (forall g, In g pre -> Spec.writable g = false) ->
  Spec.writable f = true ->
  Pg.savePrimaryKey_loop (pre ++ f :: post)%list lastId
  = (pre ++ setVal f (Spec.keyValue (kindOf (val f)) lastId) :: post)%list.
Proof.
  intros Hpre Hf. induction pre as [|g pre IH]; simpl.
  - unfold Spec.writable, Spec.qualifies in Hf.
    apply andb_prop in Hf as [Hq Hk]. rewrite Hq.
    destruct (savePriFieldMap_known _ Hk lastId) as [convert [-> <-]].
    reflexivity.
  - assert (Hg : Spec.writable g = false) by (apply Hpre; now left).
    rewrite IH by (intros h Hh; apply Hpre; now right).
    unfold Spec.writable, Spec.qualifies in Hg.
    destruct (_ || _ || _); [|reflexivity].
    simpl in Hg. now rewrite (savePriFieldMap_unknown _ Hg).
Qed.

(** Rows the write-back leaves alone go through [Insert] unchanged. *)
Lemma Insert_rows_unchanged (db : Sql.TxDB) (tableName : string) :
  Spec.insertSucceeds db ->
  forall dest applied newDest,
    Forall Spec.keyless dest ->
    Pg.b_newDest (Pg.Insert_rows db tableName applied newDest dest)
    = (newDest ++ dest)%list
    /\ Pg.b_err (Pg.Insert_rows db tableName applied newDest dest) = None.
Proof.
  intros (Hb & Hp & Hq & _ & Hc) dest.
  induction dest as [|row rest IH]; intros applied newDest H;
    cbn [Pg.Insert_rows].
  - rewrite Hc. cbn [Pg.b_newDest Pg.b_err]. now rewrite app_nil_r.
  - inversion H as [|? ? Hrow Hrest]; subst.
    rewrite Hp.
    match goal with |- context [Sql.QueryRowScan db applied ?q] =>
      destruct (Hq applied q) as [lastId ->] end.
    unfold Pg.savePrimaryKey.
    rewrite savePrimaryKey_loop_none by exact Hrow.
    rewrite withFields_same.
    match goal with |- context [Pg.Insert_rows db tableName ?a ?n rest] =>
      destruct (IH a n Hrest) as [E1 E2] end.
    rewrite E1, E2. unfold append1. now rewrite <- app_assoc.
Qed.

(** The same in the positional variant. *)
Lemma My_Insert_rows_unchanged (db : Sql.TxDB) (tableName : string) :
  Spec.insertSucceeds db ->
  forall dest applied newDest,
    Forall Spec.keyless dest ->
    Pg.b_newDest (My.Insert_rows db tableName applied newDest dest)
    = (newDest ++ dest)%list
    /\ Pg.b_err (My.Insert_rows db tableName applied newDest dest) = None.
Proof.
  intros (Hb & Hp & _ & Hq & Hc) dest.
  induction dest as [|row rest IH]; intros applied newDest H;
    cbn [My.Insert_rows].
  - rewrite Hc. cbn [Pg.b_newDest Pg.b_err]. now rewrite app_nil_r.
  - inversion H as [|? ? Hrow Hrest]; subst.
    rewrite Hp.
    match goal with |- context [Sql.ExecLastInsertId db applied ?q] =>
      destruct (Hq applied q) as [lastId ->] end.
    unfold My.savePrimaryKey, Pg.savePrimaryKey.
    rewrite savePrimaryKey_loop_none by exact Hrow.
    rewrite withFields_same.
    match goal with |- context [My.Insert_rows db tableName ?a ?n rest] =>
      destruct (IH a n Hrest) as [E1 E2] end.
    rewrite E1, E2. unfold append1. now rewrite <- app_assoc.
Qed.

End WriteBack.

(** C10, counterexample: [Mixed] has a field [Id] of kind [int32], which
    qualifies as primary key by its identifier and is of a kind the
    write-back does not know, and a field [Ref] of kind [int] with a
    [pri] tag.  The write-back does not leave the row unchanged: it passes
    over [Id] and stores the identifier in [Ref], and [Insert] returns the
    row so changed. *)
Lemma savePrimaryKey_passes_over_to_a_later_key :
  Spec.qualifies (Ex.field "Id" "" "" (Go.VOpaque reflect.Int32 "0" "0")) = true
  /\ Spec.intOrInt64 (Go.kindOf (Go.VOpaque reflect.Int32 "0" "0")) = false
  /\ Pg.savePrimaryKey (Ex.mixed 0 0) 9 = Ex.mixed 0 9
  /\ Pg.savePrimaryKey (Ex.mixed 0 0) 9 <> Ex.mixed 0 0
  /\ Pg.b_newDest (Pg.Insert Ex.txOk false (Ex.mixed 0 0) [Ex.mixed 0 0])
     = [Ex.mixed 0 1]
  /\ Pg.b_newDest (My.Insert Ex.txOk false (Ex.mixed 0 0) [Ex.mixed 0 0])
     = [Ex.mixed 0 1].
Proof. repeat split; try reflexivity. discriminate. Qed.

(** C10, as amended: the write-back happens only into a field that
    qualifies as primary key and whose kind is [int] or [int64]: the first
    such field receives the identifier, as a value of its kind, and a
    qualifying field of another kind before it is passed over.  When no
    qualifying field has one of these two kinds, or no field qualifies,
    [savePrimaryKey] leaves every field of the row as it was, and [Insert]
    (of either variant, on a handle whose steps all succeed) still appends
    each such row, unchanged, to the sequence it returns and reports no
    error. *)
Theorem savePrimaryKey_writes_int_and_int64_only :
  (forall row lastId,
      Spec.keyless row -> Pg.savePrimaryKey row lastId = row)
  /\ (forall row pre f post lastId,
      Go.Fields row = (pre ++ f :: post)%list ->
      (forall g, In g pre -> Spec.writable g = false) ->
      Spec.writable f = true ->
      Go.Fields (Pg.savePrimaryKey row lastId)
      = (pre ++ Go.setVal f (Spec.keyValue (Go.kindOf (Go.val f)) lastId) :: post)%list)
  /\ (forall db t dest,
      Spec.insertSucceeds db ->
      Forall Spec.keyless dest ->
      (Pg.b_newDest (Pg.Insert db false t dest) = dest
       /\ Pg.b_err (Pg.Insert db false t dest) = None)
      /\ (Pg.b_newDest (My.Insert db false t dest) = dest
          /\ Pg.b_err (My.Insert db false t dest) = None)).
Proof.
  split; [|split].
  - intros row lastId H. unfold Pg.savePrimaryKey.
    rewrite savePrimaryKey_loop_none by exact H. apply withFields_same.
  - intros row pre f post lastId E Hpre Hf. unfold Pg.savePrimaryKey. simpl.
    rewrite E. now apply savePrimaryKey_loop_first.
  - intros db t dest Hdb H. unfold Pg.Insert, My.Insert.
    pose proof Hdb as (Hb & _). rewrite Hb. split.
    + apply (Insert_rows_unchanged db _ Hdb dest [] [] H).
    + apply (My_Insert_rows_unchanged db _ Hdb dest [] [] H).
Qed.

(** C10, witness: a row whose key is a string is returned as it was; a row
    whose key is an [int64] receives the identifier. *)
Lemma savePrimaryKey_writes_int_and_int64_only_witness :
  Pg.savePrimaryKey (Ex.note "n1" "text") 7 = Ex.note "n1" "text"
  /\ Go.Fields (Pg.savePrimaryKey (Ex.user 0 "a" "a@x.com") 7)
     = Go.Fields (Ex.user 7 "a" "a@x.com")
  /\ Pg.b_newDest (Pg.Insert Ex.txOk false (Ex.note "" "") [Ex.note "n1" "text"])
     = [Ex.note "n1" "text"]
  /\ Pg.b_err (Pg.Insert Ex.txOk false (Ex.note "" "") [Ex.note "n1" "text"]) = None.
Proof.
  destruct savePrimaryKey_writes_int_and_int64_only as (H1 & H2 & H3).
  assert (Hnote : Spec.keyless (Ex.note "n1" "text")).
  { intros f [<-|[<-|[]]]; reflexivity. }
  split; [|split].
  - apply H1. exact Hnote.
  - apply (H2 (Ex.user 0 "a" "a@x.com") []
             (Ex.field "ID" "" "1" (Go.VInt64 0))
             [Ex.field "Name" "" "" (Go.VString "a");
              Ex.field "Email" "" "" (Go.VString "a@x.com")] 7).
    + reflexivity.
    + intros g [].
    + reflexivity.
  - apply H3.
    + repeat split; intros; try reflexivity; eexists; reflexivity.
    + constructor; [exact Hnote | constructor].
Defined.

(* ================================================================== *)
(** * Batch coordinator                                                *)
(* ================================================================== *)

Section Batches.
Import Go.

(** [outputSql] panics on an untyped nil among its arguments, and on
    nothing else. *)
Lemma outputSql_typed (s : string) (args : list arg) :
  Pg.outputSql s args = if Spec.typed args then Some tt else None.
Proof.
  unfold Spec.typed.
  induction args as [|a args IH]; [reflexivity|].
  destruct a; cbn [Pg.outputSql forallb andb]; try exact IH. reflexivity.
Qed.

(** The arguments [parseSqlIn] returns are typed: where [Query] and
    [Delete] call [outputSql], it does not panic. *)
Lemma splitArgs_typed (find : reflect.Kind -> option (arg -> option string)) :
  forall args sliceArgs newArgs sliceArgs' newArgs',
    Spec.typed newArgs = true ->
    Pg.splitArgs find args sliceArgs newArgs = Some (sliceArgs', newArgs') ->
    Spec.typed newArgs' = true.
Proof.
  induction args as [|a args IH]; intros sliceArgs newArgs sliceArgs' newArgs'
    Hnew H; cbn [Pg.splitArgs] in H.
  - now injection H as _ <-.
  - destruct a; cbn [isSlice] in H; try discriminate H;
      try (destruct (0 <? _)%nat;
           [destruct (find _) as [f|]; [destruct (f _); [|discriminate H]|]|];
           eapply IH; eassumption).
    eapply IH; [|exact H]. unfold Spec.typed, append1 in *.
    rewrite forallb_app, Hnew. reflexivity.
Qed.

Lemma outputSql_after_parseSqlIn (sqlStr : string) (args : list arg)
  (sqlStr' : string) (args' : list arg) :
  Pg.parseSqlIn sqlStr args = Some (sqlStr', args') ->
  Pg.outputSql sqlStr' args' = Some tt.
Proof.
  unfold Pg.parseSqlIn. intros H.
  destruct (Pg.splitArgs _ args [] []) as [[sliceArgs newArgs]|] eqn:E;
    [|discriminate H].
  injection H as _ <-. rewrite outputSql_typed.
  now rewrite (splitArgs_typed _ args [] [] sliceArgs newArgs eq_refl E).
Qed.

(** How a batch may end when no argument is an untyped nil: committed,
    with no error, or with an error and nothing left behind (rolled back,
    or the commit refused). *)
Lemma Update_rows_closes (db : Sql.TxDB) (where_ : string) (args : list arg) :
  Spec.typed args = true ->
  forall dest applied,
    exists err,
      fst (Pg.Update_rows db where_ args applied dest) = Pg.Returned err
      /\ Spec.closes err (snd (Pg.Update_rows db where_ args applied dest))
           (applied ++ map (Pg.generateUpdate where_) dest)%list.
Proof.
  intros Htyped.
  induction dest as [|row rest IH]; intros applied;
    cbn [Pg.Update_rows map].
  - rewrite app_nil_r.
    destruct (Sql.Commit db applied); eexists;
      (split; [reflexivity | cbn [snd Spec.closes]; auto]).
  - destruct (Sql.Prepare db applied _);
      [eexists; split; [reflexivity | cbn [snd Spec.closes]; auto]|].
    rewrite outputSql_typed, Htyped.
    destruct (Sql.ExecContext db applied _ args);
      [eexists; split; [reflexivity | cbn [snd Spec.closes]; auto]|].
    specialize (IH (append1 applied (Pg.generateUpdate where_ row))).
    unfold append1 in *. now rewrite <- app_assoc in IH.
Qed.

(** So does [Insert] of the positional variant. *)
Lemma My_Insert_rows_closes (db : Sql.TxDB) (tableName : string) :
  forall dest applied newDest,
    exists done,
      Spec.closes (Pg.b_err (My.Insert_rows db tableName applied newDest dest))
        (Pg.b_tx (My.Insert_rows db tableName applied newDest dest)) done.
Proof.
  induction dest as [|row rest IH]; intros applied newDest;
    cbn [My.Insert_rows].
  - exists applied.
    destruct (Sql.Commit db applied); cbn [Pg.b_err Pg.b_tx Spec.closes]; auto.
  - destruct (Sql.Prepare db applied _);
      [exists []; cbn [Pg.b_err Pg.b_tx Spec.closes]; auto|].
    destruct (Sql.ExecLastInsertId db applied _) as [e|[e|lastId]];
      [exists []; cbn [Pg.b_err Pg.b_tx Spec.closes]; auto ..|].
    apply IH.
Qed.

(** [Insert] of the numbered variant, when reading the identifier of a row
    fails: the error is returned and the transaction is left open, with
    the statements of the earlier rows applied in it. *)
Lemma Insert_rows_failed_scan (db : Sql.TxDB) (tableName : string)
  (row : Struct) (rest : list Struct) (applied : list string)
  (newDest : list Struct) (err : Sql.error) :
  let sqlStr :=
    "INSERT INTO " ++ tableName ++ "(" ++ Pg.Key (Pg.getKeysValues row)
    ++ ") VALUES " ++ ("(" ++ Pg.Value (Pg.getKeysValues row) ++ ")")
    ++ " RETURNING id" in
  Sql.Prepare db applied sqlStr = None ->
  Sql.QueryRowScan db applied sqlStr = inl err ->
  Pg.Insert_rows db tableName applied newDest (row :: rest)
  = {| Pg.b_newDest := []; Pg.b_err := Some err; Pg.b_tx := Sql.Open applied |}.
Proof.
  intros sqlStr Hp Hq. cbn [Pg.Insert_rows].
  fold sqlStr. now rewrite Hp, Hq.
Qed.

End Batches.

(** X2: when no argument is an untyped nil, [Update] returns and is all
    or nothing: every statement of the batch is applied and committed, or
    an error is returned and the transaction is rolled back (or was never
    begun, or its commit was refused).  When an argument is an untyped
    nil, [Update] panics in [outputSql] as soon as the statement of the
    first row is prepared, and leaves the transaction open. *)
Theorem Update_is_all_or_nothing :
  forall db pointer dest where_ args,
    (Spec.typed args = true ->
     exists err,
       fst (Pg.Update db pointer dest where_ args) = Pg.Returned err
       /\ Spec.closes err (snd (Pg.Update db pointer dest where_ args))
            (map (Pg.generateUpdate where_) dest))
    /\ (Spec.typed args = false ->
        forall row rest,
          dest = row :: rest -> pointer = false ->
          Sql.Begin db = None ->
          Sql.Prepare db [] (Pg.generateUpdate where_ row) = None ->
          Pg.Update db pointer dest where_ args = (Pg.Panicked, Sql.Open [])).
Proof.
  intros db pointer dest where_ args. split.
  - intros Htyped. unfold Pg.Update.
    destruct pointer;
      [eexists; split; [reflexivity | cbn [snd Spec.closes]; auto]|].
    destruct (Sql.Begin db);
      [eexists; split; [reflexivity | cbn [snd Spec.closes]; auto]|].
    apply (Update_rows_closes db where_ args Htyped dest []).
  - intros Hnil row rest -> -> Hb Hp. unfold Pg.Update. rewrite Hb.
    cbn [Pg.Update_rows]. now rewrite Hp, outputSql_typed, Hnil.
Qed.

(** X2, witness: two rows on a handle that refuses the second statement,
    and the same rows with an untyped nil for argument. *)
Lemma Update_is_all_or_nothing_witness :
  Pg.Update Ex.txSecondFails false
    [Ex.user 1 "a" "a@x.com"; Ex.user 2 "b" "b@x.com"] ""
    [Go.AScalar (Go.VInt64 1)]
  = (Pg.Returned (Some (Sql.SqlError "pq: duplicate key value")),
     Sql.RolledBack)
  /\ Pg.Update Ex.txOk false
       [Ex.user 1 "a" "a@x.com"; Ex.user 2 "b" "b@x.com"] "name = $1"
       [Go.ANil]
     = (Pg.Panicked, Sql.Open []).
Proof.
  split.
  - destruct (proj1 (Update_is_all_or_nothing Ex.txSecondFails false
                       [Ex.user 1 "a" "a@x.com"; Ex.user 2 "b" "b@x.com"] ""
                       [Go.AScalar (Go.VInt64 1)]) eq_refl)
      as (err & _ & _).
    reflexivity.
  - apply (proj2 (Update_is_all_or_nothing Ex.txOk false
                    [Ex.user 1 "a" "a@x.com"; Ex.user 2 "b" "b@x.com"]
                    "name = $1" [Go.ANil]) eq_refl
                 (Ex.user 1 "a" "a@x.com") [Ex.user 2 "b" "b@x.com"]);
      reflexivity.
Defined.

(** X3: [Insert] of the positional variant is all or nothing. *)
Theorem My_Insert_is_all_or_nothing :
  forall db pointer t dest,
    exists done,
      Spec.closes (Pg.b_err (My.Insert db pointer t dest))
        (Pg.b_tx (My.Insert db pointer t dest)) done.
Proof.
  intros db pointer t dest. unfold My.Insert.
  destruct pointer; [exists []; cbn [Pg.b_err Pg.b_tx Spec.closes]; auto|].
  destruct (Sql.Begin db); [exists []; cbn [Pg.b_err Pg.b_tx Spec.closes]; auto|].
  apply My_Insert_rows_closes.
Qed.

(** X5: a batch of no rows commits an empty transaction and returns no
    row and no error. *)
Theorem empty_batch_commits :
  forall db t where_ args,
    Sql.Begin db = None -> Sql.Commit db [] = None ->
    Pg.Insert db false t []
    = {| Pg.b_newDest := []; Pg.b_err := None; Pg.b_tx := Sql.Committed [] |}
    /\ Pg.Update db false [] where_ args
       = (Pg.Returned None, Sql.Committed []).
Proof.
  intros db t where_ args Hb Hc. unfold Pg.Insert, Pg.Update.
  rewrite Hb. cbn [Pg.Insert_rows Pg.Update_rows]. now rewrite Hc.
Qed.

(** X5, witness: on a handle where every step succeeds. *)
Lemma empty_batch_commits_witness :
  Pg.Insert Ex.txOk false (Ex.user 0 "" "") []
  = {| Pg.b_newDest := []; Pg.b_err := None; Pg.b_tx := Sql.Committed [] |}
  /\ Pg.Update Ex.txOk false [] "id = 5" []
     = (Pg.Returned None, Sql.Committed []).
Proof.
  apply (empty_batch_commits Ex.txOk (Ex.user 0 "" "") "id = 5" []);
    reflexivity.
Defined.

(** C1, the failing input: two rows, the handle refuses the second insert
    when its identifier is read.  [Insert] of the numbered variant returns
    the error and no rows, but the transaction is still open, the first
    insert applied in it: it was not rolled back.  On the same handle
    [Update] (same file) and [Insert] of the positional variant do roll
    back. *)
Theorem Insert_failed_scan_leaves_transaction_open :
  Pg.Insert Ex.txSecondFails false (Ex.user 0 "" "")
    [Ex.user 0 "a" "a@x.com"; Ex.user 0 "b" "b@x.com"]
  = {| Pg.b_newDest := [];
       Pg.b_err := Some (Sql.SqlError "pq: duplicate key value");
       Pg.b_tx := Sql.Open
         ["INSERT INTO user(name,email) VALUES ('a','a@x.com') RETURNING id"] |}
  /\ Pg.Update Ex.txSecondFails false
       [Ex.user 1 "a" "a@x.com"; Ex.user 2 "b" "b@x.com"] "" []
     = (Pg.Returned (Some (Sql.SqlError "pq: duplicate key value")),
        Sql.RolledBack)
  /\ Pg.b_tx (My.Insert Ex.txSecondFails false (Ex.user 0 "" "")
       [Ex.user 0 "a" "a@x.com"; Ex.user 0 "b" "b@x.com"])
     = Sql.RolledBack.
Proof. repeat split; vm_compute; reflexivity. Qed.

(* ================================================================== *)
(** * Statement execution facade and scalar destinations               *)
(* ================================================================== *)

Section Facade.
Import Go.
Variable convertAssign : value -> Sql.cell -> Sql.error + value.

Lemma Pg_Query_asksThenChecks :
  Spec.asksThenChecks (Pg.Query convertAssign) Pg.parseSqlIn.
Proof.
  intros db t sqlStr args sqlStr' args' Hparse.
  unfold Pg.Query. rewrite Hparse.
  destruct (Sql.PrepareContext db sqlStr') as [err|].
  - eexists; split; [reflexivity|]. cbn. auto.
  - destruct (Sql.QueryContext db sqlStr' args') as [err|rows].
    + eexists; split; [reflexivity|]. cbn. auto.
    + destruct (existsb (reflect.Kind_eqb (Pg.destKind t)) Pg.allows) eqn:Hk;
        cbn [negb].
      * destruct t as [s|elem items|v].
        -- destruct (Pg.unmarshalStruct convertAssign rows s).
           eexists; split; [reflexivity|]. cbn. split; [reflexivity|discriminate].
        -- destruct (Pg.unmarshalSlice convertAssign rows elem items).
           eexists; split; [reflexivity|]. cbn. split; [reflexivity|discriminate].
        -- destruct (Pg.unmarshalNumOrStr convertAssign rows v).
           eexists; split; [reflexivity|]. cbn. split; [reflexivity|discriminate].
      * eexists; split; [reflexivity|]. cbn. auto.
Qed.

Lemma My_Query_asksThenChecks :
  Spec.asksThenChecks (My.Query convertAssign) My.parseSqlIn.
Proof.
  intros db t sqlStr args sqlStr' args' Hparse.
  unfold My.Query. rewrite Hparse.
  destruct (Sql.PrepareContext db sqlStr') as [err|].
  - eexists; split; [reflexivity|]. cbn. auto.
  - destruct (Sql.QueryContext db sqlStr' args') as [err|rows].
    + eexists; split; [reflexivity|]. cbn. auto.
    + destruct (existsb (reflect.Kind_eqb (Pg.destKind t)) Pg.allows) eqn:Hk;
        cbn [negb].
      * destruct t as [s|elem items|v].
        -- destruct (My.unmarshalStruct convertAssign rows s).
           eexists; split; [reflexivity|]. cbn. split; [reflexivity|discriminate].
        -- destruct (Pg.unmarshalSlice convertAssign rows elem items).
           eexists; split; [reflexivity|]. cbn. split; [reflexivity|discriminate].
        -- destruct (Pg.unmarshalNumOrStr convertAssign rows v).
           eexists; split; [reflexivity|]. cbn. split; [reflexivity|discriminate].
      * eexists; split; [reflexivity|]. cbn. auto.
Qed.

(** A scalar destination and an empty result set: [Next] closes the
    cursor, [Scan] refuses a closed cursor, and the error is returned;
    the destination keeps its value. *)
Lemma unmarshalNumOrStr_no_rows (cols : list string) (dest : value) :
  Pg.unmarshalNumOrStr convertAssign (Sql.openRows cols []) dest
  = (Some Sql.errRowsClosed, dest).
Proof. reflexivity. Qed.

End Facade.

(** C5, counterexample: a destination of kind bool, outside the allow-list,
    on a handle where the statement prepares and runs.  [Query] returns
    [ErrAllow], and by then it has prepared the statement and run the
    query. *)
Lemma Query_rejects_bool_after_running_the_query :
  Pg.Query Sql.convertSameKind (Ex.dbWith Ex.twoUsers)
    (Pg.DScalar (Go.VOpaque reflect.Bool "false" "false"))
    "SELECT true" []
  = Some {| Pg.q_t := None; Pg.q_err := Some Sql.ErrAllow;
            Pg.q_log := [Sql.EvPrepare "SELECT true";
                         Sql.EvQuery "SELECT true" []] |}.
Proof. reflexivity. Qed.

(** C5, as amended: in both variants, for every destination kind, [Query]
    prepares exactly one statement, and runs it exactly once when the
    prepare succeeded (not at all otherwise); an error of the prepare or of
    the query is returned as it is; for a kind outside the allow-list,
    [ErrAllow] is returned only after the statement was prepared and the
    query run, both with success. *)
Theorem Query_prepares_and_runs_before_the_kind_check :
  forall convertAssign,
    Spec.asksThenChecks (Pg.Query convertAssign) Pg.parseSqlIn
    /\ Spec.asksThenChecks (My.Query convertAssign) My.parseSqlIn.
Proof.
  intros convertAssign. split.
  - apply Pg_Query_asksThenChecks.
  - apply My_Query_asksThenChecks.
Qed.

(** C5, witness: the query of the counterexample, read off the theorem. *)
Lemma Query_prepares_and_runs_before_the_kind_check_witness :
  exists r,
    Pg.Query Sql.convertSameKind (Ex.dbWith Ex.twoUsers)
      (Pg.DScalar (Go.VOpaque reflect.Bool "false" "false")) "SELECT true" []
    = Some r
    /\ Pg.q_log r = [Sql.EvPrepare "SELECT true"; Sql.EvQuery "SELECT true" []]
    /\ Pg.q_err r = Some Sql.ErrAllow.
Proof.
  destruct (Query_prepares_and_runs_before_the_kind_check Sql.convertSameKind)
    as [HPg _].
  destruct (HPg (Ex.dbWith Ex.twoUsers)
              (Pg.DScalar (Go.VOpaque reflect.Bool "false" "false"))
              "SELECT true" [] "SELECT true" [] eq_refl) as [r [Hr Hlog]].
  exists r. split; [exact Hr|].
  cbn in Hlog. destruct Hlog as [Hlog Herr].
  split; [exact Hlog | apply Herr; reflexivity].
Defined.

(** C9, counterexample: [Query[int64]] on a statement that selects no row
    returns the error of [Scan] on the closed cursor. *)
Lemma Query_scalar_without_rows_returns_an_error :
  Pg.Query Sql.convertSameKind (Ex.dbWith (Sql.openRows ["n"] []))
    (Pg.DScalar (Go.VInt64 0)) "SELECT n FROM t WHERE false" []
  = Some {| Pg.q_t := Some (Pg.DScalar (Go.VInt64 0));
            Pg.q_err := Some (Sql.SqlError "sql: Rows are closed");
            Pg.q_log := [Sql.EvPrepare "SELECT n FROM t WHERE false";
                         Sql.EvQuery "SELECT n FROM t WHERE false" []] |}.
Proof. reflexivity. Qed.

(** C9, as amended: for every query into a scalar destination whose result
    set has no row, the destination is left at its initial value and the
    error [Scan] gives on the cursor [Next] has just closed ([sql: Rows are
    closed]) is returned to the caller, whatever the driver's conversions
    are. *)
Theorem scalar_without_rows_keeps_value_and_returns_rows_closed :
  forall convertAssign cols dest,
    Pg.unmarshalNumOrStr convertAssign (Sql.openRows cols []) dest
    = (Some Sql.errRowsClosed, dest)
    /\ forall db sqlStr args sqlStr' args',
        Pg.parseSqlIn sqlStr args = Some (sqlStr', args') ->
        Sql.PrepareContext db sqlStr' = None ->
        Sql.QueryContext db sqlStr' args' = inr (Sql.openRows cols []) ->
        existsb (reflect.Kind_eqb (Go.kindOf dest)) Pg.allows = true ->
        Pg.Query convertAssign db (Pg.DScalar dest) sqlStr args
        = Some {| Pg.q_t := Some (Pg.DScalar dest);
                  Pg.q_err := Some Sql.errRowsClosed;
                  Pg.q_log := [Sql.EvPrepare sqlStr';
                               Sql.EvQuery sqlStr' args'] |}.
Proof.
  intros convertAssign cols dest. split.
  - apply unmarshalNumOrStr_no_rows.
  - intros db sqlStr args sqlStr' args' Hparse Hprep Hquery Hkind.
    unfold Pg.Query. rewrite Hparse, Hprep, Hquery.
    cbn [Pg.destKind]. rewrite Hkind. cbn [negb].
    now rewrite unmarshalNumOrStr_no_rows.
Qed.

(** C9, witness: the query of the counterexample, read off the theorem. *)
Lemma scalar_without_rows_keeps_value_and_returns_rows_closed_witness :
  Pg.Query Sql.convertSameKind (Ex.dbWith (Sql.openRows ["n"] []))
    (Pg.DScalar (Go.VInt64 0)) "SELECT n FROM t WHERE false" []
  = Some {| Pg.q_t := Some (Pg.DScalar (Go.VInt64 0));
            Pg.q_err := Some Sql.errRowsClosed;
            Pg.q_log := [Sql.EvPrepare "SELECT n FROM t WHERE false";
                         Sql.EvQuery "SELECT n FROM t WHERE false" []] |}.
Proof.
  apply (proj2 (scalar_without_rows_keeps_value_and_returns_rows_closed
                  Sql.convertSameKind ["n"] (Go.VInt64 0)));
    reflexivity.
Defined.

(* ================================================================== *)
(** * Row marshaller: a struct destination                             *)
(* ================================================================== *)

Section StructDestination.
Import Go.
Variable convertAssign : value -> Sql.cell -> Sql.error + value.

(** Every pending row scans: the loop ends without an error, and the
    receivers hold the scan of the final row. *)
Lemma scanEvery_final_row (cols : list string) (types : list value) :
  forall init fuel cur values final vs,
    (S (List.length init) < fuel)%nat ->
    Forall (fun row => exists ws, Sql.scanRow convertAssign types row = inr ws) init ->
    Sql.scanRow convertAssign types final = inr vs ->
    exists rows',
      Pg.scanEvery convertAssign fuel (Spec.midRows cols (init ++ [final])%list cur)
        types values
      = (None, vs, rows').
Proof.
  induction init as [|row init IH]; intros fuel cur values final vs Hfuel Hall Hfinal.
  - destruct fuel as [|[|fuel]]; [lia | lia |].
    cbn [Pg.scanEvery app]. unfold Sql.Next, Spec.midRows. cbn.
    unfold Sql.Scan. cbn. rewrite Hfinal. cbn. eexists; reflexivity.
  - destruct fuel as [|fuel]; [lia|].
    inversion Hall as [|? ? [ws Hrow] Hrest]; subst.
    cbn [Pg.scanEvery app]. unfold Sql.Next, Spec.midRows. cbn.
    fold (Spec.midRows cols (init ++ [final])%list (Some row)).
    unfold Sql.Scan. cbn [Sql.closed Sql.lastcols Spec.midRows]. rewrite Hrow.
    apply IH; [simpl in Hfuel; lia | assumption | assumption].
Qed.

(** No pending row: the receivers keep their contents. *)
Lemma scanEvery_no_row (cols : list string) (types : list value) :
  forall fuel cur values,
    exists rows',
      Pg.scanEvery convertAssign (S fuel) (Spec.midRows cols [] cur) types values
      = (None, values, rows').
Proof. intros. eexists. reflexivity. Qed.

(** A row that does not scan ends the loop with its error. *)
Lemma scanEvery_failing_row (cols : list string) (types : list value) :
  forall pre fuel cur values bad post err,
    (List.length pre < fuel)%nat ->
    Forall (fun row => exists vs, Sql.scanRow convertAssign types row = inr vs) pre ->
    Sql.scanRow convertAssign types bad = inl err ->
    exists values' rows',
      Pg.scanEvery convertAssign fuel (Spec.midRows cols (pre ++ bad :: post)%list cur)
        types values
      = (Some err, values', rows').
Proof.
  induction pre as [|row pre IH]; intros fuel cur values bad post err Hfuel Hall Hbad.
  - destruct fuel as [|fuel]; [simpl in Hfuel; lia|].
    cbn [Pg.scanEvery app]. unfold Sql.Next, Spec.midRows. cbn.
    unfold Sql.Scan. cbn. rewrite Hbad. eexists; eexists; reflexivity.
  - destruct fuel as [|fuel]; [simpl in Hfuel; lia|].
    inversion Hall as [|? ? [vs Hrow] Hrest]; subst.
    cbn [Pg.scanEvery app]. unfold Sql.Next, Spec.midRows. cbn.
    fold (Spec.midRows cols (pre ++ bad :: post)%list (Some row)).
    unfold Sql.Scan. cbn [Sql.closed Sql.lastcols Spec.midRows]. rewrite Hrow.
    apply IH; [simpl in Hfuel; lia | assumption | assumption].
Qed.


End StructDestination.

(** C7, counterexample: two rows, a struct destination.  The positional
    variant calls [Next] and [Scan] once: the destination holds the first
    row, where the numbered variant leaves the last. *)
Lemma My_unmarshalStruct_keeps_the_first_row :
  My.unmarshalStruct Sql.convertSameKind Ex.twoUsers (Ex.user 0 "" "")
  = (None, Ex.user 1 "first" "")
  /\ Pg.unmarshalStruct Sql.convertSameKind Ex.twoUsers (Ex.user 0 "" "")
     = (None, Ex.user 2 "last" "").
Proof. split; reflexivity. Qed.

(** C7, as amended: in the numbered variant, for every query into a single
    struct destination whose rows all scan, every row is scanned and the
    destination ends up holding the scan of the final row; a row that does
    not scan ends the call with its error and the destination as it was.
    In the positional variant only the first row is scanned, and the
    destination holds it. *)
Theorem unmarshalStruct_last_row_wins_in_numbered_variant :
  forall convertAssign cols dest,
    (forall init final vals,
        Forall (Spec.scans convertAssign dest cols) init ->
        Sql.scanRow convertAssign (snd (Spec.bound dest cols)) final = inr vals ->
        Pg.unmarshalStruct convertAssign (Sql.openRows cols (init ++ [final])%list) dest
        = (None, Spec.filled dest cols vals))
    /\ (forall pre bad post err,
        Forall (Spec.scans convertAssign dest cols) pre ->
        Sql.scanRow convertAssign (snd (Spec.bound dest cols)) bad = inl err ->
        Pg.unmarshalStruct convertAssign
          (Sql.openRows cols (pre ++ bad :: post)%list) dest
        = (Some err, dest))
    /\ (forall first rest vals,
        Sql.scanRow convertAssign (snd (Spec.bound dest cols)) first = inr vals ->
        My.unmarshalStruct convertAssign (Sql.openRows cols (first :: rest)) dest
        = (None, Spec.filled dest cols vals)).
Proof.
  intros convertAssign cols dest.
  unfold Spec.filled, Spec.scans, Spec.bound.
  split; [|split].
  - intros init final vals Hinit Hfinal.
    unfold Pg.unmarshalStruct. cbn [Sql.Columns Sql.openRows Sql.closed Sql.columns Sql.pending].
    destruct (Pg.bindColumns _ _ cols [] []) as [names types].
    cbn [fst snd] in *.
    destruct (scanEvery_final_row convertAssign cols types init
                (S (List.length (init ++ [final])%list)) None types final vals)
      as [rows' E]; [rewrite length_app; simpl; lia | assumption | assumption |].
    unfold Spec.midRows in E. unfold Sql.openRows. rewrite E. reflexivity.
  - intros pre bad post err Hpre Hbad.
    unfold Pg.unmarshalStruct. cbn [Sql.Columns Sql.openRows Sql.closed Sql.columns Sql.pending].
    destruct (Pg.bindColumns _ _ cols [] []) as [names types].
    cbn [fst snd] in *.
    destruct (scanEvery_failing_row convertAssign cols types pre
                (S (List.length (pre ++ bad :: post)%list)) None types bad post err)
      as [values' [rows' E]];
      [rewrite length_app; simpl; lia | assumption | assumption |].
    unfold Spec.midRows in E. unfold Sql.openRows. rewrite E. reflexivity.
  - intros first rest vals Hfirst.
    unfold My.unmarshalStruct. cbn [Sql.Columns Sql.openRows Sql.closed Sql.columns].
    destruct (Pg.bindColumns _ _ cols [] []) as [names types].
    cbn [fst snd] in *.
    unfold Sql.Next, Sql.Scan. cbn. now rewrite Hfirst.
Qed.

(** C7, witness: the two rows of the counterexample, read off the theorem. *)
Lemma unmarshalStruct_last_row_wins_in_numbered_variant_witness :
  Pg.unmarshalStruct Sql.convertSameKind Ex.twoUsers (Ex.user 0 "" "")
  = (None, Ex.user 2 "last" "")
  /\ My.unmarshalStruct Sql.convertSameKind Ex.twoUsers (Ex.user 0 "" "")
     = (None, Ex.user 1 "first" "").
Proof.
  destruct (unmarshalStruct_last_row_wins_in_numbered_variant
              Sql.convertSameKind ["i_d"; "name"] (Ex.user 0 "" ""))
    as (HPg & _ & HMy).
  split.
  - apply (HPg [[Sql.CValue (Go.VInt64 1); Sql.CValue (Go.VString "first")]]
               [Sql.CValue (Go.VInt64 2); Sql.CValue (Go.VString "last")]
               [Go.VInt64 2; Go.VString "last"]).
    + constructor; [|constructor]. eexists; reflexivity.
    + reflexivity.
  - apply (HMy [Sql.CValue (Go.VInt64 1); Sql.CValue (Go.VString "first")]
               [[Sql.CValue (Go.VInt64 2); Sql.CValue (Go.VString "last")]]
               [Go.VInt64 1; Go.VString "first"]).
    reflexivity.
Defined.



(* ================================================================== *)
(** * SQL synthesizer: the primary key in the write path               *)
(* ================================================================== *)

Section WritePath.
Import Go.

Lemma getKeysValues_step_inserted (keys values : list string) (f : Field) :
  Pg.getKeysValues_step (keys, values) f
  = if Spec.inserted f
    then ((keys ++ [Pg.columnOf f])%list,
          (values ++ [Pg.insertLiteral (Interface (val f))])%list)
    else (keys, values).
Proof.
  unfold Pg.getKeysValues_step, Spec.inserted, Pg.isPrimary.
  destruct (String.eqb (Pg.columnOf f) "id" || negb (String.eqb (pri f) ""));
    cbn [negb andb]; [reflexivity|].
  destruct (reflect.Kind_eqb (kindOf (Interface (val f))) reflect.Pointer);
    reflexivity.
Qed.

Lemma getKeysValues_fold (fs : list Field) :
  forall keys values,
    fold_left Pg.getKeysValues_step fs (keys, values)
    = ((keys ++ map Pg.columnOf (filter Spec.inserted fs))%list,
       (values ++ map (fun f => Pg.insertLiteral (Interface (val f)))
                    (filter Spec.inserted fs))%list).
Proof.
  induction fs as [|f fs IH]; intros keys values; cbn [fold_left filter map].
  - now rewrite !app_nil_r.
  - rewrite getKeysValues_step_inserted.
    destruct (Spec.inserted f); rewrite IH; [|reflexivity].
    cbn [map]. now rewrite <- !app_assoc.
Qed.

Lemma key_filter_not_empty (column text : string) :
  String.eqb (column ++ " = " ++ text) "" = false.
Proof.
  apply String.eqb_neq. intros H.
  apply append_eq_nil in H as [_ H]. discriminate H.
Qed.

Lemma generateUpdate_step_updated (sets : list string) (sqlStr : string) (f : Field) :
  Pg.generateUpdate_step (sets, sqlStr) f
  = if Pg.isPrimary f
    then (sets, if String.eqb sqlStr ""
                then Pg.columnOf f ++ " = " ++ Sprint (val f) else sqlStr)
    else if Spec.updated f
         then ((sets ++ [Spec.assignment f])%list, sqlStr)
         else (sets, sqlStr).
Proof.
  unfold Pg.generateUpdate_step, Spec.updated, Spec.assignment, Pg.isPrimary.
  fold (Pg.columnOf f).
  destruct (String.eqb (Pg.columnOf f) "id" || negb (String.eqb (pri f) ""));
    cbn [negb andb].
  - destruct (String.eqb sqlStr ""); reflexivity.
  - destruct (reflect.Kind_eqb (kindOf (val f)) reflect.Pointer); reflexivity.
Qed.

Lemma updated_not_primary (f : Field) :
  Pg.isPrimary f = true -> Spec.updated f = false.
Proof. intros H. unfold Spec.updated. now rewrite H. Qed.

Lemma generateUpdate_fold (fs : list Field) :
  forall sets sqlStr,
    fold_left Pg.generateUpdate_step fs (sets, sqlStr)
    = ((sets ++ map Spec.assignment (filter Spec.updated fs))%list,
       if String.eqb sqlStr "" then Spec.keyFilter fs else sqlStr).
Proof.
  induction fs as [|f fs IH]; intros sets sqlStr; cbn [fold_left filter map].
  - rewrite app_nil_r. unfold Spec.keyFilter. cbn [find].
    destruct (String.eqb_spec sqlStr ""); congruence.
  - rewrite generateUpdate_step_updated. unfold Spec.keyFilter. cbn [find].
    destruct (Pg.isPrimary f) eqn:Hp.
    + rewrite (updated_not_primary f Hp), IH.
      destruct (String.eqb sqlStr "") eqn:Hw.
      * now rewrite key_filter_not_empty.
      * now rewrite Hw.
    + fold (Spec.keyFilter fs).
      destruct (Spec.updated f); rewrite IH; [|reflexivity].
      cbn [map]. now rewrite <- !app_assoc.
Qed.

Lemma My_getKeysValues_fold (fs : list Field) :
  forall keys values,
    fst (fold_left My.getKeysValues_step fs (keys, values))
    = (keys ++ map Spec.backquoted fs)%list.
Proof.
  induction fs as [|f fs IH]; intros keys values; cbn [fold_left map].
  - now rewrite app_nil_r.
  - unfold My.getKeysValues_step at 2. rewrite IH.
    unfold append1, Spec.backquoted, Pg.columnOf. now rewrite <- app_assoc.
Qed.

End WritePath.

(** C4, counterexample: in [Account] the field [Id] is the primary key by
    its snake-cased identifier ([id]) but carries the JSON name [uid]; the
    numbered variant writes it, as column [uid], in the INSERT lists and in
    the SET list.  The positional variant lists the primary key of [User]
    (a [pri] annotation) among the INSERT columns. *)
Lemma primary_key_by_identifier_is_written :
  Spec.qualifies (Ex.field "Id" "uid" "" (Go.VInt64 7)) = true
  /\ Pg.keysValues (Ex.account 7 "n") = (["uid"; "name"], ["7"; "'n'"])
  /\ Pg.generateUpdate "name = 'n'" (Ex.account 7 "m")
     = "UPDATE account SET uid=7,name='m' WHERE name = 'n'"
  /\ Spec.qualifies (Ex.field "ID" "" "1" (Go.VInt64 7)) = true
  /\ My.Key (My.getKeysValues (Ex.user 7 "a" "a@x.com")) = "`i_d`,`name`,`email`".
Proof. repeat split; reflexivity. Qed.

(** C4, as amended: in the numbered variant, for every struct row, a field
    whose column name (its JSON name when it has one, its snake-cased
    identifier otherwise) is [id], or that carries a [pri] annotation,
    appears neither in the INSERT column and value lists nor in the UPDATE
    SET list: these lists are made, in order, of the other fields that are
    not pointers.  When the filter fragment of [Update] is empty, the WHERE
    clause is built from the column name and the value of the first such
    field of the row.  (The positional variant lists every field among the
    INSERT columns.) *)
Theorem primary_key_column_is_left_out_of_the_written_lists :
  forall dest,
    Pg.keysValues dest
    = (map Pg.columnOf (filter Spec.inserted (Go.Fields dest)),
       map (fun f => Pg.insertLiteral (Go.Interface (Go.val f)))
         (filter Spec.inserted (Go.Fields dest)))
    /\ (forall sqlStr,
        Pg.setsWhere sqlStr dest
        = (map Spec.assignment (filter Spec.updated (Go.Fields dest)),
           if String.eqb sqlStr "" then Spec.keyFilter (Go.Fields dest)
           else sqlStr))
    /\ (forall f, Pg.isPrimary f = true ->
                  Spec.inserted f = false /\ Spec.updated f = false)
    /\ Pg.generateUpdate "" dest
       = "UPDATE " ++ Pg.getTableName dest ++ " SET "
         ++ Go.Join (map Spec.assignment (filter Spec.updated (Go.Fields dest))) ","
         ++ " WHERE " ++ Spec.keyFilter (Go.Fields dest)
    /\ fst (My.keysValues dest)
       = map Spec.backquoted (Go.Fields dest).
Proof.
  intros dest. repeat split.
  - unfold Pg.keysValues. now rewrite getKeysValues_fold.
  - intros sqlStr. unfold Pg.setsWhere. now rewrite generateUpdate_fold.
  - unfold Spec.inserted. now rewrite H.
  - unfold Spec.updated. now rewrite H.
  - unfold Pg.generateUpdate, Pg.setsWhere. cbn [Go.matchesKeyword Go.stripPrefixFold].
    now rewrite generateUpdate_fold.
  - unfold My.keysValues. now rewrite My_getKeysValues_fold.
Qed.

(** C4, witness: the row of [User], whose key carries a [pri] annotation. *)
Lemma primary_key_column_is_left_out_of_the_written_lists_witness :
  Pg.isPrimary (Ex.field "ID" "" "1" (Go.VInt64 5)) = true
  /\ Spec.inserted (Ex.field "ID" "" "1" (Go.VInt64 5)) = false
  /\ Spec.updated (Ex.field "ID" "" "1" (Go.VInt64 5)) = false
  /\ Pg.keysValues (Ex.user 5 "b" "b@x.com") = (["name"; "email"], ["'b'"; "'b@x.com'"])
  /\ Pg.generateUpdate "" (Ex.user 5 "b" "b@x.com")
     = "UPDATE user SET name='b',email='b@x.com' WHERE i_d = 5".
Proof.
  destruct (primary_key_column_is_left_out_of_the_written_lists
              (Ex.user 5 "b" "b@x.com")) as (Hkv & _ & Hpri & Hupd & _).
  split; [reflexivity|].
  destruct (Hpri (Ex.field "ID" "" "1" (Go.VInt64 5)) eq_refl) as [Hi Hu].
  split; [exact Hi|]. split; [exact Hu|].
  split.
  - rewrite Hkv. reflexivity.
  - rewrite Hupd. reflexivity.
Defined.

(* ================================================================== *)
(** * SQL synthesizer: the keyword test of DELETE and UPDATE           *)
(* ================================================================== *)

Section KeywordTest.
Import Go.

Lemma stripPrefixFold_sound (kw : string) :
  forall s rest,
    stripPrefixFold kw s = Some rest ->
    exists k, s = k ++ rest /\ Spec.lowerString k = kw.
Proof.
  induction kw as [|p kw IH]; intros s rest H; cbn [stripPrefixFold] in H.
  - injection H as <-. exists "". split; reflexivity.
  - destruct s as [|c s]; [discriminate|].
    destruct (Ascii.eqb_spec (lowerByte c) p) as [E|]; [|discriminate].
    destruct (IH _ _ H) as [k [-> Hk]].
    exists (String c k). split; [reflexivity|].
    cbn [Spec.lowerString]. now rewrite E, Hk.
Qed.

Lemma stripPrefixFold_complete (k rest : string) :
  stripPrefixFold (Spec.lowerString k) (k ++ rest) = Some rest.
Proof.
  induction k as [|c k IH]; cbn [Spec.lowerString stripPrefixFold String.append].
  - reflexivity.
  - now rewrite Ascii.eqb_refl.
Qed.

Lemma lazyThenSpace_sound (s : string) :
  lazyThenSpace s = true ->
  exists mid post, s = mid ++ String " " post /\ Spec.oneLine mid = true.
Proof.
  induction s as [|c s IH]; cbn [lazyThenSpace]; [discriminate|].
  destruct (Ascii.eqb_spec c " ") as [->|Hsp].
  - intros _. exists "", s. split; reflexivity.
  - destruct (Ascii.eqb c "010") eqn:Hnl; [discriminate|].
    intros H. destruct (IH H) as [mid [post [-> Hmid]]].
    exists (String c mid), post. split; [reflexivity|].
    cbn [Spec.oneLine]. now rewrite Hnl, Hmid.
Qed.

Lemma lazyThenSpace_complete (mid post : string) :
  Spec.oneLine mid = true -> lazyThenSpace (mid ++ String " " post) = true.
Proof.
  induction mid as [|c mid IH]; cbn [Spec.oneLine String.append lazyThenSpace].
  - reflexivity.
  - intros H. apply andb_prop in H as [Hc Hmid].
    destruct (Ascii.eqb c " "); [reflexivity|].
    apply negb_true_iff in Hc. rewrite Hc. now apply IH.
Qed.

Lemma matchesKeyword_unfold (kw s : string) :
  matchesKeyword kw s
  = Spec.matchesHere kw s
    || match s with
       | EmptyString => false
       | String _ s' => matchesKeyword kw s'
       end.
Proof.
  unfold Spec.matchesHere.
  destruct s as [|c s]; cbn [matchesKeyword];
    destruct (stripPrefixFold kw _) as [rest|];
    try destruct (lazyThenSpace rest); reflexivity.
Qed.

Lemma matchesKeyword_sound (kw : string) :
  forall s, matchesKeyword kw s = true -> Spec.containsKeyword kw s.
Proof.
  induction s as [|c s IH]; rewrite matchesKeyword_unfold; intros H;
    apply orb_prop in H as [H|H].
  - unfold Spec.matchesHere in H.
    destruct (stripPrefixFold kw "") as [rest|] eqn:E; [|discriminate].
    destruct (stripPrefixFold_sound _ _ _ E) as [k [Hs Hk]].
    destruct (lazyThenSpace_sound _ H) as [mid [post [-> Hmid]]].
    exists "", k, mid, post. auto.
  - discriminate.
  - unfold Spec.matchesHere in H.
    destruct (stripPrefixFold kw (String c s)) as [rest|] eqn:E; [|discriminate].
    destruct (stripPrefixFold_sound _ _ _ E) as [k [Hs Hk]].
    destruct (lazyThenSpace_sound _ H) as [mid [post [-> Hmid]]].
    exists "", k, mid, post. auto.
  - destruct (IH H) as (pre & k & mid & post & -> & Hk & Hmid).
    exists (String c pre), k, mid, post. auto.
Qed.

Lemma matchesKeyword_complete (kw s : string) :
  Spec.containsKeyword kw s -> matchesKeyword kw s = true.
Proof.
  intros (pre & k & mid & post & -> & <- & Hmid).
  induction pre as [|c pre IH]; rewrite matchesKeyword_unfold.
  - cbn [String.append]. unfold Spec.matchesHere.
    rewrite stripPrefixFold_complete, lazyThenSpace_complete by assumption.
    reflexivity.
  - cbn [String.append]. rewrite IH. apply orb_true_r.
Qed.

End KeywordTest.

(** C8, counterexample: the test is not a test of how the fragment begins.
    A fragment that begins with the keyword but has no space after the
    table name is prefixed all the same; a fragment that only mentions the
    keyword further on is used as it is. *)
Lemma generateDelete_does_not_test_the_beginning :
  Pg.generateDelete "DELETE FROM user" (Ex.user 0 "" "")
  = "DELETE FROM user WHERE DELETE FROM user"
  /\ Pg.generateDelete "note = 'delete from a b'" (Ex.user 0 "" "")
     = "note = 'delete from a b'".
Proof. split; reflexivity. Qed.

(** The keyword [generateUpdate] tests for is DELETE: a complete UPDATE
    statement is wrapped in another one, and a fragment that mentions
    [delete] is used as the whole statement. *)
Lemma generateUpdate_tests_for_the_delete_keyword :
  Pg.generateUpdate "UPDATE user SET name='x' WHERE id = 1" (Ex.user 1 "b" "e")
  = "UPDATE user SET name='b',email='e' WHERE UPDATE user SET name='x' WHERE id = 1"
  /\ Pg.generateUpdate "name = 'delete me now'" (Ex.user 1 "b" "e")
     = "name = 'delete me now'".
Proof. split; reflexivity. Qed.

(** C8, as amended (DELETE only): for every filter fragment, the DELETE
    statement is the fragment as it is exactly when the fragment contains,
    anywhere and in any mix of cases, the text [DELETE FROM ] followed on
    the same line by a space; otherwise it is the fragment prefixed with
    [DELETE FROM], the table name and [WHERE]. *)
Theorem generateDelete_verbatim_iff_keyword_occurs :
  forall sqlStr dest,
    (Spec.containsKeyword "delete from " sqlStr ->
     Pg.generateDelete sqlStr dest = sqlStr)
    /\ (~ Spec.containsKeyword "delete from " sqlStr ->
        Pg.generateDelete sqlStr dest
        = "DELETE FROM " ++ Pg.getTableName dest ++ " WHERE " ++ sqlStr).
Proof.
  intros sqlStr dest. unfold Pg.generateDelete. split; intros H.
  - now rewrite (matchesKeyword_complete _ _ H).
  - destruct (Go.matchesKeyword "delete from " sqlStr) eqn:E; [|reflexivity].
    exfalso. apply H. now apply matchesKeyword_sound.
Qed.

(** C8, witness: a complete statement in lower case, and a bare filter. *)
Lemma generateDelete_verbatim_iff_keyword_occurs_witness :
  Pg.generateDelete "delete from user where id = 5" (Ex.user 0 "" "")
  = "delete from user where id = 5"
  /\ Pg.generateDelete "id = 5" (Ex.user 0 "" "")
     = "DELETE FROM user WHERE id = 5".
Proof.
  split.
  - apply (proj1 (generateDelete_verbatim_iff_keyword_occurs
                    "delete from user where id = 5" (Ex.user 0 "" ""))).
    exists "", "delete from ", "user", "where id = 5".
    repeat split; reflexivity.
  - apply (proj2 (generateDelete_verbatim_iff_keyword_occurs
                    "id = 5" (Ex.user 0 "" ""))).
    intros H. apply matchesKeyword_complete in H. discriminate H.
Defined.

(* ================================================================== *)
(** * SQL synthesizer: the IN expansion                                *)
(* ================================================================== *)

Section Replacing.
Import Go.
Variable matchAt : string -> option nat.

Lemma substring_drop (n : nat) :
  forall s, substring 0 n s ++ drop n s = s.
Proof.
  induction n as [|n IH]; intros [|c s]; cbn [substring drop String.append];
    try reflexivity.
  now rewrite IH.
Qed.

(** The pieces of a string are the string. *)
Lemma raw_piecesFrom (s : string) :
  forall skip, raw (piecesFrom matchAt skip s) = drop skip s.
Proof.
  induction s as [|c s IH]; intros [|k]; cbn [piecesFrom drop raw];
    try reflexivity.
  - destruct (matchAt (String c s)) as [[|n]|]; cbn [raw].
    + now rewrite (IH 0%nat).
    + rewrite IH. apply (substring_drop (S n) (String c s)).
    + now rewrite (IH 0%nat).
  - apply IH.
Qed.

Lemma raw_pieces (s : string) : raw (pieces matchAt s) = s.
Proof. apply (raw_piecesFrom s 0). Qed.

(** The matches among the pieces are the matches of the pattern. *)
Lemma matchesOf_piecesFrom (s : string) :
  forall skip, matchesOf (piecesFrom matchAt skip s) = findFrom matchAt skip s.
Proof.
  induction s as [|c s IH]; intros [|k]; cbn [piecesFrom findFrom matchesOf];
    try reflexivity.
  - destruct (matchAt (String c s)) as [[|n]|]; cbn [matchesOf];
      now rewrite IH.
  - apply IH.
Qed.

(** Each match is what the pattern matched at the head of some part of the
    string. *)
Lemma findFrom_matched (P : string -> Prop) :
  (forall t n, matchAt t = Some n -> P (substring 0 n t)) ->
  forall s skip, Forall P (findFrom matchAt skip s).
Proof.
  intros HP. induction s as [|c s IH]; intros [|k]; cbn [findFrom];
    try constructor.
  - destruct (matchAt (String c s)) as [[|n]|] eqn:E; try apply IH.
    constructor; [now apply HP | apply IH].
  - apply IH.
Qed.

(** A callback that counts its calls and answers by the count alone
    replaces the match number [i] by [out i]. *)
Lemma replaceFrom_substitute (repl : nat -> string -> nat * string)
  (out : nat -> string) :
  (forall i m, repl i m = (S i, out i)) ->
  forall s skip i,
    replaceFrom matchAt repl skip i s
    = substitute out i (piecesFrom matchAt skip s).
Proof.
  intros Hrepl. induction s as [|c s IH]; intros [|k] i;
    cbn [replaceFrom piecesFrom substitute]; try reflexivity.
  - destruct (matchAt (String c s)) as [[|n]|]; cbn [substitute].
    + now rewrite IH.
    + rewrite Hrepl. now rewrite IH.
    + now rewrite IH.
  - apply IH.
Qed.

End Replacing.

Section SingleMatch.
Import Go.

Lemma substitute_no_match (out : nat -> string) (ps : list piece) :
  matchesOf ps = [] -> forall i, substitute out i ps = raw ps.
Proof.
  induction ps as [|[c|m] ps IH]; cbn [matchesOf substitute raw]; intros H i.
  - reflexivity.
  - now rewrite IH.
  - discriminate.
Qed.

(** Exactly one match: the text before it and the text after it are kept
    around whatever replaces it. *)
Lemma substitute_single_match (ps : list piece) (m : string) :
  matchesOf ps = [m] ->
  exists pre post,
    raw ps = pre ++ m ++ post
    /\ forall out i, substitute out i ps = pre ++ out i ++ post.
Proof.
  induction ps as [|[c|m'] ps IH]; cbn [matchesOf]; intros H.
  - discriminate.
  - destruct (IH H) as (pre & post & Hraw & Hsub).
    exists (String c pre), post. cbn [raw substitute String.append].
    split; [now rewrite Hraw | intros; now rewrite Hsub].
  - injection H as -> Hps. exists "", (raw ps). cbn [raw substitute String.append].
    split; [reflexivity | intros; now rewrite substitute_no_match].
Qed.

End SingleMatch.

Section Expansions.
Import Go.

Lemma quoted_join (x : string) (v : list string) :
  "'" ++ Join (x :: v) "','" ++ "'" = Join (map Spec.quoted (x :: v)) ",".
Proof.
  unfold Join. revert x. induction v as [|y v IH]; intros x.
  - reflexivity.
  - change (String.concat "','" (x :: y :: v))
      with (x ++ "','" ++ String.concat "','" (y :: v)).
    change (String.concat "," (map Spec.quoted (x :: y :: v)))
      with (Spec.quoted x ++ "," ++ String.concat "," (map Spec.quoted (y :: v))).
    rewrite <- IH. unfold Spec.quoted.
    rewrite !append_assoc. reflexivity.
Qed.

(** The printers of the numbered variant give the elements, joined. *)
Lemma Pg_printer (a : arg) :
  Spec.supported a = true -> (0 <? Len a)%nat = true ->
  exists f, Pg.convertSlice2StringFuncMap (elemKind a) = Some f
            /\ f a = Some (Join (Spec.elements a) ",").
Proof.
  destruct a as [| |[|x l]|[|x l]|[|x l]|[|x l]|]; try discriminate;
    intros _ _; eexists; (split; [reflexivity|]); cbn [Spec.elements].
  - now rewrite quoted_join.
  - reflexivity.
  - reflexivity.
  - reflexivity.
Qed.

(** So do the two printers of the positional variant that assert the type
    of their slice. *)
Lemma My_printer (a : arg) :
  Spec.supportedMy a = true -> (0 <? Len a)%nat = true ->
  exists f, My.convertSlice2StringFuncMap (elemKind a) = Some f
            /\ f a = Some (Join (Spec.elements a) ",").
Proof.
  destruct a as [| |[|x l]|[|x l]|[|x l]|[|x l]|]; try discriminate;
    intros _ _; eexists; (split; [reflexivity|]); cbn [Spec.elements].
  - now rewrite quoted_join.
  - reflexivity.
Qed.

Variable supp : arg -> bool.
Variable find : reflect.Kind -> option (arg -> option string).
Hypothesis supp_slice : forall a, supp a = true -> isSlice a = Some true.
Hypothesis supp_printer :
  forall a, supp a = true -> (0 <? Len a)%nat = true ->
  exists f, find (elemKind a) = Some f /\ f a = Some (Join (Spec.elements a) ",").

(** The first loop of [parseSqlIn] on arguments that pass. *)
Lemma splitArgs_passes (args : list arg) :
  Forall (fun a => Spec.passes supp find a = true) args ->
  forall sliceArgs newArgs,
    Pg.splitArgs find args sliceArgs newArgs
    = Some ((sliceArgs ++ Spec.pending supp args)%list,
            (newArgs ++ Spec.positional args)%list).
Proof.
  induction args as [|a args IH]; intros H sliceArgs newArgs.
  - cbn. now rewrite !app_nil_r.
  - inversion H as [|? ? Ha Hargs]; subst.
    cbn [Pg.splitArgs Spec.pending].
    destruct (supp a) eqn:Hs.
    + rewrite (supp_slice a Hs). cbn [andb].
      destruct (0 <? Len a)%nat eqn:Hlen.
      * destruct (supp_printer a Hs Hlen) as [f [-> ->]].
        rewrite IH by assumption. unfold append1.
        rewrite <- app_assoc.
        destruct a; try (specialize (supp_slice _ Hs); discriminate);
          reflexivity.
      * rewrite IH by assumption.
        destruct a; try (specialize (supp_slice _ Hs); discriminate);
          reflexivity.
    + cbn [andb].
      destruct a as [|v|l|l|l|l|k n]; cbn [Spec.passes] in Ha;
        try discriminate; rewrite ?Hs in Ha; cbn [orb isSlice] in *.
      1: { rewrite IH by assumption. unfold append1. cbn [Spec.positional].
           now rewrite <- app_assoc. }
      all: match goal with |- context [Len ?a] =>
             destruct (0 <? Len a)%nat eqn:Hlen;
             [ apply Nat.ltb_lt in Hlen;
               destruct (Nat.eqb_spec (Len a) 0); [lia|]; cbn [orb] in Ha;
               destruct (find (elemKind a)); [discriminate|]
             | ];
             now rewrite IH
           end.
Qed.

End Expansions.

Section Placeholders.
Import Go.

Lemma inRepl_expansion (sliceArgs : list string) (i : nat) (m : string) :
  Pg.inRepl sliceArgs i m = (S i, Spec.expansion sliceArgs i).
Proof.
  unfold Pg.inRepl, Spec.expansion.
  destruct (Nat.ltb_spec i (List.length sliceArgs)) as [Hlt|Hge].
  - rewrite (nth_error_nth' sliceArgs "" Hlt).
    destruct (String.eqb (nth i sliceArgs "") ""); reflexivity.
  - apply nth_error_None in Hge. rewrite Hge. reflexivity.
Qed.

Lemma My_inRepl_expansion (sliceArgs : list string) (i : nat) (m : string) :
  My.inRepl sliceArgs i m = (S i, Spec.expansionMy sliceArgs i).
Proof.
  unfold My.inRepl, Spec.expansionMy.
  destruct (Nat.ltb_spec i (List.length sliceArgs)) as [Hlt|Hge].
  - now rewrite (nth_error_nth' sliceArgs "" Hlt).
  - apply nth_error_None in Hge. rewrite Hge. reflexivity.
Qed.

Lemma allDigits_digitsLen (s : string) :
  Spec.allDigits (substring 0 (Pg.digitsLen s) s) = true.
Proof.
  induction s as [|c s IH]; cbn [Pg.digitsLen]; [reflexivity|].
  destruct (Pg.isDigit c) eqn:E; cbn [substring Spec.allDigits];
    [now rewrite E, IH | reflexivity].
Qed.

(** What the pattern of the numbered variant matches is a placeholder. *)
Lemma inPattern_placeholder (t : string) (n : nat) :
  Pg.inPattern t = Some n -> Spec.isPlaceholder (substring 0 n t) = true.
Proof.
  destruct t as [|sp [|i [|k [|sp' [|d rest]]]]]; try discriminate.
  cbn [Pg.inPattern].
  destruct (Ascii.eqb sp " " && Pg.isI i && Pg.isN k && Ascii.eqb sp' " "
            && Ascii.eqb d "$") eqn:E; [|discriminate].
  intros H; injection H as <-.
  cbn [Nat.add substring Spec.isPlaceholder].
  now rewrite E, allDigits_digitsLen.
Qed.

(** What the pattern of the positional variant matches is a placeholder
    of that variant. *)
Lemma My_inPattern_placeholder (t : string) (n : nat) :
  My.inPattern t = Some n -> Spec.isPlaceholderMy (substring 0 n t) = true.
Proof.
  destruct t as [|sp [|i [|k [|sp' rest]]]]; try discriminate.
  cbn [My.inPattern].
  destruct (Ascii.eqb sp " " && Pg.isI i && Pg.isN k && Ascii.eqb sp' " ")
    eqn:E; [|discriminate].
  destruct rest as [|q rest].
  - intros H; injection H as <-. cbn [substring Spec.isPlaceholderMy].
    now rewrite E.
  - destruct (Ascii.eqb_spec q "?") as [->|Hq]; intros H; injection H as <-;
      cbn [substring Spec.isPlaceholderMy]; rewrite E;
      destruct rest; reflexivity.
Qed.

Lemma scalars_pass (supp : arg -> bool)
  (find : reflect.Kind -> option (arg -> option string)) (l : list arg) :
  (forall v, supp (AScalar v) = false) ->
  Forall (fun a => Spec.isScalar a = true) l ->
  Forall (fun a => Spec.passes supp find a = true) l
  /\ Spec.pending supp l = [] /\ Spec.positional l = l.
Proof.
  intros Hsupp H. induction H as [|a l Ha Hl (IH1 & IH2 & IH3)].
  - repeat split. constructor.
  - destruct a; try discriminate Ha.
    cbn [Spec.pending Spec.positional]. rewrite Hsupp, IH2, IH3.
    repeat split. now constructor.
Qed.

Lemma string_of_uint_not_empty (d : Decimal.uint) :
  NilZero.string_of_uint d <> "".
Proof. destruct d; discriminate. Qed.

Lemma itoa_not_empty (n : Z) : itoa n <> "".
Proof.
  unfold itoa. destruct (Z.to_int n) as [d|d]; cbn [NilZero.string_of_int].
  - apply string_of_uint_not_empty.
  - discriminate.
Qed.

Lemma Join_not_empty (x : string) (l : list string) (sep : string) :
  x <> "" -> Join (x :: l) sep <> "".
Proof.
  intros Hx. unfold Join. destruct l as [|y l]; cbn [String.concat].
  - exact Hx.
  - intros H. apply append_eq_nil in H as [H _]. contradiction.
Qed.

(** The elements of a non-empty supported slice, joined, are not the empty
    text. *)
Lemma elements_not_empty (a : arg) :
  Spec.supported a = true -> (0 < Len a)%nat -> Spec.printable a ->
  Join (Spec.elements a) "," <> "".
Proof.
  destruct a as [| |[|x l]|[|x l]|[|x l]|[|x l]|]; try discriminate;
    cbn [Len List.length]; intros _ Hlen Hp; try lia;
    cbn [Spec.elements map]; apply Join_not_empty.
  - discriminate.
  - apply itoa_not_empty.
  - apply itoa_not_empty.
  - cbn [Spec.printable] in Hp. now inversion Hp.
Qed.

Lemma elements_length (a : arg) :
  Spec.supported a = true -> List.length (Spec.elements a) = Len a.
Proof.
  destruct a; try discriminate; intros _; cbn [Spec.elements Len];
    apply length_map.
Qed.

End Placeholders.

Section ParseSqlIn.
Import Go.

Lemma supported_is_slice (a : arg) :
  Spec.supported a = true -> isSlice a = Some true.
Proof. destruct a; try discriminate; reflexivity. Qed.

Lemma supportedMy_is_slice (a : arg) :
  Spec.supportedMy a = true -> isSlice a = Some true.
Proof. destruct a; try discriminate; reflexivity. Qed.

(** [parseSqlIn] of the numbered variant, on arguments that pass. *)
Lemma Pg_parseSqlIn_passes (sqlStr : string) (args : list arg) :
  Forall (fun a => Spec.passes Spec.supported Pg.convertSlice2StringFuncMap a = true)
    args ->
  Pg.parseSqlIn sqlStr args
  = Some (substitute (Spec.expansion (Spec.pending Spec.supported args)) 0
            (pieces Pg.inPattern sqlStr),
          Spec.positional args).
Proof.
  intros H. unfold Pg.parseSqlIn.
  rewrite (splitArgs_passes Spec.supported Pg.convertSlice2StringFuncMap
             supported_is_slice Pg_printer args H [] []).
  cbn [app]. unfold ReplaceAllStringFunc, pieces.
  now rewrite (replaceFrom_substitute Pg.inPattern _ _ (inRepl_expansion _)).
Qed.

(** [parseSqlIn] of the positional variant, on arguments that pass. *)
Lemma My_parseSqlIn_passes (sqlStr : string) (args : list arg) :
  Forall (fun a => Spec.passes Spec.supportedMy My.convertSlice2StringFuncMap a = true)
    args ->
  My.parseSqlIn sqlStr args
  = Some (substitute (Spec.expansionMy (Spec.pending Spec.supportedMy args)) 0
            (pieces My.inPattern sqlStr),
          Spec.positional args).
Proof.
  intros H. unfold My.parseSqlIn.
  rewrite (splitArgs_passes Spec.supportedMy My.convertSlice2StringFuncMap
             supportedMy_is_slice My_printer args H [] []).
  cbn [app]. unfold ReplaceAllStringFunc, pieces.
  now rewrite (replaceFrom_substitute My.inPattern _ _ (My_inRepl_expansion _)).
Qed.

Lemma expansion_beyond (sliceArgs : list string) (i : nat) :
  (List.length sliceArgs <= i)%nat ->
  Spec.expansion sliceArgs i = " IN "
  /\ Spec.expansionMy sliceArgs i = " IN ()".
Proof.
  intros H. apply nth_error_None in H.
  unfold Spec.expansion, Spec.expansionMy. now rewrite H.
Qed.

(** X1: one placeholder, one non-empty supported slice among scalars: the
    placeholder becomes the list of the elements between parentheses, the
    text around it is kept, and the scalars stay, in order. *)
Lemma Pg_parseSqlIn_one_placeholder_one_slice
  (sqlStr m : string) (before after : list arg) (slice : arg) :
  FindAllString Pg.inPattern sqlStr = [m] ->
  Forall (fun a => Spec.isScalar a = true) before ->
  Forall (fun a => Spec.isScalar a = true) after ->
  Spec.supported slice = true ->
  (0 < Len slice)%nat ->
  Spec.printable slice ->
  exists pre post,
    sqlStr = pre ++ m ++ post
    /\ Spec.isPlaceholder m = true
    /\ Pg.parseSqlIn sqlStr (before ++ slice :: after)%list
       = Some (pre ++ (" IN (" ++ Join (Spec.elements slice) "," ++ ")") ++ post,
               (before ++ after)%list)
    /\ List.length (Spec.elements slice) = Len slice.
Proof.
  intros Hm Hbefore Hafter Hs Hlen Hp.
  set (find := Pg.convertSlice2StringFuncMap).
  assert (Hsc : forall v, Spec.supported (AScalar v) = false) by reflexivity.
  destruct (scalars_pass Spec.supported find before Hsc Hbefore) as (Pb & Eb & Sb).
  destruct (scalars_pass Spec.supported find after Hsc Hafter) as (Pa & Ea & Sa).
  assert (Hpass : Forall (fun a => Spec.passes Spec.supported find a = true)
                    (before ++ slice :: after)%list).
  { apply Forall_app. split; [exact Pb|]. constructor; [|exact Pa].
    destruct slice; try discriminate Hs; reflexivity. }
  assert (Hpending : Spec.pending Spec.supported (before ++ slice :: after)%list
                     = [Join (Spec.elements slice) ","]).
  { clear - Eb Ea Hs Hlen Hbefore. induction Hbefore as [|a l Ha Hl IH].
    - cbn [app Spec.pending]. rewrite Hs.
      apply Nat.ltb_lt in Hlen. rewrite Hlen. cbn [andb]. now rewrite Ea.
    - destruct a; try discriminate Ha. cbn [app Spec.pending andb Spec.supported].
      apply IH. cbn [Spec.pending Spec.supported andb] in Eb. exact Eb. }
  assert (Hpositional : Spec.positional (before ++ slice :: after)%list
                        = (before ++ after)%list).
  { clear - Sb Sa Hs Hbefore. induction Hbefore as [|a l Ha Hl IH].
    - cbn [app]. destruct slice; try discriminate Hs; cbn [Spec.positional];
        exact Sa.
    - destruct a; try discriminate Ha. cbn [app Spec.positional].
      f_equal. apply IH. cbn [Spec.positional] in Sb. now injection Sb. }
  unfold FindAllString in Hm.
  rewrite <- (matchesOf_piecesFrom Pg.inPattern sqlStr 0) in Hm.
  destruct (substitute_single_match _ _ Hm) as (pre & post & Hraw & Hsub).
  change (piecesFrom Pg.inPattern 0 sqlStr) with (pieces Pg.inPattern sqlStr) in *.
  rewrite raw_pieces in Hraw.
  exists pre, post. split; [exact Hraw|]. split.
  - assert (Hall := findFrom_matched Pg.inPattern
                      (fun m => Spec.isPlaceholder m = true)
                      inPattern_placeholder sqlStr 0%nat).
    rewrite <- matchesOf_piecesFrom in Hall.
    change (piecesFrom Pg.inPattern 0 sqlStr) with (pieces Pg.inPattern sqlStr) in *.
    rewrite Hm in Hall. now inversion Hall.
  - split; [|now apply elements_length].
    rewrite (Pg_parseSqlIn_passes sqlStr _ Hpass), Hpending, Hpositional, Hsub.
    unfold Spec.expansion. cbn [nth_error].
    pose proof (elements_not_empty slice Hs Hlen Hp) as Hne.
    apply String.eqb_neq in Hne. now rewrite Hne.
Qed.

End ParseSqlIn.

(** C2, the failing input: a query of the positional variant with one IN
    placeholder and the slice [[]int{1, 2, 3}].  The printer for the element
    kind [int] asserts [[]int64]: [parseSqlIn] panics.  The same variant
    expands an [[]int64], and the numbered variant expands the [[]int]. *)
Theorem My_parseSqlIn_panics_on_a_slice_of_int :
  My.parseSqlIn "SELECT * FROM user WHERE id IN ?" [Go.AInts [1; 2; 3]] = None
  /\ My.parseSqlIn "SELECT * FROM user WHERE id IN ?" [Go.AInt64s [1; 2; 3]]
     = Some ("SELECT * FROM user WHERE id IN (1,2,3)", [])
  /\ Pg.parseSqlIn "SELECT * FROM user WHERE id IN $1" [Go.AInts [1; 2; 3]]
     = Some ("SELECT * FROM user WHERE id IN (1,2,3)", []).
Proof. repeat split; reflexivity. Qed.

(** C6, counterexample: two placeholders, one expansion.  The positional
    variant writes the second occurrence with an empty pair of parentheses,
    where the numbered variant leaves the keyword bare. *)
Lemma My_parseSqlIn_writes_empty_parentheses :
  My.parseSqlIn "SELECT * FROM t WHERE a IN ? AND b IN ?" [Go.AInt64s [1; 2]]
  = Some ("SELECT * FROM t WHERE a IN (1,2) AND b IN ()", [])
  /\ Pg.parseSqlIn "SELECT * FROM t WHERE a IN $1 AND b IN $2" [Go.AInt64s [1; 2]]
     = Some ("SELECT * FROM t WHERE a IN (1,2) AND b IN ", []).
Proof. split; reflexivity. Qed.

(** C6, as amended: the statement [parseSqlIn] returns is the SQL string
    with each occurrence of the IN pattern replaced and the rest of the text
    kept, and no error is raised.  In the numbered variant the occurrence
    number [i] is replaced by the expansion number [i] between parentheses,
    and every occurrence beyond the last expansion by the bare text [ IN ]
    (keyword in upper case, placeholder dropped).  In the positional variant
    every occurrence beyond the last expansion is replaced by [ IN ()]. *)
Theorem IN_beyond_the_expansions_is_bare_in_numbered_variant :
  forall sqlStr args,
    (Forall (fun a => Spec.passes Spec.supported Pg.convertSlice2StringFuncMap a = true)
       args ->
     Pg.parseSqlIn sqlStr args
     = Some (Go.substitute (Spec.expansion (Spec.pending Spec.supported args)) 0
               (Go.pieces Pg.inPattern sqlStr),
             Spec.positional args))
    /\ (Forall (fun a => Spec.passes Spec.supportedMy My.convertSlice2StringFuncMap a = true)
          args ->
        My.parseSqlIn sqlStr args
        = Some (Go.substitute (Spec.expansionMy (Spec.pending Spec.supportedMy args)) 0
                  (Go.pieces My.inPattern sqlStr),
                Spec.positional args))
    /\ (forall sliceArgs i,
          (List.length sliceArgs <= i)%nat ->
          Spec.expansion sliceArgs i = " IN "
          /\ Spec.expansionMy sliceArgs i = " IN ()")
    /\ Go.raw (Go.pieces Pg.inPattern sqlStr) = sqlStr
    /\ Forall (fun m => Spec.isPlaceholder m = true)
         (Go.matchesOf (Go.pieces Pg.inPattern sqlStr))
    /\ Go.raw (Go.pieces My.inPattern sqlStr) = sqlStr
    /\ Forall (fun m => Spec.isPlaceholderMy m = true)
         (Go.matchesOf (Go.pieces My.inPattern sqlStr)).
Proof.
  intros sqlStr args. repeat split.
  - apply Pg_parseSqlIn_passes.
  - apply My_parseSqlIn_passes.
  - now apply expansion_beyond.
  - now apply expansion_beyond.
  - apply raw_pieces.
  - unfold Go.pieces. rewrite matchesOf_piecesFrom.
    apply findFrom_matched. exact inPattern_placeholder.
  - apply raw_pieces.
  - unfold Go.pieces. rewrite matchesOf_piecesFrom.
    apply findFrom_matched. exact My_inPattern_placeholder.
Qed.

(** C6, witness: the two statements of the counterexample, read off the
    theorem. *)
Lemma IN_beyond_the_expansions_is_bare_in_numbered_variant_witness :
  Pg.parseSqlIn "SELECT * FROM t WHERE a IN $1 AND b IN $2" [Go.AInt64s [1; 2]]
  = Some ("SELECT * FROM t WHERE a IN (1,2) AND b IN ", [])
  /\ My.parseSqlIn "SELECT * FROM t WHERE a IN ? AND b IN ?" [Go.AInt64s [1; 2]]
     = Some ("SELECT * FROM t WHERE a IN (1,2) AND b IN ()", [])
  /\ Spec.expansion ["1,2"] 1 = " IN ".
Proof.
  split; [|split].
  - destruct (IN_beyond_the_expansions_is_bare_in_numbered_variant
                "SELECT * FROM t WHERE a IN $1 AND b IN $2" [Go.AInt64s [1; 2]])
      as (HPg & _).
    rewrite HPg; [reflexivity|]. constructor; [reflexivity | constructor].
  - destruct (IN_beyond_the_expansions_is_bare_in_numbered_variant
                "SELECT * FROM t WHERE a IN ? AND b IN ?" [Go.AInt64s [1; 2]])
      as (_ & HMy & _).
    rewrite HMy; [reflexivity|]. constructor; [reflexivity | constructor].
  - destruct (IN_beyond_the_expansions_is_bare_in_numbered_variant "" [])
      as (_ & _ & Hb & _).
    apply (Hb ["1,2"] 1%nat). simpl. lia.
Defined.

(** X1, witness: the scenario of the specification, in the query
    [SELECT * FROM user WHERE id IN $1] with [[]int64{1, 2, 3}] the
    placeholder becomes [ IN (1,2,3)], and no argument stays. *)
Lemma Pg_parseSqlIn_one_placeholder_one_slice_witness :
  exists pre post,
    "SELECT * FROM user WHERE id IN $1" = pre ++ " IN $1" ++ post
    /\ Pg.parseSqlIn "SELECT * FROM user WHERE id IN $1" [Go.AInt64s [1; 2; 3]]
       = Some (pre ++ " IN (1,2,3)" ++ post, []).
Proof.
  destruct (Pg_parseSqlIn_one_placeholder_one_slice
              "SELECT * FROM user WHERE id IN $1" " IN $1" [] []
              (Go.AInt64s [1; 2; 3]))
    as (pre & post & Hsql & _ & Hparse & _).
  - reflexivity.
  - constructor.
  - constructor.
  - reflexivity.
  - simpl. lia.
  - exact I.
  - exists pre, post. split; [exact Hsql | exact Hparse].
Defined.

(* ================================================================== *)
(** * Row marshaller: which field a column fills                       *)
(* ================================================================== *)

Section Columns.
Import Go.

Lemma setVal_val (f : Field) : setVal f (val f) = f.
Proof. now destruct f. Qed.

Lemma setByName_names (fs : list Field) (name : string) (v : value) :
  map Name (setByName fs name v) = map Name fs.
Proof.
  induction fs as [|f fs IH]; [reflexivity|].
  cbn [setByName]. destruct (String.eqb (Name f) name); cbn [map].
  - reflexivity.
  - now rewrite IH.
Qed.

Lemma setNamed_absent (fs : list Field) (name : string) (v : value) :
  ~ In name (map Name fs) -> map (Spec.setNamed name v) fs = fs.
Proof.
  induction fs as [|f fs IH]; intros Hin; [reflexivity|].
  cbn [map]. rewrite IH by (intros H; apply Hin; now right).
  unfold Spec.setNamed. destruct (String.eqb_spec (Name f) name) as [E|E].
  - exfalso. apply Hin. left. exact E.
  - reflexivity.
Qed.

(** Field identifiers are distinct: setting by identifier touches the one
    field of that identifier. *)
Lemma setByName_map (fs : list Field) (name : string) (v : value) :
  NoDup (map Name fs) ->
  setByName fs name v = map (Spec.setNamed name v) fs.
Proof.
  induction fs as [|f fs IH]; intros Hnd; [reflexivity|].
  cbn [map] in Hnd. inversion Hnd as [|? ? Hnotin Hnd']; subst.
  cbn [setByName map]. unfold Spec.setNamed at 1.
  destruct (String.eqb_spec (Name f) name) as [E|E].
  - subst name. now rewrite setNamed_absent.
  - now rewrite IH.
Qed.

Lemma assigned_cons (n : string) (v : value) (names : list string)
  (vals : list value) (f : Field) :
  Spec.assigned (n :: names) (v :: vals) f
  = Spec.assigned names vals (Spec.setNamed n v f).
Proof.
  unfold Spec.assigned, Spec.setNamed. cbn [Spec.binding].
  destruct (String.eqb (Name f) n); cbn [Name setVal];
    destruct (Spec.binding (Name f) names vals); reflexivity.
Qed.

(** The copy loop, field by field. *)
Lemma copyValues_assigned (names : list string) :
  forall (vals : list value) (fs : list Field),
    NoDup (map Name fs) ->
    Pg.copyValues fs names vals = map (Spec.assigned names vals) fs.
Proof.
  induction names as [|n names IH]; intros vals fs Hnd.
  - cbn [Pg.copyValues]. unfold Spec.assigned. cbn [Spec.binding].
    now rewrite map_id.
  - destruct vals as [|v vals].
    + cbn [Pg.copyValues]. unfold Spec.assigned. cbn [Spec.binding].
      now rewrite map_id.
    + cbn [Pg.copyValues]. rewrite IH by (now rewrite setByName_names).
      rewrite setByName_map by assumption. rewrite map_map.
      apply map_ext. intros f. now rewrite assigned_cons.
Qed.

Lemma copyValues_names (names : list string) :
  forall (vals : list value) (fs : list Field),
    map Name (Pg.copyValues fs names vals) = map Name fs.
Proof.
  induction names as [|n names IH]; intros vals fs; [reflexivity|].
  destruct vals as [|v vals]; [reflexivity|].
  cbn [Pg.copyValues]. now rewrite IH, setByName_names.
Qed.

Lemma binding_domain (name : string) (names : list string) :
  forall vals vals' : list value,
    (List.length vals <= List.length vals')%nat ->
    Spec.binding name names vals' = None ->
    Spec.binding name names vals = None.
Proof.
  induction names as [|n names IH]; intros vals vals' Hlen H;
    [now destruct vals|].
  destruct vals as [|v vals]; [reflexivity|].
  destruct vals' as [|v' vals']; [simpl in Hlen; lia|].
  cbn [Spec.binding] in *.
  destruct (Spec.binding name names vals') eqn:E; [discriminate|].
  rewrite (IH vals vals') by (simpl in Hlen; lia || assumption).
  destruct (String.eqb name n); [discriminate | reflexivity].
Qed.

(** A second copy over the same identifiers erases the first. *)
Lemma assigned_twice (names : list string) (vals vals' : list value)
  (f : Field) :
  (List.length vals <= List.length vals')%nat ->
  Spec.assigned names vals' (Spec.assigned names vals f)
  = Spec.assigned names vals' f.
Proof.
  intros Hlen. unfold Spec.assigned.
  destruct (Spec.binding (Name f) names vals) as [v|] eqn:E.
  - cbn [Name setVal].
    destruct (Spec.binding (Name f) names vals') as [v'|] eqn:E'.
    + reflexivity.
    + rewrite (binding_domain _ _ vals vals') in E by assumption.
      discriminate.
  - reflexivity.
Qed.

Lemma assigned_names (names : list string) (vals : list value)
  (fs : list Field) :
  map Name (map (Spec.assigned names vals) fs) = map Name fs.
Proof.
  rewrite map_map. apply map_ext. intros f. unfold Spec.assigned.
  now destruct (Spec.binding (Name f) names vals).
Qed.

Lemma assigned_nothing (names : list string) (fs : list Field) :
  map (Spec.assigned names []) fs = fs.
Proof.
  rewrite <- (map_id fs) at 2. apply map_ext. intros f.
  unfold Spec.assigned. now destruct names.
Qed.

(** ** The map from columns to fields *)

Lemma buildFieldsMap_lastIndex (c : string) (fs : list Field) :
  forall (k : nat) (m : string -> option nat),
    Pg.buildFieldsMap fs k m c
    = match Spec.lastIndex c fs with
      | Some i => Some (k + i)%nat
      | None => m c
      end.
Proof.
  induction fs as [|f fs IH]; intros k m; [reflexivity|].
  cbn [Pg.buildFieldsMap Spec.lastIndex]. rewrite IH.
  destruct (Spec.lastIndex c fs) as [i|].
  - f_equal. lia.
  - unfold Pg.setKey, Pg.columnOf.
    destruct (String.eqb c _); [f_equal; lia | reflexivity].
Qed.

Lemma lastIndex_field (c : string) (fs : list Field) :
  forall i, Spec.lastIndex c fs = Some i ->
    exists f, nth_error fs i = Some f /\ Pg.columnOf f = c.
Proof.
  induction fs as [|f fs IH]; intros i H; [discriminate|].
  cbn [Spec.lastIndex] in H.
  destruct (Spec.lastIndex c fs) as [j|].
  - injection H as <-. exact (IH j eq_refl).
  - destruct (String.eqb_spec c (Pg.columnOf f)) as [E|E]; [|discriminate].
    injection H as <-. exists f. split; [reflexivity | now symmetry].
Qed.

Lemma lastIndex_none (c : string) (fs : list Field) :
  Spec.lastIndex c fs = None <-> ~ In c (map Pg.columnOf fs).
Proof.
  induction fs as [|f fs IH]; cbn [Spec.lastIndex map In].
  - tauto.
  - destruct (Spec.lastIndex c fs) as [j|].
    + split; [discriminate|]. intros H. exfalso. apply H. right.
      destruct (in_dec string_dec c (map Pg.columnOf fs)) as [Hin|Hout];
        [assumption|]. apply IH in Hout. discriminate.
    + destruct (String.eqb_spec c (Pg.columnOf f)) as [E|E].
      * split; [discriminate|]. intros H. exfalso. apply H. now left.
      * split; [|reflexivity]. intros _ [H|H]; [now apply E|].
        now apply (proj1 IH eq_refl).
Qed.

Lemma fieldFor_some (fs : list Field) (c : string) (f : Field) :
  Spec.fieldFor fs c = Some f -> In f fs /\ Pg.columnOf f = c.
Proof.
  unfold Spec.fieldFor. destruct (Spec.lastIndex c fs) as [i|] eqn:E;
    [|discriminate].
  destruct (lastIndex_field c fs i E) as (g & Hg & Hc). intros H.
  rewrite Hg in H. injection H as <-. split; [|assumption].
  now apply nth_error_In with i.
Qed.

Lemma fieldFor_none (fs : list Field) (c : string) :
  Spec.fieldFor fs c = None <-> ~ In c (map Pg.columnOf fs).
Proof.
  unfold Spec.fieldFor. destruct (Spec.lastIndex c fs) as [i|] eqn:E.
  - destruct (lastIndex_field c fs i E) as (g & Hg & Hc). rewrite Hg.
    split; [discriminate|]. intros H. exfalso.
    apply lastIndex_none in H. congruence.
  - rewrite <- lastIndex_none. tauto.
Qed.

(** The second loop of the marshaller selects, for each column, the last
    field of that column name. *)
Lemma bindColumns_picked (fs : list Field) (cols : list string) :
  forall (names : list string) (values : list value),
    Pg.bindColumns fs (Pg.buildFieldsMap fs 0 Pg.emptyMap) cols names values
    = ((names ++ map Name (Spec.picked fs cols))%list,
       (values ++ map val (Spec.picked fs cols))%list).
Proof.
  induction cols as [|c cols IH]; intros names values.
  - cbn. now rewrite !app_nil_r.
  - cbn [Pg.bindColumns]. rewrite buildFieldsMap_lastIndex.
    unfold Spec.picked. cbn [flat_map]. fold (Spec.picked fs cols).
    unfold Spec.fieldFor, Pg.emptyMap.
    destruct (Spec.lastIndex c fs) as [i|]; cbn [Nat.add].
    + destruct (nth_error fs i) as [f|].
      * rewrite IH. unfold append1. cbn [app map].
        now rewrite <- !app_assoc.
      * apply IH.
    + apply IH.
Qed.

Lemma bound_picked (dest : Struct) (cols : list string) :
  Spec.bound dest cols
  = (map Name (Spec.picked (Fields dest) cols),
     map val (Spec.picked (Fields dest) cols)).
Proof. unfold Spec.bound. now rewrite bindColumns_picked. Qed.

Lemma picked_length (fs : list Field) (cols : list string) :
  (List.length (Spec.picked fs cols) <= List.length cols)%nat.
Proof.
  induction cols as [|c cols IH]; [reflexivity|].
  unfold Spec.picked. cbn [flat_map]. fold (Spec.picked fs cols).
  rewrite length_app. destruct (Spec.fieldFor fs c); simpl; lia.
Qed.

(** A column that names no field leaves fewer receivers than columns. *)
Lemma picked_short (fs : list Field) (cols : list string) (c : string) :
  In c cols -> ~ In c (map Pg.columnOf fs) ->
  (List.length (Spec.picked fs cols) < List.length cols)%nat.
Proof.
  induction cols as [|c' cols IH]; intros Hin Hout; [contradiction|].
  unfold Spec.picked. cbn [flat_map]. fold (Spec.picked fs cols).
  rewrite length_app. destruct Hin as [->|Hin].
  - apply fieldFor_none in Hout. rewrite Hout.
    pose proof (picked_length fs cols). simpl. lia.
  - specialize (IH Hin Hout). destruct (Spec.fieldFor fs c'); simpl; lia.
Qed.

Lemma picked_in (fs : list Field) (cols : list string) (f : Field) :
  In f (Spec.picked fs cols) -> In f fs /\ In (Pg.columnOf f) cols.
Proof.
  induction cols as [|c cols IH]; [contradiction|].
  unfold Spec.picked. cbn [flat_map]. fold (Spec.picked fs cols).
  intros H. apply in_app_or in H. destruct H as [H|H].
  - destruct (Spec.fieldFor fs c) as [g|] eqn:E; [|contradiction].
    destruct H as [<-|[]]. apply fieldFor_some in E. destruct E as [? <-].
    split; [assumption | now left].
  - destruct (IH H). split; [assumption | now right].
Qed.

(** Distinct identifiers and distinct column names: two fields of the same
    struct with one identifier, or one column name, are the same field. *)
Lemma same_name (fs : list Field) (f g : Field) :
  NoDup (map Name fs) -> In f fs -> In g fs -> Name f = Name g -> f = g.
Proof.
  induction fs as [|h fs IH]; intros Hnd Hf Hg E; [contradiction|].
  cbn [map] in Hnd. inversion Hnd as [|? ? Hout Hnd']; subst.
  destruct Hf as [->|Hf], Hg as [->|Hg].
  - reflexivity.
  - exfalso. apply Hout. rewrite E. now apply in_map.
  - exfalso. apply Hout. rewrite <- E. now apply in_map.
  - now apply IH.
Qed.

Lemma same_column (fs : list Field) (f g : Field) :
  NoDup (map Pg.columnOf fs) -> In f fs -> In g fs ->
  Pg.columnOf f = Pg.columnOf g -> f = g.
Proof.
  induction fs as [|h fs IH]; intros Hnd Hf Hg E; [contradiction|].
  cbn [map] in Hnd. inversion Hnd as [|? ? Hout Hnd']; subst.
  destruct Hf as [->|Hf], Hg as [->|Hg].
  - reflexivity.
  - exfalso. apply Hout. rewrite E. now apply in_map.
  - exfalso. apply Hout. rewrite <- E. now apply in_map.
  - now apply IH.
Qed.

Lemma position_none (c : string) (cols : list string) :
  ~ In c cols -> Spec.position c cols = None.
Proof.
  induction cols as [|c' cols IH]; intros H; [reflexivity|].
  cbn [Spec.position]. destruct (String.eqb_spec c' c) as [E|E].
  - exfalso. apply H. now left.
  - rewrite IH; [reflexivity|]. intros Hin. apply H. now right.
Qed.

(** The value the copy loop leaves in a field is the one scanned from the
    column of its name. *)
Lemma binding_position (fs : list Field) (f : Field) :
  NoDup (map Name fs) -> NoDup (map Pg.columnOf fs) -> In f fs ->
  forall (cols : list string) (vals : list value),
    NoDup cols ->
    Forall (fun c => In c (map Pg.columnOf fs)) cols ->
    Spec.binding (Name f) (map Name (Spec.picked fs cols)) vals
    = match Spec.position (Pg.columnOf f) cols with
      | Some j => nth_error vals j
      | None => None
      end.
Proof.
  intros Hnames Hcolumns Hf.
  induction cols as [|c cols IH]; intros vals Hnd Hall; [reflexivity|].
  inversion Hnd as [|? ? Hout Hnd']; subst.
  inversion Hall as [|? ? Hc Hall']; subst.
  unfold Spec.picked. cbn [flat_map]. fold (Spec.picked fs cols).
  destruct (Spec.fieldFor fs c) as [g|] eqn:Eg.
  2: { apply fieldFor_none in Eg. contradiction. }
  apply fieldFor_some in Eg. destruct Eg as [Hg Hgc].
  cbn [app map Spec.position].
  destruct vals as [|v vals].
  - cbn [Spec.binding].
    destruct (String.eqb c (Pg.columnOf f)); [reflexivity|].
    destruct (Spec.position (Pg.columnOf f) cols); reflexivity.
  - cbn [Spec.binding]. rewrite IH by assumption.
    destruct (String.eqb_spec c (Pg.columnOf f)) as [E|E].
    + rewrite position_none by (rewrite <- E; assumption).
      assert (g = f) as -> by
        (apply (same_column fs); [assumption .. | congruence]).
      now rewrite String.eqb_refl.
    + assert (String.eqb (Name f) (Name g) = false) as ->.
      { apply String.eqb_neq. intros En. apply E. rewrite <- Hgc. f_equal.
        symmetry. now apply (same_name fs). }
      destruct (Spec.position (Pg.columnOf f) cols) as [j|]; cbn [option_map].
      * cbn [nth_error]. now destruct (nth_error vals j).
      * reflexivity.
Qed.

(** The fields as the copy loop leaves them. *)
Lemma filled_assigned (dest : Struct) (cols : list string)
  (vals : list value) :
  NoDup (map Name (Fields dest)) ->
  Spec.filled dest cols vals
  = withFields dest
      (map (Spec.assigned (map Name (Spec.picked (Fields dest) cols)) vals)
         (Fields dest)).
Proof.
  intros Hnd. unfold Spec.filled. rewrite bound_picked. cbn [fst].
  now rewrite copyValues_assigned.
Qed.

Lemma assignAll_length (convertAssign : value -> Sql.cell -> Sql.error + value) :
  forall (types : list value) (row : list Sql.cell) (vals : list value),
    List.length types = List.length row ->
    Sql.assignAll convertAssign types row = inr vals ->
    List.length vals = List.length types.
Proof.
  induction types as [|t types IH]; intros row vals Hlen H.
  - cbn [Sql.assignAll] in H. injection H as <-. reflexivity.
  - destruct row as [|c row]; [discriminate Hlen|]. cbn [Sql.assignAll] in H.
    destruct (convertAssign t c); [discriminate|].
    destruct (Sql.assignAll convertAssign types row) eqn:E; [discriminate|].
    injection H as <-. simpl. f_equal.
    apply (IH row _ ltac:(simpl in Hlen; lia) E).
Qed.

Lemma scanRow_length (convertAssign : value -> Sql.cell -> Sql.error + value)
  (types : list value) (row : list Sql.cell) (vals : list value) :
  Sql.scanRow convertAssign types row = inr vals ->
  List.length vals = List.length types.
Proof.
  unfold Sql.scanRow.
  destruct (Nat.eqb_spec (List.length types) (List.length row)) as [E|E];
    [|discriminate].
  now apply assignAll_length.
Qed.

(** Another number of receivers than columns: the scan of a row is
    refused, with the two numbers. *)
Lemma scanRow_arity (convertAssign : value -> Sql.cell -> Sql.error + value)
  (types : list value) (row : list Sql.cell) :
  List.length types <> List.length row ->
  Sql.scanRow convertAssign types row
  = inl (Sql.errScanArity (List.length row) (List.length types)).
Proof.
  intros H. unfold Sql.scanRow.
  destruct (Nat.eqb_spec (List.length types) (List.length row));
    [contradiction | reflexivity].
Qed.

End Columns.

(** X7: which field a column fills.  In a struct whose fields have distinct
    column names, read from a result set whose columns are distinct and all
    name a field, each field receives the value scanned from the column of
    its name (its [json] tag, or its snake-cased identifier) and every
    other field keeps its value, whatever the order of the columns: this
    is what the loops of the marshaller compute, and what [unmarshalStruct]
    returns, in both variants, for a result set of one row that scans. *)
Theorem marshaller_fills_each_field_from_the_column_of_its_name :
  forall (dest : Go.Struct) (cols : list string),
    NoDup (map Go.Name (Go.Fields dest)) ->
    NoDup (map Pg.columnOf (Go.Fields dest)) ->
    NoDup cols ->
    Spec.allNamed dest cols ->
    (forall vals,
        Spec.filled dest cols vals
        = Go.withFields dest (map (Spec.receives cols vals) (Go.Fields dest)))
    /\ (forall convertAssign row vals,
          Sql.scanRow convertAssign (snd (Spec.bound dest cols)) row = inr vals ->
          Pg.unmarshalStruct convertAssign (Sql.openRows cols [row]) dest
          = (None,
             Go.withFields dest
               (map (Spec.receives cols vals) (Go.Fields dest)))
          /\ My.unmarshalStruct convertAssign (Sql.openRows cols [row]) dest
             = (None,
                Go.withFields dest
                  (map (Spec.receives cols vals) (Go.Fields dest)))).
Proof.
  intros dest cols Hnames Hcolumns Hcols Hall.
  assert (Hfilled : forall vals,
    Spec.filled dest cols vals
    = Go.withFields dest (map (Spec.receives cols vals) (Go.Fields dest))).
  { intros vals. rewrite filled_assigned by assumption. f_equal.
    apply map_ext_in. intros f Hf. unfold Spec.assigned, Spec.receives.
    rewrite (binding_position (Go.Fields dest)) by assumption.
    destruct (Spec.position (Pg.columnOf f) cols); reflexivity. }
  split; [exact Hfilled|].
  intros convertAssign row vals Hrow. rewrite <- Hfilled.
  unfold Spec.filled, Spec.bound in *.
  unfold Pg.unmarshalStruct, My.unmarshalStruct.
  cbn [Sql.Columns Sql.openRows Sql.closed Sql.columns Sql.pending].
  destruct (Pg.bindColumns _ _ cols [] []) as [names types].
  cbn [fst snd] in *. cbn [Pg.scanEvery List.length].
  unfold Sql.Next, Sql.Scan. cbn. rewrite Hrow. cbn. split; reflexivity.
Qed.

(** X7, witness: the columns [name] and [i_d] of a user, in that order. *)
Lemma marshaller_fills_each_field_from_the_column_of_its_name_witness :
  Pg.unmarshalStruct Sql.convertSameKind
    (Sql.openRows ["name"; "i_d"]
       [[Sql.CValue (Go.VString "ann"); Sql.CValue (Go.VInt64 7)]])
    (Ex.user 0 "" "")
  = (None, Ex.user 7 "ann" "").
Proof.
  destruct (marshaller_fills_each_field_from_the_column_of_its_name
              (Ex.user 0 "" "") ["name"; "i_d"]) as (_ & H).
  - repeat constructor; simpl; intuition discriminate.
  - repeat constructor; simpl; intuition discriminate.
  - repeat constructor; simpl; intuition discriminate.
  - repeat constructor; simpl; tauto.
  - destruct (H Sql.convertSameKind
                [Sql.CValue (Go.VString "ann"); Sql.CValue (Go.VInt64 7)]
                [Go.VString "ann"; Go.VInt64 7] eq_refl) as (HPg & _).
    exact HPg.
Defined.

(* ================================================================== *)
(** * Row marshaller: a slice destination, element by element          *)
(* ================================================================== *)

Section SliceDestination.
Import Go.
Variable convertAssign : value -> Sql.cell -> Sql.error + value.
Variable cols : list string.
Variable types : list value.
Variable names : list string.
Variable meta : Struct.
Hypothesis distinct : NoDup (map Name (Fields meta)).
Hypothesis paired : List.length types = List.length names.

(** The one element value of [unmarshalSlice] after a row is copied in. *)
Let element (vals : list value) : Struct :=
  withFields meta (map (Spec.assigned names vals) (Fields meta)).

(** The rows that scan, up to the first that does not or to the end: the
    loop appends the element of each, and goes on from there. *)
Lemma appendEvery_prefix :
  forall rest valss,
    Forall2 (fun row vals => Sql.scanRow convertAssign types row = inr vals)
      rest valss ->
    forall tail fuel cur prev out,
      (List.length prev <= List.length names)%nat ->
      exists cur' prev',
        (List.length prev' <= List.length names)%nat
        /\ Pg.appendEvery convertAssign (List.length rest + fuel)
             (Spec.midRows cols (rest ++ tail)%list cur) types names
             (element prev) out
           = Pg.appendEvery convertAssign fuel (Spec.midRows cols tail cur')
               types names (element prev') (out ++ map element valss)%list.
Proof.
  induction 1 as [|row vals rest valss Hrow Hrest IH];
    intros tail fuel cur prev out Hprev.
  - exists cur, prev. cbn [List.length Nat.add app map].
    now rewrite app_nil_r.
  - cbn [List.length Nat.add app Pg.appendEvery].
    unfold Sql.Next, Spec.midRows at 1. cbn.
    fold (Spec.midRows cols (rest ++ tail)%list (Some row)).
    unfold Sql.Scan. cbn [Sql.closed Sql.lastcols Spec.midRows]. rewrite Hrow.
    assert (Hlen : List.length vals = List.length names)
      by (rewrite <- paired; now apply scanRow_length with convertAssign row).
    assert (Hnew :
      withFields (element prev)
        (Pg.copyValues (Fields (element prev)) names vals) = element vals).
    { unfold element, withFields. cbn [Fields TypeName TableName]. f_equal.
      rewrite copyValues_assigned by (now rewrite assigned_names).
      rewrite map_map. apply map_ext. intros f.
      apply assigned_twice. lia. }
    change (Fields (element prev))
      with (map (Spec.assigned names prev) (Fields meta)) in Hnew.
    rewrite Hnew.
    destruct (IH tail fuel (Some row) vals (append1 out (element vals)))
      as (cur' & prev' & Hprev' & E); [lia|].
    exists cur', prev'. split; [assumption|]. rewrite E.
    unfold append1. cbn [map]. now rewrite <- app_assoc.
Qed.

End SliceDestination.

(** X8: a query into a slice of structs, element by element.  When every
    row scans, the marshaller appends to the destination, for each row in
    order, the element struct filled from that row alone: nothing of an
    earlier row stays in a later element.  A row that does not scan ends
    the call with its error, and the elements of the rows before it stay
    in the destination. *)
Theorem unmarshalSlice_fills_one_element_per_row :
  forall convertAssign cols meta dest,
    NoDup (map Go.Name (Go.Fields meta)) ->
    (forall rows valss,
        Spec.scanned convertAssign meta cols rows valss ->
        Pg.unmarshalSlice convertAssign (Sql.openRows cols rows) meta dest
        = (None, (dest ++ map (Spec.filled meta cols) valss)%list))
    /\ (forall pre valss bad post err,
        Spec.scanned convertAssign meta cols pre valss ->
        Sql.scanRow convertAssign (snd (Spec.bound meta cols)) bad = inl err ->
        Pg.unmarshalSlice convertAssign
          (Sql.openRows cols (pre ++ bad :: post)%list) meta dest
        = (Some err, (dest ++ map (Spec.filled meta cols) valss)%list)).
Proof.
  intros convertAssign cols meta dest Hnd.
  assert (Hfilled : forall valss,
    map (Spec.filled meta cols) valss
    = map (fun vals =>
             Go.withFields meta
               (map (Spec.assigned
                       (map Go.Name (Spec.picked (Go.Fields meta) cols)) vals)
                  (Go.Fields meta))) valss).
  { intros valss. apply map_ext. intros vals. now apply filled_assigned. }
  assert (Hmeta :
    meta = Go.withFields meta
             (map (Spec.assigned
                     (map Go.Name (Spec.picked (Go.Fields meta) cols)) [])
                (Go.Fields meta))).
  { rewrite assigned_nothing. symmetry. apply withFields_same. }
  unfold Spec.scanned, Pg.unmarshalSlice.
  cbn [Sql.Columns Sql.openRows Sql.closed Sql.columns Sql.pending].
  fold (Spec.bound meta cols). rewrite bound_picked. cbv beta iota.
  cbn [snd]. split.
  - intros rows valss Hrows. rewrite Hfilled.
    destruct (appendEvery_prefix convertAssign cols
                (map Go.val (Spec.picked (Go.Fields meta) cols))
                (map Go.Name (Spec.picked (Go.Fields meta) cols)) meta Hnd
                ltac:(now rewrite !length_map)
                rows valss Hrows [] 1%nat None [] dest ltac:(simpl; lia))
      as (cur' & prev' & _ & E).
    rewrite app_nil_r in E. rewrite <- Hmeta in E.
    replace (S (List.length rows)) with (List.length rows + 1)%nat by lia.
    unfold Spec.midRows in E. unfold Sql.openRows. rewrite E. reflexivity.
  - intros pre valss bad post err Hpre Hbad. rewrite Hfilled.
    destruct (appendEvery_prefix convertAssign cols
                (map Go.val (Spec.picked (Go.Fields meta) cols))
                (map Go.Name (Spec.picked (Go.Fields meta) cols)) meta Hnd
                ltac:(now rewrite !length_map)
                pre valss Hpre (bad :: post) (S (S (List.length post))) None
                [] dest ltac:(simpl; lia))
      as (cur' & prev' & _ & E).
    rewrite <- Hmeta in E.
    replace (S (List.length (pre ++ bad :: post)%list))
      with (List.length pre + S (S (List.length post)))%nat
      by (rewrite length_app; simpl; lia).
    unfold Spec.midRows in E. unfold Sql.openRows. rewrite E.
    cbn [Pg.appendEvery]. unfold Sql.Next. cbn.
    unfold Sql.Scan. cbn. now rewrite Hbad.
Qed.

(** X8, witness: the two rows of the examples, and a third that does not
    scan (its identifier is a text). *)
Lemma unmarshalSlice_fills_one_element_per_row_witness :
  Pg.unmarshalSlice Sql.convertSameKind Ex.twoUsers (Ex.user 0 "" "") []
  = (None, [Ex.user 1 "first" ""; Ex.user 2 "last" ""])
  /\ Pg.unmarshalSlice Sql.convertSameKind
       (Sql.openRows ["i_d"; "name"]
          [[Sql.CValue (Go.VInt64 1); Sql.CValue (Go.VString "first")];
           [Sql.CValue (Go.VString "x"); Sql.CValue (Go.VString "last")]])
       (Ex.user 0 "" "") []
     = (Some (Sql.SqlError "sql: Scan error: unsupported conversion"),
        [Ex.user 1 "first" ""]).
Proof.
  destruct (unmarshalSlice_fills_one_element_per_row Sql.convertSameKind
              ["i_d"; "name"] (Ex.user 0 "" "") [])
    as (Hall & Hbad).
  - repeat constructor; simpl; intuition discriminate.
  - split.
    + apply (Hall [[Sql.CValue (Go.VInt64 1); Sql.CValue (Go.VString "first")];
                   [Sql.CValue (Go.VInt64 2); Sql.CValue (Go.VString "last")]]
                  [[Go.VInt64 1; Go.VString "first"];
                   [Go.VInt64 2; Go.VString "last"]]).
      repeat constructor.
    + apply (Hbad [[Sql.CValue (Go.VInt64 1); Sql.CValue (Go.VString "first")]]
                  [[Go.VInt64 1; Go.VString "first"]]
                  [Sql.CValue (Go.VString "x"); Sql.CValue (Go.VString "last")]
                  []).
      * repeat constructor.
      * reflexivity.
Defined.

(* ================================================================== *)
(** * Row marshaller: columns without a field, result sets without rows *)
(* ================================================================== *)

(** X9: a column that names no field is not skipped when a row is read.
    When the result set has a column that is the column name of no field
    of the struct, the marshaller binds fewer receivers than there are
    columns, and the scan of the first row is refused with the error of
    [database/sql] that names the two numbers ([sql: expected C
    destination arguments in Scan, not R], for [C] columns and [R]
    receivers): both variants, a struct or a slice of structs as
    destination, which is left as it was. *)
Theorem column_without_a_field_fails_the_first_scan :
  forall convertAssign cols dest row rest c,
    In c cols ->
    ~ In c (map Pg.columnOf (Go.Fields dest)) ->
    List.length row = List.length cols ->
    let receivers := List.length (snd (Spec.bound dest cols)) in
    let err := Sql.errScanArity (List.length cols) receivers in
    (receivers < List.length cols)%nat
    /\ Pg.unmarshalStruct convertAssign (Sql.openRows cols (row :: rest)) dest
       = (Some err, dest)
    /\ My.unmarshalStruct convertAssign (Sql.openRows cols (row :: rest)) dest
       = (Some err, dest)
    /\ forall items,
         Pg.unmarshalSlice convertAssign (Sql.openRows cols (row :: rest))
           dest items
         = (Some err, items).
Proof.
  intros convertAssign cols dest row rest c Hin Hout Hrow.
  pose proof (picked_short (Go.Fields dest) cols c Hin Hout) as Hshort.
  assert (Hscan :
    Sql.scanRow convertAssign
      (map Go.val (Spec.picked (Go.Fields dest) cols)) row
    = inl (Sql.errScanArity (List.length cols)
             (List.length (map Go.val (Spec.picked (Go.Fields dest) cols))))).
  { rewrite <- Hrow. apply scanRow_arity. rewrite length_map. lia. }
  cbv zeta. rewrite bound_picked. cbn [snd].
  split; [rewrite length_map; exact Hshort|].
  unfold Pg.unmarshalStruct, My.unmarshalStruct, Pg.unmarshalSlice.
  cbn [Sql.Columns Sql.openRows Sql.closed Sql.columns Sql.pending].
  fold (Spec.bound dest cols). rewrite bound_picked. cbv beta iota.
  cbn [Pg.scanEvery Pg.appendEvery List.length]. unfold Sql.Next. cbn.
  unfold Sql.Scan. cbn. rewrite Hscan. repeat split.
Qed.

(** X9, witness: a user read from a result set with a column [age]. *)
Lemma column_without_a_field_fails_the_first_scan_witness :
  Pg.unmarshalStruct Sql.convertSameKind
    (Sql.openRows ["name"; "age"]
       [[Sql.CValue (Go.VString "ann"); Sql.CValue (Go.VInt64 30)]])
    (Ex.user 0 "" "")
  = (Some (Sql.SqlError
             "sql: expected 2 destination arguments in Scan, not 1"),
     Ex.user 0 "" "").
Proof.
  apply (column_without_a_field_fails_the_first_scan Sql.convertSameKind
           ["name"; "age"] (Ex.user 0 "" "")
           [Sql.CValue (Go.VString "ann"); Sql.CValue (Go.VInt64 30)] [] "age").
  - simpl. tauto.
  - simpl. intuition discriminate.
  - reflexivity.
Defined.

Section NoRows.
Import Go.

(** The receivers hold what the fields hold: copying them back changes
    nothing. *)
Lemma copy_back (dest : Struct) (cols : list string) :
  NoDup (map Name (Fields dest)) ->
  Spec.filled dest cols (snd (Spec.bound dest cols)) = dest.
Proof.
  intros Hnd. rewrite filled_assigned by assumption.
  rewrite bound_picked. cbn [snd].
  transitivity (withFields dest (Fields dest)); [|apply withFields_same].
  f_equal.
  transitivity (map (fun f => f) (Fields dest)); [|apply map_id].
  apply map_ext_in. intros f Hf. unfold Spec.assigned.
  assert (H : forall picked,
    (forall g, In g picked -> In g (Fields dest)) ->
    match Spec.binding (Name f) (map Name picked) (map val picked) with
    | Some v => v = val f
    | None => True
    end).
  { induction picked as [|g picked IH]; intros Hsub; [exact I|].
    cbn [map Spec.binding].
    specialize (IH (fun h Hh => Hsub h (or_intror Hh))).
    destruct (Spec.binding (Name f) (map Name picked) (map val picked));
      [assumption|].
    destruct (String.eqb_spec (Name f) (Name g)) as [E|E]; [|exact I].
    f_equal. symmetry. apply (same_name (Fields dest)); auto.
    apply Hsub. now left. }
  specialize (H (Spec.picked (Fields dest) cols)
                (fun g Hg => proj1 (picked_in _ _ _ Hg))).
  destruct (Spec.binding _ _ _) as [v|]; [|reflexivity].
  subst v. apply setVal_val.
Qed.

End NoRows.

(** X10: a query for one struct that finds no row.  In the numbered
    variant the call returns no error and the destination as [new(T)] made
    it: the caller cannot tell an empty result from a row of zero values.
    In the positional variant the same call returns the error of a scan on
    a closed cursor. *)
Theorem Query_struct_without_rows :
  forall convertAssign db t cols sqlStr args sqlStr' args',
    NoDup (map Go.Name (Go.Fields t)) ->
    Sql.PrepareContext db sqlStr' = None ->
    Sql.QueryContext db sqlStr' args' = inr (Sql.openRows cols []) ->
    (Pg.parseSqlIn sqlStr args = Some (sqlStr', args') ->
     Pg.Query convertAssign db (Pg.DStruct t) sqlStr args
     = Some {| Pg.q_t := Some (Pg.DStruct t); Pg.q_err := None;
               Pg.q_log := [Sql.EvPrepare sqlStr';
                            Sql.EvQuery sqlStr' args'] |})
    /\ (My.parseSqlIn sqlStr args = Some (sqlStr', args') ->
        My.Query convertAssign db (Pg.DStruct t) sqlStr args
        = Some {| Pg.q_t := Some (Pg.DStruct t);
                  Pg.q_err := Some Sql.errRowsClosed;
                  Pg.q_log := [Sql.EvPrepare sqlStr';
                               Sql.EvQuery sqlStr' args'] |}).
Proof.
  intros convertAssign db t cols sqlStr args sqlStr' args' Hnd Hprep Hrun.
  split; intros Hparse.
  - unfold Pg.Query. rewrite Hparse, Hprep, Hrun.
    cbn [Pg.destKind existsb Pg.allows negb orb reflect.Kind_eqb].
    replace (reflect.Kind_eqb reflect.Struct reflect.Struct) with true
      by reflexivity.
    cbn [orb negb].
    unfold Pg.unmarshalStruct.
    cbn [Sql.Columns Sql.openRows Sql.closed Sql.columns Sql.pending].
    fold (Spec.bound t cols).
    pose proof (copy_back t cols Hnd) as Hback. unfold Spec.filled in Hback.
    destruct (Spec.bound t cols) as [names values]. cbn [fst snd] in Hback.
    cbn. now rewrite Hback.
  - unfold My.Query. rewrite Hparse, Hprep, Hrun.
    replace (negb (existsb (reflect.Kind_eqb (Pg.destKind (Pg.DStruct t)))
                     Pg.allows)) with false by reflexivity.
    unfold My.unmarshalStruct.
    cbn [Sql.Columns Sql.openRows Sql.closed Sql.columns Sql.pending].
    destruct (Pg.bindColumns _ _ cols [] []) as [names values].
    reflexivity.
Qed.

(** X10, witness: a user looked up by a key that no row has. *)
Lemma Query_struct_without_rows_witness :
  exists log,
    Pg.Query Sql.convertSameKind
      (Ex.dbWith (Sql.openRows ["i_d"; "name"] []))
      (Pg.DStruct (Ex.user 0 "" "")) "SELECT * FROM user WHERE i_d = $1"
      [Go.AScalar (Go.VInt64 9)]
    = Some {| Pg.q_t := Some (Pg.DStruct (Ex.user 0 "" ""));
              Pg.q_err := None; Pg.q_log := log |}.
Proof.
  eexists.
  apply (proj1 (Query_struct_without_rows Sql.convertSameKind
                  (Ex.dbWith (Sql.openRows ["i_d"; "name"] []))
                  (Ex.user 0 "" "") ["i_d"; "name"]
                  "SELECT * FROM user WHERE i_d = $1"
                  [Go.AScalar (Go.VInt64 9)]
                  "SELECT * FROM user WHERE i_d = $1"
                  [Go.AScalar (Go.VInt64 9)]
                  ltac:(repeat constructor; simpl; intuition discriminate)
                  eq_refl eq_refl)).
  reflexivity.
Defined.

(* ================================================================== *)
(** * Batch coordinator: what an insert returns                        *)
(* ================================================================== *)

Section InsertOutcome.
Import Go.

Lemma keyed_cons (row : Struct) (dest : list Struct) (id : Z) (ids : list Z) :
  Spec.keyed (row :: dest) (id :: ids)
  = Pg.savePrimaryKey row id :: Spec.keyed dest ids.
Proof. reflexivity. Qed.

Lemma Insert_rows_outcome (db : Sql.TxDB) (tableName : string) :
  forall dest applied newDest,
    let r := Pg.Insert_rows db tableName applied newDest dest in
    match Pg.b_err r with
    | None =>
        exists ids,
          Spec.answered db (Spec.returned db)
            (Spec.insertStatement tableName) applied dest ids
          /\ Pg.b_newDest r = (newDest ++ Spec.keyed dest ids)%list
          /\ Pg.b_tx r
             = Sql.Committed
                 (applied ++ map (Spec.insertStatement tableName) dest)%list
          /\ Sql.Commit db
               (applied ++ map (Spec.insertStatement tableName) dest)%list
             = None
    | Some _ => Pg.b_newDest r = [] /\ Sql.durable (Pg.b_tx r) = []
    end.
Proof.
  induction dest as [|row dest IH]; intros applied newDest; cbn zeta.
  - cbn [Pg.Insert_rows]. destruct (Sql.Commit db applied) eqn:Hc; cbn.
    + split; reflexivity.
    + exists []. rewrite !app_nil_r. now repeat split.
  - cbn [Pg.Insert_rows]. fold (Spec.insertStatement tableName row).
    destruct (Sql.Prepare db applied _) eqn:Hp; [cbn; split; reflexivity|].
    destruct (Sql.QueryRowScan db applied _) as [err|lastId] eqn:Hq;
      [cbn; split; reflexivity|].
    specialize (IH (append1 applied (Spec.insertStatement tableName row))
                   (append1 newDest (Pg.savePrimaryKey row lastId))).
    cbn zeta in IH.
    destruct (Pg.b_err (Pg.Insert_rows _ _ _ _ dest)); [exact IH|].
    destruct IH as (ids & Hids & Hrows & Htx & Hcommit).
    exists (lastId :: ids). rewrite keyed_cons. cbn [Spec.answered map].
    unfold Spec.returned at 1. rewrite Hq.
    unfold append1 in Hrows, Htx, Hcommit.
    rewrite <- !app_assoc in Hrows, Htx, Hcommit.
    repeat split; assumption.
Qed.

Lemma My_Insert_rows_outcome (db : Sql.TxDB) (tableName : string) :
  forall dest applied newDest,
    let r := My.Insert_rows db tableName applied newDest dest in
    match Pg.b_err r with
    | None =>
        exists ids,
          Spec.answered db (Spec.lastInserted db)
            (Spec.insertStatementMy tableName) applied dest ids
          /\ Pg.b_newDest r = (newDest ++ Spec.keyed dest ids)%list
          /\ Pg.b_tx r
             = Sql.Committed
                 (applied ++ map (Spec.insertStatementMy tableName) dest)%list
          /\ Sql.Commit db
               (applied ++ map (Spec.insertStatementMy tableName) dest)%list
             = None
    | Some _ => Pg.b_newDest r = [] /\ Sql.durable (Pg.b_tx r) = []
    end.
Proof.
  induction dest as [|row dest IH]; intros applied newDest; cbn zeta.
  - cbn [My.Insert_rows]. destruct (Sql.Commit db applied) eqn:Hc; cbn.
    + split; reflexivity.
    + exists []. rewrite !app_nil_r. now repeat split.
  - cbn [My.Insert_rows]. fold (Spec.insertStatementMy tableName row).
    destruct (Sql.Prepare db applied _) eqn:Hp; [cbn; split; reflexivity|].
    destruct (Sql.ExecLastInsertId db applied _) as [err|[err|lastId]] eqn:Hq;
      [cbn; split; reflexivity | cbn; split; reflexivity |].
    specialize (IH (append1 applied (Spec.insertStatementMy tableName row))
                   (append1 newDest (Pg.savePrimaryKey row lastId))).
    cbn zeta in IH. unfold My.savePrimaryKey.
    destruct (Pg.b_err (My.Insert_rows _ _ _ _ dest)); [exact IH|].
    destruct IH as (ids & Hids & Hrows & Htx & Hcommit).
    exists (lastId :: ids). rewrite keyed_cons. cbn [Spec.answered map].
    unfold Spec.lastInserted at 1. rewrite Hq.
    unfold append1 in Hrows, Htx, Hcommit.
    rewrite <- !app_assoc in Hrows, Htx, Hcommit.
    repeat split; assumption.
Qed.

End InsertOutcome.

(** X11: what a batch insert returns.  In both variants, for every handle
    and every batch: when [Insert] returns no error, the statement of
    every row was prepared and answered by the database with an
    identifier, in order, each after the statements of the rows before
    it; [Insert] returns one row per row of the batch, in order, each
    being the input row after the write-back of the identifier the
    database gave for its statement; and the transaction is committed
    with exactly these statements, one [INSERT] per row, into the table
    of the entity type.  When it returns an error, it returns no row and
    nothing is durable. *)
Theorem Insert_returns_the_rows_with_their_keys :
  forall db t dest,
    Spec.insertOutcome db (Spec.returned db)
      (Spec.insertStatement (Pg.getTableName t)) dest
      (Pg.Insert db false t dest)
    /\ Spec.insertOutcome db (Spec.lastInserted db)
         (Spec.insertStatementMy (My.getTableName t)) dest
         (My.Insert db false t dest).
Proof.
  intros db t dest. unfold Spec.insertOutcome, Pg.Insert, My.Insert. split.
  - destruct (Sql.Begin db) eqn:Hb; [cbn; split; reflexivity|].
    pose proof (Insert_rows_outcome db (Pg.getTableName t) dest [] []) as H.
    cbn zeta in H. destruct (Pg.b_err _); [exact H|].
    destruct H as (ids & H). exists ids. split; [reflexivity | exact H].
  - destruct (Sql.Begin db) eqn:Hb; [cbn; split; reflexivity|].
    pose proof (My_Insert_rows_outcome db (My.getTableName t) dest [] []) as H.
    cbn zeta in H. destruct (Pg.b_err _); [exact H|].
    destruct H as (ids & H). exists ids. split; [reflexivity | exact H].
Qed.

(** X11, witness: two users on a handle that numbers the rows as they
    come: the theorem leaves one possible result, the rows with the
    identifiers 1 and 2. *)
Lemma Insert_returns_the_rows_with_their_keys_witness :
  Pg.b_newDest
    (Pg.Insert Ex.txOk false (Ex.user 0 "" "")
       [Ex.user 0 "a" "a@x.com"; Ex.user 0 "b" "b@x.com"])
  = [Ex.user 1 "a" "a@x.com"; Ex.user 2 "b" "b@x.com"].
Proof.
  destruct (Insert_returns_the_rows_with_their_keys Ex.txOk (Ex.user 0 "" "")
              [Ex.user 0 "a" "a@x.com"; Ex.user 0 "b" "b@x.com"]) as [H _].
  unfold Spec.insertOutcome in H.
  assert (E : Pg.b_err
                (Pg.Insert Ex.txOk false (Ex.user 0 "" "")
                   [Ex.user 0 "a" "a@x.com"; Ex.user 0 "b" "b@x.com"])
              = None) by reflexivity.
  rewrite E in H. destruct H as (ids & _ & Hids & Hrows & _).
  rewrite Hrows.
  destruct ids as [|i1 [|i2 [|i3 ids]]]; cbn [Spec.answered] in Hids.
  - contradiction.
  - destruct Hids as (_ & _ & []).
  - destruct Hids as (_ & H1 & _ & H2 & _).
    injection H1 as <-. injection H2 as <-. reflexivity.
  - destruct Hids as (_ & _ & _ & _ & []).
Defined.

(* ================================================================== *)
(** * Name resolver: column names of column names                      *)
(* ================================================================== *)

Section SnakeTwice.
Import Go.

Lemma byte_of_uint8 (x : Z) : 0 <= x < 256 -> byte_of (uint8 x) = x.
Proof.
  intros H. unfold byte_of, uint8. rewrite Z.mod_small by assumption.
  rewrite N_ascii_embedding by lia. lia.
Qed.

Lemma byte_of_bounded (c : ascii) : 0 <= byte_of c < 256.
Proof. unfold byte_of. pose proof (N_ascii_bounded c). lia. Qed.

Lemma lowerByte_lower (c : ascii) :
  (byte_of c <? 128) = true ->
  (byte_of (lowerByte c) <? 128) = true
  /\ Spec.isUpperByte (lowerByte c) = false.
Proof.
  intros H. unfold lowerByte, Spec.isUpperByte.
  destruct (between 65 90 (byte_of c)) eqn:E.
  - unfold between in E. rewrite byte_of_uint8 by lia.
    unfold between. split; lia.
  - now split.
Qed.

Lemma snakeInterior_is_lower (s : string) :
  Spec.isASCII s = true ->
  Spec.isASCII (Spec.snakeInterior s) = true
  /\ Spec.noUpper (Spec.snakeInterior s) = true.
Proof.
  induction s as [|c s IH]; intros H; [now split|].
  cbn [Spec.isASCII] in H. apply andb_prop in H as [Hc Hs].
  destruct (IH Hs) as [Ha Hl]. destruct (lowerByte_lower c Hc) as [Hlc Hlu].
  cbn [Spec.snakeInterior]. destruct (Spec.isUpperByte c) eqn:E;
    cbn [Spec.isASCII Spec.noUpper].
  - rewrite Ha, Hl, Hlc, Hlu. now split.
  - rewrite Ha, Hl, Hc, E. now split.
Qed.

Lemma snakeCase_is_lower (s : string) :
  Spec.isASCII s = true ->
  Spec.isASCII (Spec.snakeCase s) = true
  /\ Spec.noUpper (Spec.snakeCase s) = true.
Proof.
  destruct s as [|c s]; intros H; [now split|].
  cbn [Spec.isASCII] in H. apply andb_prop in H as [Hc Hs].
  destruct (snakeInterior_is_lower s Hs) as [Ha Hl].
  destruct (lowerByte_lower c Hc) as [Hlc Hlu].
  cbn [Spec.snakeCase Spec.isASCII Spec.noUpper].
  rewrite Ha, Hl, Hlc, Hlu. now split.
Qed.

Lemma snakeCase_lower (s : string) :
  Spec.noUpper s = true -> Spec.snakeCase s = s.
Proof.
  destruct s as [|c s]; [reflexivity|]. cbn [Spec.noUpper Spec.snakeCase].
  intros H. apply andb_prop in H as [Hc Hs].
  rewrite snakeInterior_lower by assumption.
  unfold lowerByte. unfold Spec.isUpperByte in Hc.
  apply negb_true_iff in Hc. now rewrite Hc.
Qed.

End SnakeTwice.

(** X12: the column name of an ASCII identifier is an ASCII string without
    upper-case letters, and the derivation gives it back: deriving the
    column name of a column name changes nothing. *)
Theorem toSnake_is_idempotent_on_ASCII_names :
  forall name,
    Spec.isASCII name = true ->
    Spec.isASCII (toSnake name) = true
    /\ Spec.noUpper (toSnake name) = true
    /\ toSnake (toSnake name) = toSnake name.
Proof.
  intros name H. rewrite (toSnake_ascii name H).
  destruct (snakeCase_is_lower name H) as [Ha Hl].
  repeat split; try assumption.
  rewrite (toSnake_ascii _ Ha). now apply snakeCase_lower.
Qed.

(** X12, witness: the identifier [UserID]. *)
Lemma toSnake_is_idempotent_on_ASCII_names_witness :
  toSnake (toSnake "UserID") = toSnake "UserID".
Proof.
  apply (toSnake_is_idempotent_on_ASCII_names "UserID"). reflexivity.
Defined.

(* ================================================================== *)
(** * IN expansion: a statement without a placeholder                  *)
(* ================================================================== *)

(** X13: a statement in which the IN pattern does not occur.  When the
    arguments make no printer panic, [parseSqlIn] returns the statement as
    it is, and still takes every slice out of the argument list: the
    arguments left are the scalars, in order.  Both variants. *)
Theorem parseSqlIn_without_placeholder_keeps_the_statement :
  forall sqlStr args,
    (Forall (fun a => Spec.passes Spec.supported
                        Pg.convertSlice2StringFuncMap a = true) args ->
     Go.FindAllString Pg.inPattern sqlStr = [] ->
     Pg.parseSqlIn sqlStr args = Some (sqlStr, Spec.positional args))
    /\ (Forall (fun a => Spec.passes Spec.supportedMy
                           My.convertSlice2StringFuncMap a = true) args ->
        Go.FindAllString My.inPattern sqlStr = [] ->
        My.parseSqlIn sqlStr args = Some (sqlStr, Spec.positional args)).
Proof.
  intros sqlStr args. split; intros Hpass Hnone.
  - rewrite (Pg_parseSqlIn_passes sqlStr args Hpass).
    unfold Go.FindAllString in Hnone.
    rewrite <- (matchesOf_piecesFrom Pg.inPattern sqlStr 0) in Hnone.
    rewrite substitute_no_match by exact Hnone.
    now rewrite raw_pieces.
  - rewrite (My_parseSqlIn_passes sqlStr args Hpass).
    unfold Go.FindAllString in Hnone.
    rewrite <- (matchesOf_piecesFrom My.inPattern sqlStr 0) in Hnone.
    rewrite substitute_no_match by exact Hnone.
    now rewrite raw_pieces.
Qed.

(** X13, witness: a statement with an equality test, called with a scalar
    and a slice. *)
Lemma parseSqlIn_without_placeholder_keeps_the_statement_witness :
  Pg.parseSqlIn "SELECT * FROM user WHERE id = $1"
    [Go.AScalar (Go.VInt64 1); Go.AInt64s [2; 3]]
  = Some ("SELECT * FROM user WHERE id = $1", [Go.AScalar (Go.VInt64 1)]).
Proof.
  apply (proj1 (parseSqlIn_without_placeholder_keeps_the_statement
                  "SELECT * FROM user WHERE id = $1"
                  [Go.AScalar (Go.VInt64 1); Go.AInt64s [2; 3]])).
  - repeat constructor.
  - reflexivity.
Defined.

(* ================================================================== *)
(** * SQL synthesizer: the keyword test of an update                   *)
(* ================================================================== *)

(** X19: when [generateUpdate] returns its fragment as it is.  The test
    it makes is for the keyword [DELETE], not [UPDATE]: for every
    fragment and row, the result is the fragment itself exactly when the
    fragment contains, anywhere and in any mix of cases, the text
    [DELETE ] followed on the same line by a space; in every other case,
    a fragment that is a complete [UPDATE] statement included, the result
    is [UPDATE], the table name, the SET list of the row and [WHERE]
    followed by the fragment, or by the key filter of the row when the
    fragment is empty. *)
Theorem generateUpdate_verbatim_iff_delete_keyword_occurs :
  forall sqlStr dest,
    (Spec.containsKeyword "delete " sqlStr ->
     Pg.generateUpdate sqlStr dest = sqlStr)
    /\ (~ Spec.containsKeyword "delete " sqlStr ->
        Pg.generateUpdate sqlStr dest
        = "UPDATE " ++ Pg.getTableName dest ++ " SET "
          ++ Go.Join (map Spec.assignment
                        (filter Spec.updated (Go.Fields dest))) ","
          ++ " WHERE "
          ++ (if String.eqb sqlStr "" then Spec.keyFilter (Go.Fields dest)
              else sqlStr)).
Proof.
  intros sqlStr dest. unfold Pg.generateUpdate. split; intros H.
  - now rewrite (matchesKeyword_complete _ _ H).
  - destruct (Go.matchesKeyword "delete " sqlStr) eqn:E.
    + exfalso. apply H. now apply matchesKeyword_sound.
    + unfold Pg.setsWhere. rewrite generateUpdate_fold. reflexivity.
Qed.

(** X19, witness: a fragment that is a complete [UPDATE] statement. *)
Lemma generateUpdate_verbatim_iff_delete_keyword_occurs_witness :
  Pg.generateUpdate "UPDATE user SET name='x' WHERE id = 1" (Ex.user 1 "b" "e")
  = "UPDATE user SET name='b',email='e' WHERE UPDATE user SET name='x' WHERE id = 1".
Proof.
  rewrite (proj2 (generateUpdate_verbatim_iff_delete_keyword_occurs
                    "UPDATE user SET name='x' WHERE id = 1"
                    (Ex.user 1 "b" "e"))).
  - reflexivity.
  - intros H. apply matchesKeyword_complete in H. discriminate H.
Defined.

(* ================================================================== *)
(** * Reading back a printed integer                                   *)
(* ================================================================== *)

Section ReadingIntegers.
Import Go.

Lemma of_uint_acc_decimal (d : Decimal.uint) :
  forall p, Z.pos (Pos.of_uint_acc d p) = Spec.decimal d (Z.pos p).
Proof.
  induction d; intros p; cbn [Pos.of_uint_acc Spec.decimal];
    try reflexivity; rewrite IHd; f_equal; lia.
Qed.

Lemma of_uint_decimal (d : Decimal.uint) :
  Z.of_N (Pos.of_uint d) = Spec.decimal d 0.
Proof.
  induction d; cbn [Pos.of_uint Spec.decimal]; try reflexivity;
    try (rewrite N2Z.inj_pos, of_uint_acc_decimal; reflexivity).
  exact IHd.
Qed.

Lemma decimal_to_uint (p : positive) :
  Spec.decimal (Pos.to_uint p) 0 = Z.pos p.
Proof. now rewrite <- of_uint_decimal, Unsigned.of_to. Qed.

Lemma decimal_grows (d : Decimal.uint) :
  forall acc, 0 <= acc -> acc <= Spec.decimal d acc.
Proof.
  induction d; intros acc H; cbn [Spec.decimal]; try lia;
    match goal with
    | |- _ <= Spec.decimal _ ?a =>
        specialize (IHd a ltac:(lia)); lia
    end.
Qed.

(** The text of a number that is not negative: digits, at least one, that
    read as the number. *)
Lemma itoa_digits (n : Z) :
  0 <= n ->
  exists d,
    d <> Decimal.Nil
    /\ itoa n = NilEmpty.string_of_uint d
    /\ Spec.decimal d 0 = n.
Proof.
  intros H. unfold itoa. destruct n as [|p|p]; [| |lia].
  - exists (Decimal.D0 Decimal.Nil). repeat split. discriminate.
  - exists (Pos.to_uint p). pose proof (Unsigned.to_uint_nonnil p) as Hnil.
    repeat split; [assumption | | apply decimal_to_uint].
    cbn [Z.to_int NilZero.string_of_int]. unfold NilZero.string_of_uint.
    now destruct (Pos.to_uint p).
Qed.

Lemma atoiDigits_decimal (d : Decimal.uint) :
  forall acc,
    strconv.atoiDigits (NilEmpty.string_of_uint d) acc
    = Some (Spec.decimal d acc).
Proof.
  induction d; intros acc;
    cbn [NilEmpty.string_of_uint strconv.atoiDigits Spec.decimal];
    try reflexivity;
    match goal with
    | |- context [strconv.byte ?x] =>
        let v := eval vm_compute in (strconv.byte x) in
        change (strconv.byte x) with v
    end;
    cbn [Z.ltb Z.compare Pos.compare Pos.compare_cont];
    rewrite IHd; f_equal; f_equal; lia.
Qed.

Lemma digits_decimal (cutoff maxVal : Z) :
  2 ^ 63 <= cutoff * 10 -> 2 ^ 63 - 1 <= maxVal ->
  forall (d : Decimal.uint) (acc : Z),
    0 <= acc -> Spec.decimal d acc < 2 ^ 63 ->
    strconv.digits false 10 cutoff maxVal (NilEmpty.string_of_uint d) acc false
    = inr (Spec.decimal d acc, false).
Proof.
  intros Hcut Hmax. induction d; intros acc Hacc Hlt;
    cbn [NilEmpty.string_of_uint strconv.digits Spec.decimal] in *;
    try reflexivity;
    match goal with
    | |- context [byte_of ?c] =>
        let v := eval vm_compute in (byte_of c) in
        change (byte_of c) with v
    end;
    cbn [Z.eqb andb between Z.leb Z.compare Pos.compare Pos.compare_cont Z.sub
         Z.opp Z.add Z.pos_sub Z.succ_double Z.pred_double Z.double
         Pos.pred_double];
    change (strconv.byte 10) with 10;
    change (strconv.uint64 10) with 10;
    match goal with
    | H : Spec.decimal ?d' ?a < _ |- _ =>
        pose proof (decimal_grows d' a ltac:(lia)) as Hgrow
    end;
    cbn [Z.leb Z.compare Pos.compare Pos.compare_cont];
    (destruct (Z.leb_spec cutoff acc); [lia|]);
    unfold strconv.uint64;
    rewrite (Z.mod_small (acc * 10)) by lia;
    match goal with
    | |- context [(acc * 10 + ?k) mod 2 ^ 64] =>
        rewrite (Z.mod_small (acc * 10 + k)) by lia;
        (destruct (Z.ltb_spec (acc * 10 + k) (acc * 10)); [lia|]);
        (destruct (Z.ltb_spec maxVal (acc * 10 + k)); [lia|])
    end;
    cbn [orb]; rewrite ?Z.add_0_r; apply IHd; lia.
Qed.

Lemma first_digit_no_sign (d : Decimal.uint) :
  d <> Decimal.Nil ->
  exists c rest,
    NilEmpty.string_of_uint d = String c rest
    /\ (byte_of c =? 45) = false /\ (byte_of c =? 43) = false.
Proof.
  intros H. destruct d; [contradiction| ..];
    cbn [NilEmpty.string_of_uint]; eexists; eexists; repeat split.
Qed.

(** [Atoi] reads back what [%d] prints, for every number of an [int] that
    is not negative. *)
Lemma Atoi_itoa (n : Z) :
  0 <= n < 2 ^ 63 -> strconv.Atoi (itoa n) = (n, None).
Proof.
  intros [Hn Hlt]. destruct (itoa_digits n Hn) as (d & Hnil & -> & Hval).
  destruct (first_digit_no_sign d Hnil) as (c & rest & Hs & Hminus & Hplus).
  unfold strconv.Atoi.
  destruct ((0 <? _)%nat && (_ <? 19)%nat).
  - assert (Hat : strconv.at_ (NilEmpty.string_of_uint d) 0 = byte_of c)
      by (now rewrite Hs).
    rewrite Hat, Hminus, Hplus. cbn [orb andb].
    now rewrite atoiDigits_decimal, Hval.
  - unfold strconv.ParseInt. rewrite Hs, Hminus, Hplus. cbn [orb].
    unfold strconv.ParseUint.
    change ((2 <=? 10) && (10 <=? 36)) with true. cbv beta iota.
    change (0 =? 0) with true. cbv beta iota.
    rewrite <- Hs. change (10 =? 0) with false.
    rewrite (digits_decimal
               (strconv.maxUint64 / strconv.uint64 10 + 1)
               (strconv.uint64 (strconv.uint64 (Z.shiftl 1 strconv.IntSize) - 1))
               ltac:(vm_compute; intros H; discriminate H)
               ltac:(vm_compute; intros H; discriminate H) d 0 ltac:(lia)
               ltac:(rewrite Hval; exact Hlt)).
    rewrite Hval. cbn [andb negb].
    change (strconv.uint64 (Z.shiftl 1 (strconv.IntSize - 1))) with (2 ^ 63).
    destruct (Z.leb_spec (2 ^ 63) n); [lia|].
    unfold strconv.int64.
    replace ((n + 2 ^ 63) mod 2 ^ 64) with (n + 2 ^ 63)
      by (symmetry; apply Z.mod_small; lia).
    f_equal. lia.
Qed.

End ReadingIntegers.

(* ================================================================== *)
(** * Base64: decoding what was encoded                                *)
(* ================================================================== *)

Section Base64.
Import Go.

(** Bit operations on disjoint bits are sums. *)
Lemma lor_disjoint (k x y : Z) :
  0 <= k -> x mod 2 ^ k = 0 -> 0 <= y < 2 ^ k -> Z.lor x y = x + y.
Proof.
  intros Hk Hx Hy. rewrite <- Z.add_lor_land.
  assert (Z.land x y = 0) as ->; [|lia].
  apply Z.bits_inj'. intros n Hn. rewrite Z.land_spec, Z.bits_0.
  destruct (Z.lt_ge_cases n k) as [Hlt|Hge].
  - rewrite <- (Z.mod_pow2_bits_low x k n Hlt), Hx, Z.bits_0. reflexivity.
  - rewrite <- (Z.mod_small y (2 ^ k)) by assumption.
    rewrite Z.mod_pow2_bits_high by lia. apply andb_false_r.
Qed.

Lemma land_63 (x : Z) : Z.land x 63 = x mod 64.
Proof. change 63 with (Z.ones 6). now rewrite Z.land_ones by lia. Qed.

Lemma uint8_mod (x : Z) : uint8 x = uint8 (x mod 256).
Proof. unfold uint8. now rewrite Z.mod_mod by lia. Qed.

Lemma uint8_of_byte (x : Z) (c : ascii) : x mod 256 = byte_of c -> uint8 x = c.
Proof. intros H. rewrite uint8_mod, H. apply uint8_byte_of. Qed.

(** The value of three bytes, of two and of one. *)
Lemma val3 (a b c : Z) :
  0 <= a < 256 -> 0 <= b < 256 -> 0 <= c < 256 ->
  Z.lor (Z.lor (Z.shiftl a 16) (Z.shiftl b 8)) c = a * 65536 + b * 256 + c.
Proof.
  intros Ha Hb Hc. rewrite !Z.shiftl_mul_pow2 by lia.
  change (2 ^ 16) with 65536. change (2 ^ 8) with 256.
  rewrite (lor_disjoint 16 (a * 65536) (b * 256)); [| lia | | lia].
  - rewrite (lor_disjoint 8); [reflexivity | lia | | lia].
    change (2 ^ 8) with 256. Z.div_mod_to_equations. lia.
  - change (2 ^ 16) with 65536. Z.div_mod_to_equations. lia.
Qed.

Lemma val2 (a b : Z) :
  0 <= a < 256 -> 0 <= b < 256 ->
  Z.lor (Z.shiftl a 16) (Z.shiftl b 8) = a * 65536 + b * 256.
Proof.
  intros Ha Hb. rewrite !Z.shiftl_mul_pow2 by lia.
  change (2 ^ 16) with 65536. change (2 ^ 8) with 256.
  rewrite (lor_disjoint 16 (a * 65536) (b * 256)); [reflexivity | lia | | lia].
  change (2 ^ 16) with 65536. Z.div_mod_to_equations. lia.
Qed.

(** The value of four six-bit numbers. *)
Lemma val4 (s0 s1 s2 s3 : Z) :
  0 <= s0 < 64 -> 0 <= s1 < 64 -> 0 <= s2 < 64 -> 0 <= s3 < 64 ->
  Z.lor (Z.lor (Z.lor (Z.shiftl s0 18) (Z.shiftl s1 12)) (Z.shiftl s2 6)) s3
  = s0 * 262144 + s1 * 4096 + s2 * 64 + s3.
Proof.
  intros H0 H1 H2 H3. rewrite !Z.shiftl_mul_pow2 by lia.
  change (2 ^ 18) with 262144. change (2 ^ 12) with 4096.
  change (2 ^ 6) with 64.
  rewrite (lor_disjoint 18 (s0 * 262144) (s1 * 4096)); [| lia | | lia].
  - rewrite (lor_disjoint 12 _ (s2 * 64)); [| lia | | lia].
    + rewrite (lor_disjoint 6); [reflexivity | lia | | lia].
      change (2 ^ 6) with 64. Z.div_mod_to_equations. lia.
    + change (2 ^ 12) with 4096. Z.div_mod_to_equations. lia.
  - change (2 ^ 18) with 262144. Z.div_mod_to_equations. lia.
Qed.

Lemma sextet (val k : Z) :
  0 <= k -> Z.land (Z.shiftr val k) 63 = (val / 2 ^ k) mod 64.
Proof. intros Hk. now rewrite land_63, Z.shiftr_div_pow2. Qed.

Lemma sextet_range (x : Z) : 0 <= x mod 64 < 64.
Proof. apply Z.mod_pos_bound. lia. Qed.

(** Every six-bit number is read back from its character. *)
Lemma decodeMap_encode (v : Z) :
  0 <= v < 64 -> base64.decodeMap (base64.encode v) = v.
Proof.
  intros H. rewrite <- (Z2Nat.id v) by lia.
  assert (Hn : (Z.to_nat v < 64)%nat) by lia.
  generalize dependent (Z.to_nat v). clear. intros n Hn.
  do 64 (destruct n as [|n]; [reflexivity|]). lia.
Qed.

(** One character of the alphabet, read in a quantum. *)
Lemma decodeFrom_char (v : Z) (rest : string) (dbuf : list Z) (out : string) :
  0 <= v < 64 ->
  base64.decodeFrom (String (base64.encode v) rest) dbuf out
  = if (List.length (append1 dbuf v) =? 4)%nat
    then base64.decodeFrom rest [] (out ++ base64.quantum (append1 dbuf v) 4)
    else base64.decodeFrom rest (append1 dbuf v) out.
Proof.
  intros H. cbn [base64.decodeFrom]. rewrite decodeMap_encode by assumption.
  destruct (Z.eqb_spec v 255); [lia | reflexivity].
Qed.

(** The bytes of a quantum, by its value. *)
Lemma quantum_bytes (s0 s1 s2 s3 : Z) (a b c : ascii) :
  0 <= s0 < 64 -> 0 <= s1 < 64 -> 0 <= s2 < 64 -> 0 <= s3 < 64 ->
  let val := s0 * 262144 + s1 * 4096 + s2 * 64 + s3 in
  (val / 65536) mod 256 = byte_of a ->
  ((val / 256) mod 256 = byte_of b ->
   base64.quantum [s0; s1; s2; s3] 3 = String a (String b "")
   /\ (val mod 256 = byte_of c ->
       base64.quantum [s0; s1; s2; s3] 4 = String a (String b (String c ""))))
  /\ base64.quantum [s0; s1; s2; s3] 2 = String a "".
Proof.
  intros H0 H1 H2 H3 val Ha. unfold base64.quantum. cbn [nth].
  rewrite val4 by assumption. fold val.
  rewrite !Z.shiftr_div_pow2 by lia.
  change (2 ^ 16) with 65536. change (2 ^ 8) with 256.
  rewrite (uint8_of_byte _ a Ha). split; [|reflexivity].
  intros Hb. rewrite (uint8_of_byte _ b Hb). split; [reflexivity|].
  intros Hc. now rewrite (uint8_of_byte _ c Hc).
Qed.

(** Three bytes, their four characters, and back. *)
Lemma decodeFrom_three (a b c : ascii) (rest out : string) :
  let val :=
    Z.lor (Z.lor (Z.shiftl (byte_of a) 16) (Z.shiftl (byte_of b) 8))
      (byte_of c) in
  base64.decodeFrom
    (String (base64.encode (Z.land (Z.shiftr val 18) 63))
       (String (base64.encode (Z.land (Z.shiftr val 12) 63))
          (String (base64.encode (Z.land (Z.shiftr val 6) 63))
             (String (base64.encode (Z.land val 63)) rest)))) [] out
  = base64.decodeFrom rest [] (out ++ String a (String b (String c ""))).
Proof.
  pose proof (byte_of_bounded a) as Ha. pose proof (byte_of_bounded b) as Hb.
  pose proof (byte_of_bounded c) as Hc.
  cbv zeta. rewrite val3 by assumption.
  rewrite !sextet by lia. rewrite land_63.
  set (val := byte_of a * 65536 + byte_of b * 256 + byte_of c).
  rewrite !decodeFrom_char by apply sextet_range.
  cbn [append1 app List.length Nat.eqb].
  destruct (quantum_bytes ((val / 2 ^ 18) mod 64) ((val / 2 ^ 12) mod 64)
              ((val / 2 ^ 6) mod 64) (val mod 64) a b c)
    as [H _]; try apply sextet_range.
  - subst val. change (2 ^ 18) with 262144. change (2 ^ 12) with 4096.
    change (2 ^ 6) with 64. Z.div_mod_to_equations. lia.
  - destruct H as [_ H].
    + subst val. change (2 ^ 18) with 262144. change (2 ^ 12) with 4096.
      change (2 ^ 6) with 64. Z.div_mod_to_equations. lia.
    + rewrite H; [reflexivity|].
      subst val. change (2 ^ 18) with 262144. change (2 ^ 12) with 4096.
      change (2 ^ 6) with 64. Z.div_mod_to_equations. lia.
Qed.

(** One byte left over, and two. *)
Lemma decodeFrom_one (a : ascii) (out : string) :
  let val := Z.shiftl (byte_of a) 16 in
  base64.decodeFrom
    (String (base64.encode (Z.land (Z.shiftr val 18) 63))
       (String (base64.encode (Z.land (Z.shiftr val 12) 63)) "==")) [] out
  = Some (out ++ String a "").
Proof.
  pose proof (byte_of_bounded a) as Ha.
  cbv zeta. rewrite Z.shiftl_mul_pow2 by lia. change (2 ^ 16) with 65536.
  rewrite !sextet by lia.
  set (val := byte_of a * 65536).
  rewrite !decodeFrom_char by apply sextet_range.
  cbn [append1 app List.length Nat.eqb].
  cbn [base64.decodeFrom].
  change (base64.decodeMap "=") with 255.
  cbn [Z.eqb Pos.eqb negb base64.isNewline Ascii.eqb Bool.eqb orb andb
       List.length base64.skipNewlines].
  change (base64.quantum [(val / 2 ^ 18) mod 64; (val / 2 ^ 12) mod 64] 2)
    with (base64.quantum [(val / 2 ^ 18) mod 64; (val / 2 ^ 12) mod 64; 0; 0] 2).
  destruct (quantum_bytes ((val / 2 ^ 18) mod 64) ((val / 2 ^ 12) mod 64) 0 0
              a a a) as [_ H]; try apply sextet_range; try lia.
  - subst val. change (2 ^ 18) with 262144. change (2 ^ 12) with 4096.
    Z.div_mod_to_equations. lia.
  - now rewrite H.
Qed.

Lemma decodeFrom_two (a b : ascii) (out : string) :
  let val := Z.lor (Z.shiftl (byte_of a) 16) (Z.shiftl (byte_of b) 8) in
  base64.decodeFrom
    (String (base64.encode (Z.land (Z.shiftr val 18) 63))
       (String (base64.encode (Z.land (Z.shiftr val 12) 63))
          (String (base64.encode (Z.land (Z.shiftr val 6) 63)) "="))) [] out
  = Some (out ++ String a (String b "")).
Proof.
  pose proof (byte_of_bounded a) as Ha. pose proof (byte_of_bounded b) as Hb.
  cbv zeta. rewrite val2 by assumption.
  rewrite !sextet by lia.
  set (val := byte_of a * 65536 + byte_of b * 256).
  rewrite !decodeFrom_char by apply sextet_range.
  cbn [append1 app List.length Nat.eqb].
  cbn [base64.decodeFrom].
  change (base64.decodeMap "=") with 255.
  cbn [Z.eqb Pos.eqb negb base64.isNewline Ascii.eqb Bool.eqb orb andb
       List.length base64.skipNewlines].
  change (base64.quantum
            [(val / 2 ^ 18) mod 64; (val / 2 ^ 12) mod 64; (val / 2 ^ 6) mod 64] 3)
    with (base64.quantum
            [(val / 2 ^ 18) mod 64; (val / 2 ^ 12) mod 64;
             (val / 2 ^ 6) mod 64; 0] 3).
  destruct (quantum_bytes ((val / 2 ^ 18) mod 64) ((val / 2 ^ 12) mod 64)
              ((val / 2 ^ 6) mod 64) 0 a b b)
    as [H _]; try apply sextet_range; try lia.
  - subst val. change (2 ^ 18) with 262144. change (2 ^ 12) with 4096.
    change (2 ^ 6) with 64. Z.div_mod_to_equations. lia.
  - destruct H as [H _].
    + subst val. change (2 ^ 18) with 262144. change (2 ^ 12) with 4096.
      change (2 ^ 6) with 64. Z.div_mod_to_equations. lia.
    + now rewrite H.
Qed.

Lemma decodeFrom_encoded :
  forall (n : nat) (src out : string),
    (String.length src <= n)%nat ->
    base64.decodeFrom (base64.EncodeToString src) [] out = Some (out ++ src).
Proof.
  induction n as [|n IH]; intros src out Hlen.
  - destruct src; [|simpl in Hlen; lia]. cbn. now rewrite append_nil_r.
  - destruct src as [|a [|b [|c rest]]].
    + cbn. now rewrite append_nil_r.
    + apply decodeFrom_one.
    + apply decodeFrom_two.
    + cbn [base64.EncodeToString]. rewrite decodeFrom_three.
      rewrite IH by (simpl in Hlen; lia).
      now rewrite append_assoc.
Qed.

(** [DecodeString] gives back the bytes [EncodeToString] was given. *)
Lemma DecodeString_EncodeToString (src : string) :
  base64.DecodeString (base64.EncodeToString src) = Some src.
Proof. apply (decodeFrom_encoded (String.length src) src ""). lia. Qed.

End Base64.

(* ================================================================== *)
(** * UTF-8: writing out the runes of a text                           *)
(* ================================================================== *)

Section Utf8.
Import Go.

Lemma land_low (x k : Z) (m : Z) :
  0 <= k -> m = Z.ones k -> Z.land x m = x mod 2 ^ k.
Proof. intros Hk ->. now apply Z.land_ones. Qed.

Lemma lor_high (h k y : Z) :
  0 <= k -> h mod 2 ^ k = 0 -> 0 <= y < 2 ^ k -> Z.lor h y = h + y.
Proof. apply lor_disjoint. Qed.

(** The trailing byte of an encoding holds six bits of the rune. *)
Lemma tail_byte (x : Z) :
  Z.lor 128 (Z.land (strconv.byte x) 63) = 128 + x mod 64.
Proof.
  unfold strconv.byte. rewrite land_63.
  rewrite (lor_high 128 7) by (try lia; Z.div_mod_to_equations; lia).
  f_equal. Z.div_mod_to_equations. lia.
Qed.

Lemma head_byte (h k x : Z) :
  0 <= k -> h mod 2 ^ k = 0 -> 0 <= x < 2 ^ k -> 2 ^ k <= 256 ->
  Z.lor h (strconv.byte x) = h + x.
Proof.
  intros Hk Hh Hx Hle. unfold strconv.byte.
  rewrite (Z.mod_small x 256) by lia. now apply (lor_high h k).
Qed.

(** The rune of a two-byte, three-byte and four-byte encoding. *)
Lemma rune2 (b0 b1 : Z) :
  192 <= b0 <= 223 -> 128 <= b1 <= 191 ->
  Z.lor (Z.shiftl (Z.land b0 31) 6) (Z.land b1 63)
  = (b0 - 192) * 64 + (b1 - 128).
Proof.
  intros H0 H1. rewrite (land_low b0 5 31), land_63 by (lia || reflexivity).
  rewrite Z.shiftl_mul_pow2 by lia. change (2 ^ 5) with 32.
  change (2 ^ 6) with 64.
  rewrite (lor_disjoint 6) by (try lia; change (2 ^ 6) with 64;
                               Z.div_mod_to_equations; lia).
  Z.div_mod_to_equations. lia.
Qed.

Lemma rune3 (b0 b1 b2 : Z) :
  224 <= b0 <= 239 -> 128 <= b1 <= 191 -> 128 <= b2 <= 191 ->
  Z.lor (Z.shiftl (Z.land b0 15) 12)
    (Z.lor (Z.shiftl (Z.land b1 63) 6) (Z.land b2 63))
  = (b0 - 224) * 4096 + (b1 - 128) * 64 + (b2 - 128).
Proof.
  intros H0 H1 H2.
  rewrite (land_low b0 4 15), !land_63 by (lia || reflexivity).
  rewrite !Z.shiftl_mul_pow2 by lia. change (2 ^ 4) with 16.
  change (2 ^ 6) with 64. change (2 ^ 12) with 4096.
  rewrite (lor_disjoint 6 (b1 mod 64 * 64))
    by (try lia; change (2 ^ 6) with 64; Z.div_mod_to_equations; lia).
  rewrite (lor_disjoint 12)
    by (try lia; change (2 ^ 12) with 4096; Z.div_mod_to_equations; lia).
  Z.div_mod_to_equations. lia.
Qed.

Lemma rune4 (b0 b1 b2 b3 : Z) :
  240 <= b0 <= 247 -> 128 <= b1 <= 191 -> 128 <= b2 <= 191 ->
  128 <= b3 <= 191 ->
  Z.lor (Z.shiftl (Z.land b0 7) 18)
    (Z.lor (Z.shiftl (Z.land b1 63) 12)
       (Z.lor (Z.shiftl (Z.land b2 63) 6) (Z.land b3 63)))
  = (b0 - 240) * 262144 + (b1 - 128) * 4096 + (b2 - 128) * 64 + (b3 - 128).
Proof.
  intros H0 H1 H2 H3.
  rewrite (land_low b0 3 7), !land_63 by (lia || reflexivity).
  rewrite !Z.shiftl_mul_pow2 by lia. change (2 ^ 3) with 8.
  change (2 ^ 6) with 64. change (2 ^ 12) with 4096.
  change (2 ^ 18) with 262144.
  rewrite (lor_disjoint 6 (b2 mod 64 * 64))
    by (try lia; change (2 ^ 6) with 64; Z.div_mod_to_equations; lia).
  rewrite (lor_disjoint 12 (b1 mod 64 * 4096))
    by (try lia; change (2 ^ 12) with 4096; Z.div_mod_to_equations; lia).
  rewrite (lor_disjoint 18)
    by (try lia; change (2 ^ 18) with 262144; Z.div_mod_to_equations; lia).
  Z.div_mod_to_equations. lia.
Qed.

Lemma uint8_is (x : Z) (c : ascii) : x = byte_of c -> uint8 x = c.
Proof. intros ->. apply uint8_byte_of. Qed.

Lemma cont_range (c : ascii) : cont c = true -> 128 <= byte_of c <= 191.
Proof. unfold cont, between. lia. Qed.

(** What [string(r)] writes for the rune of an encoding is the
    encoding. *)
Lemma EncodeRune_decodeRune (c : ascii) (s : string) :
  (fst (decodeRune c s) =? RuneError)
  && (snd (decodeRune c s) =? 1)%nat = false ->
  String c s
  = utf8.EncodeRune (fst (decodeRune c s))
    ++ drop (pred (snd (decodeRune c s))) s.
Proof.
  pose proof (byte_of_bounded c) as Hc.
  unfold decodeRune.
  destruct (Z.ltb_spec (byte_of c) 128) as [H1|H1].
  { intros _. cbn [fst snd pred drop]. unfold utf8.EncodeRune.
    rewrite (Z.mod_small (byte_of c)) by lia.
    destruct (Z.leb_spec (byte_of c) 127); [|lia].
    now rewrite uint8_byte_of. }
  destruct (between 194 223 (byte_of c)) eqn:E2.
  { unfold between in E2.
    destruct s as [|c1 s]; [discriminate|].
    destruct (cont c1) eqn:Ec1; [|discriminate]. intros _.
    apply cont_range in Ec1. cbn [fst snd pred drop].
    rewrite rune2 by lia.
    set (r := (byte_of c - 192) * 64 + (byte_of c1 - 128)).
    unfold utf8.EncodeRune. rewrite (Z.mod_small r) by (subst r; lia).
    destruct (Z.leb_spec r 127); [subst r; lia|].
    destruct (Z.leb_spec r 2047); [|subst r; lia].
    rewrite tail_byte, Z.shiftr_div_pow2 by lia.
    rewrite (head_byte 192 5) by
      (try reflexivity; try lia; subst r; change (2 ^ 5) with 32;
       change (2 ^ 6) with 64; Z.div_mod_to_equations; lia).
    cbn [String.append]. f_equal; [|f_equal]; symmetry; apply uint8_is;
      subst r; change (2 ^ 6) with 64; Z.div_mod_to_equations; lia. }
  destruct (between 224 239 (byte_of c)) eqn:E3.
  { unfold between in E3.
    destruct s as [|c1 [|c2 s]]; try discriminate.
    destruct (between _ _ (byte_of c1) && cont c2) eqn:E; [|discriminate].
    intros _. apply andb_prop in E as [Eb1 Ec2].
    apply cont_range in Ec2. unfold between in Eb1.
    assert (Hb1 : 128 <= byte_of c1 <= 191
                  /\ (byte_of c = 224 -> 160 <= byte_of c1)
                  /\ (byte_of c = 237 -> byte_of c1 <= 159)).
    { destruct (Z.eqb_spec (byte_of c) 224), (Z.eqb_spec (byte_of c) 237);
        lia. }
    clear Eb1. cbn [fst snd pred drop].
    rewrite rune3 by lia.
    set (r := (byte_of c - 224) * 4096 + (byte_of c1 - 128) * 64
              + (byte_of c2 - 128)).
    unfold utf8.EncodeRune. rewrite (Z.mod_small r) by (subst r; lia).
    destruct (Z.leb_spec r 127); [subst r; lia|].
    destruct (Z.leb_spec r 2047); [subst r; lia|].
    destruct (Z.ltb_spec 1114111 r); [subst r; lia|].
    destruct (Z.leb_spec 55296 r), (Z.leb_spec r 57343);
      try (subst r; lia); cbn [orb andb];
      (destruct (Z.leb_spec r 65535); [|subst r; lia]);
      rewrite !tail_byte, !Z.shiftr_div_pow2 by lia;
      rewrite (head_byte 224 4) by
        (try reflexivity; try lia; subst r; change (2 ^ 4) with 16;
         change (2 ^ 12) with 4096; Z.div_mod_to_equations; lia);
      cbn [String.append]; (f_equal; [|f_equal; [|f_equal]]);
      symmetry; apply uint8_is; subst r; change (2 ^ 6) with 64;
      change (2 ^ 12) with 4096; Z.div_mod_to_equations; lia. }
  destruct (between 240 244 (byte_of c)) eqn:E4; [|discriminate].
  unfold between in E4.
  destruct s as [|c1 [|c2 [|c3 s]]]; try discriminate.
  destruct (between _ _ (byte_of c1) && cont c2 && cont c3) eqn:E;
    [|discriminate].
  intros _. apply andb_prop in E as [E Ec3]. apply andb_prop in E as [Eb1 Ec2].
  apply cont_range in Ec2. apply cont_range in Ec3. unfold between in Eb1.
  assert (Hb1 : 128 <= byte_of c1 <= 191
                /\ (byte_of c = 240 -> 144 <= byte_of c1)
                /\ (byte_of c = 244 -> byte_of c1 <= 143)).
  { destruct (Z.eqb_spec (byte_of c) 240), (Z.eqb_spec (byte_of c) 244);
      lia. }
  clear Eb1. cbn [fst snd pred drop].
  rewrite rune4 by lia.
  set (r := (byte_of c - 240) * 262144 + (byte_of c1 - 128) * 4096
            + (byte_of c2 - 128) * 64 + (byte_of c3 - 128)).
  unfold utf8.EncodeRune. rewrite (Z.mod_small r) by (subst r; lia).
  destruct (Z.leb_spec r 127); [subst r; lia|].
  destruct (Z.leb_spec r 2047); [subst r; lia|].
  destruct (Z.ltb_spec 1114111 r); [subst r; lia|].
  destruct (Z.leb_spec 55296 r), (Z.leb_spec r 57343);
    try (subst r; lia); cbn [orb andb].
  destruct (Z.leb_spec r 65535); [subst r; lia|].
  rewrite !tail_byte, !Z.shiftr_div_pow2 by lia.
  rewrite (head_byte 240 3) by
    (try reflexivity; try lia; subst r; change (2 ^ 3) with 8;
     change (2 ^ 18) with 262144; Z.div_mod_to_equations; lia).
  cbn [String.append]. (f_equal; [|f_equal; [|f_equal; [|f_equal]]]);
    symmetry; apply uint8_is; subst r; change (2 ^ 6) with 64;
    change (2 ^ 12) with 4096; change (2 ^ 18) with 262144;
    Z.div_mod_to_equations; lia.
Qed.

Lemma concat_cons (x : string) (xs : list string) :
  String.concat "" (x :: xs) = x ++ String.concat "" xs.
Proof.
  destruct xs as [|y xs]; cbn [String.concat]; [now rewrite append_nil_r|].
  reflexivity.
Qed.

(** The runes of a valid text, written out, are the text. *)
Lemma String_rangeFrom (s : string) :
  forall skip i,
    Notions.validFrom skip s = true ->
    utf8.String_ (map snd (rangeFrom i skip s)) = drop skip s.
Proof.
  unfold utf8.String_.
  induction s as [|c s IH]; intros skip i H.
  - now destruct skip.
  - destruct skip as [|k]; cbn [rangeFrom Notions.validFrom drop] in *.
    + pose proof (EncodeRune_decodeRune c s) as Hrune.
      destruct (decodeRune c s) as [r w]. cbn [fst snd] in Hrune.
      apply andb_prop in H as [Hr Hs]. apply negb_true_iff in Hr.
      cbn [map snd]. rewrite concat_cons, (IH _ _ Hs).
      symmetry. now apply Hrune.
    + now apply IH.
Qed.

Lemma String_runes (s : string) :
  Notions.validUTF8 s = true -> utf8.String_ (utf8.runes s) = s.
Proof. intros H. apply (String_rangeFrom s 0 0 H). Qed.

End Utf8.

(* ================================================================== *)
(** * [Encrypt] and [Decrypt]                                          *)
(* ================================================================== *)

Section Crypt.
Import Go.

(** ** Runes *)

Lemma lor_bound (a b : Z) : 0 <= a -> 0 <= b -> 0 <= Z.lor a b <= a + b.
Proof.
  intros Ha Hb. split; [now apply Z.lor_nonneg|].
  rewrite <- (Z.add_lor_land a b).
  assert (0 <= Z.land a b) by (apply Z.land_nonneg; now left). lia.
Qed.

Lemma land_bound (x : Z) (k : Z) :
  0 <= k -> 0 <= Z.land x (Z.ones k) < 2 ^ k.
Proof.
  intros Hk. rewrite Z.land_ones by assumption.
  apply Z.mod_pos_bound. now apply Z.pow_pos_nonneg.
Qed.

Lemma shiftl_bound (x k m : Z) :
  0 <= k -> 0 <= x < m -> 0 <= Z.shiftl x k <= (m - 1) * 2 ^ k.
Proof.
  intros Hk Hx. rewrite Z.shiftl_mul_pow2 by assumption.
  assert (0 < 2 ^ k) by now apply Z.pow_pos_nonneg. nia.
Qed.

(** Every rune a [range] loop yields is a number of 21 bits. *)
Lemma decodeRune_range (c : ascii) (s : string) :
  0 <= fst (decodeRune c s) < 2 ^ 21.
Proof.
  pose proof (byte_of_bounded c) as Hc.
  assert (Hbad : 0 <= RuneError < 2 ^ 21) by (unfold RuneError; lia).
  pose proof (land_bound (byte_of c) 5 ltac:(lia)) as H5.
  pose proof (land_bound (byte_of c) 4 ltac:(lia)) as H4.
  pose proof (land_bound (byte_of c) 3 ltac:(lia)) as H3.
  change (Z.ones 5) with 31 in H5. change (Z.ones 4) with 15 in H4.
  change (Z.ones 3) with 7 in H3.
  assert (H6 : forall x, 0 <= Z.land x 63 < 2 ^ 6)
    by (intros x; apply (land_bound x 6); lia).
  unfold decodeRune.
  destruct (byte_of c <? 128) eqn:E1; [cbn [fst]; lia|].
  destruct (between 194 223 (byte_of c)).
  { destruct s as [|c1 s]; [exact Hbad|].
    destruct (cont c1); [|exact Hbad]. cbn [fst].
    pose proof (shiftl_bound _ 6 _ ltac:(lia) H5).
    pose proof (H6 (byte_of c1)).
    pose proof (lor_bound (Z.shiftl (Z.land (byte_of c) 31) 6)
                  (Z.land (byte_of c1) 63) ltac:(lia) ltac:(lia)).
    lia. }
  destruct (between 224 239 (byte_of c)).
  { destruct s as [|c1 [|c2 s]]; try exact Hbad.
    destruct (_ && _); [|exact Hbad]. cbn [fst].
    pose proof (shiftl_bound _ 12 _ ltac:(lia) H4).
    pose proof (shiftl_bound _ 6 _ ltac:(lia) (H6 (byte_of c1))).
    pose proof (H6 (byte_of c2)).
    pose proof (lor_bound (Z.shiftl (Z.land (byte_of c1) 63) 6)
                  (Z.land (byte_of c2) 63) ltac:(lia) ltac:(lia)).
    pose proof (lor_bound (Z.shiftl (Z.land (byte_of c) 15) 12)
                  (Z.lor (Z.shiftl (Z.land (byte_of c1) 63) 6)
                     (Z.land (byte_of c2) 63)) ltac:(lia) ltac:(lia)).
    lia. }
  destruct (between 240 244 (byte_of c)); [|exact Hbad].
  destruct s as [|c1 [|c2 [|c3 s]]]; try exact Hbad.
  destruct (_ && _); [|exact Hbad]. cbn [fst].
  pose proof (shiftl_bound _ 18 _ ltac:(lia) H3).
  pose proof (shiftl_bound _ 12 _ ltac:(lia) (H6 (byte_of c1))).
  pose proof (shiftl_bound _ 6 _ ltac:(lia) (H6 (byte_of c2))).
  pose proof (H6 (byte_of c3)).
  pose proof (lor_bound (Z.shiftl (Z.land (byte_of c2) 63) 6)
                (Z.land (byte_of c3) 63) ltac:(lia) ltac:(lia)).
  pose proof (lor_bound (Z.shiftl (Z.land (byte_of c1) 63) 12)
                (Z.lor (Z.shiftl (Z.land (byte_of c2) 63) 6)
                   (Z.land (byte_of c3) 63)) ltac:(lia) ltac:(lia)).
  pose proof (lor_bound (Z.shiftl (Z.land (byte_of c) 7) 18)
                (Z.lor (Z.shiftl (Z.land (byte_of c1) 63) 12)
                   (Z.lor (Z.shiftl (Z.land (byte_of c2) 63) 6)
                      (Z.land (byte_of c3) 63))) ltac:(lia) ltac:(lia)).
  lia.
Qed.

Lemma rangeFrom_runes (s : string) :
  forall i skip,
    Forall (fun r => 0 <= r < 2 ^ 21) (map snd (rangeFrom i skip s)).
Proof.
  induction s as [|c s IH]; intros i skip; cbn [rangeFrom]; [constructor|].
  destruct skip as [|k]; [|apply IH].
  pose proof (decodeRune_range c s) as H.
  destruct (decodeRune c s) as [r w]. cbn [map snd fst] in *.
  constructor; [exact H | apply IH].
Qed.

Lemma runes_range (s : string) :
  Forall (fun r => 0 <= r < 2 ^ 21) (utf8.runes s).
Proof. apply rangeFrom_runes. Qed.

Lemma runes_not_empty (s : string) : s <> "" -> utf8.runes s <> [].
Proof.
  destruct s as [|c s]; [contradiction|]. intros _.
  unfold utf8.runes, range. cbn [rangeFrom].
  destruct (decodeRune c s). discriminate.
Qed.

(** The runes of an ASCII text are its bytes, and its bytes as runes give
    the text. *)
Lemma runes_ascii (s : string) :
  Spec.isASCII s = true -> utf8.runes s = Orm.bytes s.
Proof. intros H. apply (rangeFrom_ascii s H). Qed.

Lemma bytes_length (s : string) : List.length (Orm.bytes s) = String.length s.
Proof.
  unfold Orm.bytes. rewrite length_map.
  induction s as [|c s IH]; [reflexivity | simpl; now rewrite IH].
Qed.

Lemma String_bytes (s : string) :
  Spec.isASCII s = true -> utf8.String_ (Orm.bytes s) = s.
Proof.
  unfold utf8.String_, Orm.bytes.
  induction s as [|c s IH]; intros H; [reflexivity|].
  cbn [Spec.isASCII] in H. apply andb_prop in H as [Hc Hs].
  cbn [list_ascii_of_string map]. rewrite concat_cons, IH by assumption.
  unfold utf8.EncodeRune.
  pose proof (byte_of_bounded c) as Hb. apply Z.ltb_lt in Hc.
  rewrite (Z.mod_small (byte_of c)) by lia.
  destruct (Z.leb_spec (byte_of c) 127); [|lia].
  now rewrite uint8_byte_of.
Qed.

(** ** The text between the two functions *)

Lemma string_of_uint_digits (d : Decimal.uint) :
  Spec.allDigits (NilEmpty.string_of_uint d) = true.
Proof.
  induction d; cbn [NilEmpty.string_of_uint Spec.allDigits];
    [reflexivity | ..]; rewrite IHd; reflexivity.
Qed.

Lemma digit_ascii (c : ascii) :
  Pg.isDigit c = true ->
  (byte_of c <? 128) = true /\ Ascii.eqb c "_" = false.
Proof.
  unfold Pg.isDigit, between. intros H. split; [lia|].
  destruct (Ascii.eqb_spec c "_") as [->|]; [|reflexivity].
  discriminate H.
Qed.

Lemma digits_ascii (s : string) :
  Spec.allDigits s = true -> Spec.isASCII s = true.
Proof.
  induction s as [|c s IH]; [reflexivity|].
  cbn [Spec.allDigits Spec.isASCII]. intros H. apply andb_prop in H as [Hc Hs].
  destruct (digit_ascii c Hc) as [-> _]. now rewrite IH.
Qed.

Lemma isASCII_app (a b : string) :
  Spec.isASCII a = true -> Spec.isASCII b = true ->
  Spec.isASCII (a ++ b) = true.
Proof.
  induction a as [|c a IH]; intros Ha Hb; [exact Hb|].
  cbn [Spec.isASCII String.append] in *. apply andb_prop in Ha as [Hc Ha].
  now rewrite Hc, IH.
Qed.

(** The text of a number that is not negative is made of digits. *)
Lemma itoa_allDigits (n : Z) : 0 <= n -> Spec.allDigits (itoa n) = true.
Proof.
  intros H. destruct (itoa_digits n H) as (d & _ & -> & _).
  apply string_of_uint_digits.
Qed.

Lemma underscored_ascii (vs : list Z) :
  Forall (fun v => 0 <= v) vs -> Spec.isASCII (Notions.underscored vs) = true.
Proof.
  induction 1 as [|v vs Hv Hvs IH]; [reflexivity|].
  cbn [Notions.underscored]. apply (isASCII_app "_"); [reflexivity|].
  apply isASCII_app; [|exact IH].
  apply digits_ascii. now apply itoa_allDigits.
Qed.

Lemma fold_underscored (vs : list Z) :
  forall acc,
    fold_left (fun str value => str ++ "_" ++ itoa value) vs acc
    = acc ++ Notions.underscored vs.
Proof.
  induction vs as [|v vs IH]; intros acc; cbn [fold_left Notions.underscored].
  - now rewrite append_nil_r.
  - rewrite IH. now rewrite !append_assoc.
Qed.

(** ** [strings.Split] on that text *)

Lemma splitFrom_digits (t : string) :
  Spec.allDigits t = true ->
  forall s cur,
    strings.splitFrom "_" (t ++ s) cur = strings.splitFrom "_" s (cur ++ t).
Proof.
  induction t as [|c t IH]; intros H s cur.
  - now rewrite append_nil_r.
  - cbn [Spec.allDigits] in H. apply andb_prop in H as [Hc Ht].
    destruct (digit_ascii c Hc) as [_ Hne].
    cbn [String.append strings.splitFrom]. rewrite Hne.
    rewrite IH by assumption. now rewrite append_assoc.
Qed.

Lemma splitFrom_underscored (vs : list Z) :
  Forall (fun v => 0 <= v) vs ->
  forall cur,
    strings.splitFrom "_" (Notions.underscored vs) cur = cur :: map itoa vs.
Proof.
  induction 1 as [|v vs Hv Hvs IH]; intros cur; [reflexivity|].
  cbn [Notions.underscored String.append strings.splitFrom map].
  change (Ascii.eqb "_" "_") with true. cbv iota. f_equal.
  rewrite splitFrom_digits by now apply itoa_allDigits.
  now rewrite IH.
Qed.

(** ** The two loops *)

Lemma keyByte_range (saltKey : string) (index : nat) :
  0 <= Notions.keyByte saltKey index < 256.
Proof.
  unfold Notions.keyByte. rewrite Z.land_comm.
  apply (land_bound _ 8). lia.
Qed.

Lemma bytes_not_empty (s : string) :
  s <> "" -> (List.length (Orm.bytes s) =? 0)%nat = false.
Proof. destruct s; [contradiction | reflexivity]. Qed.

Lemma Encrypt_loop_shifted (saltKey : string) :
  saltKey <> "" ->
  forall rs index tmpList,
    Orm.Encrypt_loop (Orm.bytes saltKey) index rs tmpList
    = Some (tmpList ++ Notions.shifted saltKey index rs)%list.
Proof.
  intros Hkey. induction rs as [|r rs IH]; intros index tmpList.
  - cbn. now rewrite app_nil_r.
  - cbn [Orm.Encrypt_loop Notions.shifted].
    rewrite (bytes_not_empty saltKey Hkey), IH.
    unfold append1, Notions.keyByte. now rewrite <- app_assoc.
Qed.

Lemma shifted_range (saltKey : string) (rs : list Z) :
  Forall (fun r => 0 <= r < 2 ^ 21) rs ->
  forall index,
    Forall (fun v => 0 <= v) (Notions.shifted saltKey index rs).
Proof.
  induction 1 as [|r rs Hr Hrs IH]; intros index; cbn [Notions.shifted];
    constructor; [|apply IH].
  pose proof (keyByte_range saltKey index). lia.
Qed.

Lemma shifted_not_empty (saltKey : string) (index : nat) (rs : list Z) :
  rs <> [] -> Notions.shifted saltKey index rs <> [].
Proof. destruct rs; [contradiction | discriminate]. Qed.

Lemma Decrypt_loop_shifted (saltKey : string) :
  saltKey <> "" ->
  forall rs,
    Forall (fun r => 0 <= r < 2 ^ 21) rs ->
    forall index tmpList,
      Orm.Decrypt_loop (Orm.bytes saltKey) index
        (map itoa (Notions.shifted saltKey index rs)) tmpList
      = Some (tmpList ++ rs)%list.
Proof.
  intros Hkey. induction 1 as [|r rs Hr Hrs IH]; intros index tmpList.
  - cbn. now rewrite app_nil_r.
  - cbn [Notions.shifted map Orm.Decrypt_loop].
    rewrite (bytes_not_empty saltKey Hkey).
    pose proof (keyByte_range saltKey index) as Hk.
    rewrite Atoi_itoa by lia. cbn [fst].
    fold (Notions.keyByte saltKey index).
    replace (strconv.int64
               (r + Notions.keyByte saltKey index
                - Notions.keyByte saltKey index)) with r.
    + rewrite IH. unfold append1. now rewrite <- app_assoc.
    + unfold strconv.int64.
      replace (r + Notions.keyByte saltKey index
               - Notions.keyByte saltKey index + 2 ^ 63) with (r + 2 ^ 63)
        by lia.
      rewrite Z.mod_small by lia. lia.
Qed.

Lemma int32_small (r : Z) : 0 <= r < 2 ^ 21 -> utf8.int32 r = r.
Proof.
  intros H. unfold utf8.int32. rewrite Z.mod_small by lia. lia.
Qed.

Lemma fold_EncodeRune (rs : list Z) :
  Forall (fun r => 0 <= r < 2 ^ 21) rs ->
  forall acc,
    fold_left (fun str val => str ++ utf8.EncodeRune (utf8.int32 val)) rs acc
    = acc ++ utf8.String_ rs.
Proof.
  unfold utf8.String_.
  induction 1 as [|r rs Hr Hrs IH]; intros acc; cbn [fold_left map].
  - cbn. now rewrite append_nil_r.
  - rewrite IH, concat_cons, int32_small by assumption.
    now rewrite append_assoc.
Qed.

(** ** The slice expression *)

Lemma slice_tail (rs : list Z) (spare : nat) :
  rs <> [] ->
  Orm.slice rs (List.length rs + spare) 1 (List.length rs) = Some (tl rs).
Proof.
  intros H. unfold Orm.slice.
  destruct rs as [|r rs]; [contradiction|].
  replace ((1 <=? List.length (r :: rs))%nat) with true
    by (symmetry; apply Nat.leb_le; simpl; lia).
  replace ((List.length (r :: rs) <=? List.length (r :: rs) + spare)%nat)
    with true by (symmetry; apply Nat.leb_le; lia).
  cbn [andb]. f_equal.
  rewrite firstn_app, firstn_all, Nat.sub_diag. cbn [firstn].
  now rewrite app_nil_r.
Qed.

End Crypt.

(** X14: [Decrypt] gives back what [Encrypt] was given.  For every text
    that is not empty and every key that is not empty, [Encrypt] returns
    a text that [Decrypt], with the same key, turns into the text's runes
    written out again ([string([]rune(codeData))]): the text itself when
    it is valid UTF-8 (an ASCII text, for one), and otherwise the text
    with each byte that is not part of an encoding replaced by U+FFFD.
    This holds whatever capacity the conversion [[]rune(s)] gives its
    result. *)
Theorem Decrypt_gives_back_what_Encrypt_was_given :
  forall spare codeData saltKey,
    codeData <> "" -> saltKey <> "" ->
    exists ntData,
      Orm.Encrypt codeData saltKey = Some ntData
      /\ Orm.Decrypt spare ntData saltKey
         = Some (utf8.String_ (utf8.runes codeData))
      /\ (Notions.validUTF8 codeData = true ->
          Orm.Decrypt spare ntData saltKey = Some codeData)
      /\ (Spec.isASCII codeData = true ->
          Orm.Decrypt spare ntData saltKey = Some codeData).
Proof.
  intros spare codeData saltKey Hdata Hkey.
  pose proof (runes_range codeData) as Hrs.
  pose proof (runes_not_empty codeData Hdata) as Hne.
  set (rs := utf8.runes codeData) in *.
  remember (Notions.shifted saltKey 0 rs) as vs eqn:Evs.
  assert (Hvs : Forall (fun v => 0 <= v) vs)
    by (subst vs; now apply shifted_range).
  assert (Hvne : vs <> []) by (subst vs; now apply shifted_not_empty).
  assert (Henc : Orm.Encrypt codeData saltKey
                 = Some (base64.EncodeToString (Notions.underscored vs))).
  { unfold Orm.Encrypt. fold rs.
    rewrite (Encrypt_loop_shifted saltKey Hkey rs 0 []). cbn [app].
    rewrite <- Evs. now rewrite fold_underscored. }
  assert (Hdec : Orm.Decrypt spare
                   (base64.EncodeToString (Notions.underscored vs)) saltKey
                 = Some (utf8.String_ rs)).
  { unfold Orm.Decrypt. rewrite DecodeString_EncodeToString.
    pose proof (underscored_ascii vs Hvs) as Hascii.
    rewrite (runes_ascii _ Hascii).
    rewrite <- (bytes_length (Notions.underscored vs)).
    rewrite slice_tail.
    2: { destruct vs; [contradiction | discriminate]. }
    destruct vs as [|v vs']; [contradiction|].
    inversion Hvs as [|? ? Hv Hvs']; subst.
    cbn [Notions.underscored String.append Orm.bytes list_ascii_of_string
         map tl].
    fold (Orm.bytes (Go.itoa v ++ Notions.underscored vs')).
    rewrite String_bytes.
    2: { apply isASCII_app; [|now apply underscored_ascii].
         apply digits_ascii. now apply itoa_allDigits. }
    unfold strings.Split.
    rewrite splitFrom_digits by now apply itoa_allDigits.
    rewrite splitFrom_underscored by assumption. cbn [String.append].
    change (Go.itoa v :: map Go.itoa vs') with (map Go.itoa (v :: vs')).
    rewrite Evs.
    rewrite (Decrypt_loop_shifted saltKey Hkey rs Hrs 0 []). cbn [app].
    now rewrite fold_EncodeRune. }
  exists (base64.EncodeToString (Notions.underscored vs)).
  split; [exact Henc|]. split; [exact Hdec|]. split.
  - intros Hvalid. rewrite Hdec. f_equal. now apply String_runes.
  - intros Hascii. rewrite Hdec. f_equal. unfold rs.
    rewrite runes_ascii by assumption. now apply String_bytes.
Qed.

(** X14, witness: the text [hello] and the key [key]. *)
Lemma Decrypt_gives_back_what_Encrypt_was_given_witness :
  exists ntData,
    Orm.Encrypt "hello" "key" = Some ntData
    /\ Orm.Decrypt (fun _ => 0%nat) ntData "key" = Some "hello".
Proof.
  destruct (Decrypt_gives_back_what_Encrypt_was_given (fun _ => 0%nat)
              "hello" "key") as (ntData & Henc & _ & Hdec & _).
  - discriminate.
  - discriminate.
  - exists ntData. split; [exact Henc | apply Hdec; reflexivity].
Defined.

Section EmptyTexts.
Import Go.

Lemma splitFrom_not_empty (sep : ascii) (s : string) :
  forall cur, strings.splitFrom sep s cur <> [].
Proof.
  induction s as [|c s IH]; intros cur; cbn [strings.splitFrom];
    [discriminate|].
  destruct (Ascii.eqb c sep); [discriminate | apply IH].
Qed.

Lemma Decrypt_loop_empty_key (dataArr : list string) :
  dataArr <> [] ->
  forall index tmpList, Orm.Decrypt_loop [] index dataArr tmpList = None.
Proof. destruct dataArr; [contradiction | reflexivity]. Qed.

End EmptyTexts.

(** X15: the empty text and the empty key.  [Encrypt] turns the empty
    text into the empty text, with any key, and [Decrypt] panics on the
    empty text (the slice expression [newData[1:0]]): what [Encrypt]
    returns for an empty text cannot be given back to [Decrypt].  With an
    empty key, [Encrypt] panics on every text that is not empty (the
    remainder [index%keyLen] by zero), and [Decrypt] never returns a
    text: it returns the empty text when its argument is not Base64, and
    panics otherwise. *)
Theorem Encrypt_and_Decrypt_on_the_empty_text_and_the_empty_key :
  forall spare saltKey,
    Orm.Encrypt "" saltKey = Some ""
    /\ Orm.Decrypt spare "" saltKey = None
    /\ (forall codeData, codeData <> "" -> Orm.Encrypt codeData "" = None)
    /\ (forall ntData,
          Orm.Decrypt spare ntData ""
          = match base64.DecodeString ntData with
            | None => Some ""
            | Some _ => None
            end).
Proof.
  intros spare saltKey. repeat split.
  - intros codeData H. unfold Orm.Encrypt.
    pose proof (runes_not_empty codeData H) as Hne.
    destruct (utf8.runes codeData); [contradiction | reflexivity].
  - intros ntData. unfold Orm.Decrypt.
    destruct (base64.DecodeString ntData) as [decodeStr|]; [|reflexivity].
    destruct (Orm.slice _ _ _ _) as [sub|]; [|reflexivity].
    now rewrite Decrypt_loop_empty_key by apply splitFrom_not_empty.
Qed.

(** X15, witness: the text [a] and the empty key. *)
Lemma Encrypt_and_Decrypt_on_the_empty_text_and_the_empty_key_witness :
  Orm.Encrypt "a" "" = None
  /\ Orm.Decrypt (fun _ => 0%nat) "" "key" = None.
Proof.
  destruct (Encrypt_and_Decrypt_on_the_empty_text_and_the_empty_key
              (fun _ => 0%nat) "key") as (_ & Hdec & Henc & _).
  split; [apply Henc; discriminate | exact Hdec].
Defined.

(* ================================================================== *)
(** * [Int]                                                            *)
(* ================================================================== *)

(** X16: [Int] reads no number.  It passes the base 64 and the bit size
    10 to [ParseInt] where the base 10 and the bit size 64 were meant;
    [ParseInt] refuses the base (or the empty text) before it looks at a
    digit, and [Int] drops the error: for every text and each of the
    three result types, [Int] returns 0. *)
Theorem Int_returns_zero_for_every_text :
  forall T dest,
    Orm.Int T dest = 0
    /\ exists e, strconv.ParseInt dest 64 10 = (0, Some e).
Proof.
  intros T dest.
  assert (H : exists e, strconv.ParseInt dest 64 10 = (0, Some e)).
  { unfold strconv.ParseInt. destruct dest as [|c0 rest]; [now eexists|].
    match goal with
    | |- context [strconv.ParseUint ?s 64 10] =>
        assert (Hu : exists e, strconv.ParseUint s 64 10 = (0, Some e)
                               /\ strconv.isErrRange e = false)
    end.
    { destruct (_ || _); [destruct rest|]; eexists; split; reflexivity. }
    destruct Hu as (e & -> & He). rewrite He. cbn [negb]. now eexists. }
  split; [|exact H]. destruct H as (e & He).
  unfold Orm.Int. rewrite He. now destruct T.
Qed.

(* ================================================================== *)
(** * [Random]                                                         *)
(* ================================================================== *)

Section RandomText.
Import Go.

Lemma hexDigit_isHex (upper : bool) (d : Z) :
  0 <= d < 16 -> Notions.isHex (Orm.hexDigit upper d) = true.
Proof.
  intros H. unfold Notions.isHex, Orm.hexDigit, between.
  destruct (Z.ltb_spec d 10); [|destruct upper];
    rewrite byte_of_uint8 by lia; lia.
Qed.

(** The text of a byte: one or two hexadecimal digits. *)
Lemma hex_text (upper : bool) (c : ascii) :
  Notions.allHex (Orm.hex upper (byte_of c)) = true
  /\ (1 <= String.length (Orm.hex upper (byte_of c)))%nat.
Proof.
  pose proof (byte_of_bounded c) as H. unfold Orm.hex.
  destruct (Z.ltb_spec (byte_of c) 16); cbn [Notions.allHex String.length].
  - rewrite hexDigit_isHex by lia. split; [reflexivity | lia].
  - rewrite !hexDigit_isHex; [split; [reflexivity | lia] | |].
    + apply Z.mod_pos_bound. lia.
    + Z.div_mod_to_equations. lia.
Qed.

Lemma allHex_app (a b : string) :
  Notions.allHex a = true -> Notions.allHex b = true ->
  Notions.allHex (a ++ b) = true.
Proof.
  induction a as [|c a IH]; intros Ha Hb; [exact Hb|].
  cbn [Notions.allHex String.append] in *. apply andb_prop in Ha as [Hc Ha].
  now rewrite Hc, IH.
Qed.

Lemma concat_hex (f : ascii -> string) (l : list ascii) :
  (forall c, Notions.allHex (f c) = true /\ (1 <= String.length (f c))%nat) ->
  Notions.allHex (String.concat "" (map f l)) = true
  /\ (List.length l <= String.length (String.concat "" (map f l)))%nat.
Proof.
  intros Hf. induction l as [|c l [IHa IHl]]; [split; [reflexivity | cbn; lia]|].
  cbn [map]. rewrite concat_cons, append_length. destruct (Hf c) as [Ha Hl].
  split; [now apply allHex_app | simpl; lia].
Qed.

Lemma substring_prefix (n : nat) :
  forall s,
    (n <= String.length s)%nat ->
    String.length (substring 0 n s) = n
    /\ (Notions.allHex s = true -> Notions.allHex (substring 0 n s) = true).
Proof.
  induction n as [|n IH]; intros s H.
  - destruct s; split; reflexivity.
  - destruct s as [|c s]; [simpl in H; lia|].
    destruct (IH s ltac:(simpl in H; lia)) as [Hlen Hhex].
    cbn [substring String.length Notions.allHex]. split; [now rewrite Hlen|].
    intros Hc. apply andb_prop in Hc as [Hc Hs]. now rewrite Hc, Hhex.
Qed.

End RandomText.

(** X17: what [Random] returns.  For every length that is not negative,
    whatever bytes [rand.Read] delivers, [Random] returns a text of
    exactly [length] characters, each a hexadecimal digit (in lower case
    for a byte up to 127, in upper case above); for a negative length it
    panics. *)
Theorem Random_returns_length_hexadecimal_digits :
  forall entropy length,
    (0 <= length ->
     exists str,
       Orm.Random entropy length = Some str
       /\ String.length str = Z.to_nat length
       /\ Notions.allHex str = true)
    /\ (length < 0 -> Orm.Random entropy length = None).
Proof.
  intros entropy length. split; intros H; unfold Orm.Random.
  - destruct (Z.eqb_spec length 0) as [->|Hne];
      [exists ""; repeat split|].
    destruct (Z.ltb_spec length 0); [lia|].
    destruct (concat_hex
                (fun b => Orm.hex (127 <? Go.byte_of b) (Go.byte_of b))
                (map entropy (seq 0 (Z.to_nat length)))
                (fun c => hex_text _ c)) as [Hhex Hlen].
    rewrite length_map, length_seq in Hlen.
    cbv zeta.
    set (str := String.concat ""
                  (map (fun b => Orm.hex (127 <? Go.byte_of b) (Go.byte_of b))
                     (map entropy (seq 0 (Z.to_nat length))))) in *.
    destruct (Nat.ltb_spec (Z.to_nat length) (String.length str)) as [Hlt|Hge].
    + destruct (substring_prefix (Z.to_nat length) str) as [Hl Hh]; [lia|].
      eexists. repeat split; [exact Hl | now apply Hh].
    + exists str. repeat split; [lia | exact Hhex].
  - destruct (Z.eqb_spec length 0); [lia|].
    destruct (Z.ltb_spec length 0); [reflexivity | lia].
Qed.

(** X17, witness: eight characters, from bytes that are all zero. *)
Lemma Random_returns_length_hexadecimal_digits_witness :
  exists str,
    Orm.Random (fun _ => "000"%char) 8 = Some str
    /\ String.length str = 8%nat.
Proof.
  destruct (proj1 (Random_returns_length_hexadecimal_digits
                     (fun _ => "000"%char) 8) ltac:(lia))
    as (str & E & Hlen & _).
  exists str. split; [exact E | exact Hlen].
Defined.

(* ================================================================== *)
(** * [BindDefault]                                                    *)
(* ================================================================== *)

Section Defaults.
Import Go.
Variable ParseFloat : string -> Z -> value * option strconv.NumError.
Variable float32 : value -> value.

Lemma BindDefault_loop_plain (fields : list Orm.Tagged) :
  Forall (fun f => Notions.plain f = true) fields ->
  Orm.BindDefault_loop ParseFloat float32 fields
  = (None, map Notions.defaulted fields).
Proof.
  induction 1 as [|f fields Hf Hfs IH]; [reflexivity|].
  cbn [Orm.BindDefault_loop map]. rewrite IH. unfold Notions.defaulted.
  unfold Notions.plain in Hf.
  destruct (Orm.held f) as [n|n|s| | |] eqn:E; try discriminate;
    cbn [Interface Sprint kindOf].
  - pose proof (itoa_not_empty n) as Hn. apply String.eqb_neq in Hn.
    now rewrite Hn.
  - pose proof (itoa_not_empty n) as Hn. apply String.eqb_neq in Hn.
    now rewrite Hn.
  - destruct (String.eqb s ""); reflexivity.
Qed.

End Defaults.

(** X18: which defaults [BindDefault] applies.  On a struct whose fields
    are of type [int], [int64] or [string], [BindDefault] returns no error
    and gives its [default] tag to every string field that is empty, and
    to no other field: an [int] or [int64] field keeps its value whatever
    its tag says, even when it holds 0, because it never prints as the
    empty text. *)
Theorem BindDefault_gives_defaults_to_empty_strings_only :
  forall ParseFloat float32 fields,
    Forall (fun f => Notions.plain f = true) fields ->
    Orm.BindDefault ParseFloat float32 (Orm.TStruct (Some fields))
    = Some (None, Some (map Notions.defaulted fields))
    /\ (forall df n,
          Notions.defaulted {| Orm.default := df; Orm.held := Go.VInt n |}
          = {| Orm.default := df; Orm.held := Go.VInt n |}
          /\ Notions.defaulted {| Orm.default := df; Orm.held := Go.VInt64 n |}
             = {| Orm.default := df; Orm.held := Go.VInt64 n |})
    /\ (forall df s,
          Notions.defaulted {| Orm.default := df; Orm.held := Go.VString s |}
          = {| Orm.default := df;
               Orm.held := Go.VString (if String.eqb s "" then df else s) |}).
Proof.
  intros ParseFloat float32 fields H. split; [|split].
  - unfold Orm.BindDefault. now rewrite BindDefault_loop_plain.
  - intros df n. unfold Notions.defaulted. cbn [Orm.held Go.Interface Go.Sprint].
    pose proof (itoa_not_empty n) as Hn. apply String.eqb_neq in Hn.
    now rewrite Hn.
  - intros df s. unfold Notions.defaulted. cbn [Orm.held Go.Interface Go.Sprint].
    destruct (String.eqb s ""); reflexivity.
Qed.

(** X18, witness: a struct with a count and a name, both zero, both with
    a default. *)
Lemma BindDefault_gives_defaults_to_empty_strings_only_witness :
  Orm.BindDefault (fun _ _ => (Go.VInt 0, None)) (fun v => v)
    (Orm.TStruct
       (Some [{| Orm.default := "10"; Orm.held := Go.VInt 0 |};
              {| Orm.default := "anonymous"; Orm.held := Go.VString "" |}]))
  = Some (None,
          Some [{| Orm.default := "10"; Orm.held := Go.VInt 0 |};
                {| Orm.default := "anonymous";
                   Orm.held := Go.VString "anonymous" |}]).
Proof.
  apply (proj1 (BindDefault_gives_defaults_to_empty_strings_only
                  (fun _ _ => (Go.VInt 0, None)) (fun v => v)
                  [{| Orm.default := "10"; Orm.held := Go.VInt 0 |};
                   {| Orm.default := "anonymous"; Orm.held := Go.VString "" |}]
                  ltac:(repeat constructor))).
Defined.
